(** * Anime aggregation routes: a shallow embedding and its properties

    The repository holds two generations of the same Express route file:
    - [src/server/routes/anime.ts]  (Jikan/Consumet back end), and
    - [src/unnamed/part_000]        (AniList/Anify back end).
    Both are embedded below, each in a module of its own ([Jikan] and
    [AniList]); the leaves they share come first: JavaScript numbers, values
    and strings, the regular expressions and the title normalizer, the TTL
    cache, sorting and paging, and the upstream a route awaits.  After them
    come the routes built on these: the episodes, streaming and info routes
    of the Jikan generation ([JikanRoutes], [JikanStreaming], [JikanInfo]),
    the streaming and info routes of the AniList generation ([Streaming],
    [AniListInfo]), the synopsis of a summary ([Synopsis]) and the client's
    reading of the episodes endpoint ([Client]).  The properties follow the
    embedding, one module of facts per component. *)

From Stdlib Require Import ZArith QArith Qround Lia List Bool String Ascii.
From stdpp Require Import gmap strings list fin_maps sorting pretty.
Import ListNotations.

Local Open Scope Z_scope.
#[local] Set Warnings "-clear-no-such-hyp,-register-all".
#[local] Set Warnings "-notation-for-abbreviation".

(** ** JavaScript numbers

    A JS number is an IEEE-754 double.  The routes only compare numbers, test
    them for truthiness, take the sign of a difference and multiply or divide
    small integers, so numbers are modelled as the extended rationals plus
    [NaN]: every double is one of these values, and comparison, truthiness and
    the sign of a difference are exact on doubles.  Sums, products and
    quotients are the exact ones.  They are the code's wherever the operands
    and the result are integers below 2^53, as with an integer page number;
    the code rounds the product of a page number with a fraction to a double,
    and the theorems on products are stated for integer pages. *)
Module JsNum.

Inductive num : Type :=
| NaN
| Inf (negative : bool)
| Fin (q : Q).

Definition of_Z (z : Z) : num := Fin (inject_Z z).
Definition of_nat (n : nat) : num := of_Z (Z.of_nat n).

(** [!!x]: every number but [NaN] and [0] is truthy. *)
Definition truthy (x : num) : bool :=
  match x with
  | NaN => false
  | Inf _ => true
  | Fin q => negb (Qeq_bool q 0)
  end.

(** SameValueZero, the equality of [Map] keys and [Set] members. *)
Definition same_value_zero (x y : num) : bool :=
  match x, y with
  | NaN, NaN => true
  | Inf s, Inf t => Bool.eqb s t
  | Fin p, Fin q => Qeq_bool p q
  | _, _ => false
  end.

(** [x < y]; any comparison with [NaN] is false. *)
Definition ltb (x y : num) : bool :=
  match x, y with
  | NaN, _ | _, NaN => false
  | Inf s, Inf t => s && negb t
  | Inf s, Fin _ => s
  | Fin _, Inf t => negb t
  | Fin p, Fin q => negb (Qle_bool q p)
  end.

(** [x > y]. *)
Definition gtb (x y : num) : bool := ltb y x.

(** [x - y]. *)
Definition sub (x y : num) : num :=
  match x, y with
  | NaN, _ | _, NaN => NaN
  | Inf s, Inf t => if Bool.eqb s t then NaN else Inf s
  | Inf s, Fin _ => Inf s
  | Fin _, Inf t => Inf (negb t)
  | Fin p, Fin q => Fin (p - q)
  end.

(** [x + y]. *)
Definition add (x y : num) : num :=
  match x, y with
  | NaN, _ | _, NaN => NaN
  | Inf s, Inf t => if Bool.eqb s t then Inf s else NaN
  | Inf s, Fin _ | Fin _, Inf s => Inf s
  | Fin p, Fin q => Fin (p + q)
  end.

(** [x * y]. *)
Definition mul (x y : num) : num :=
  match x, y with
  | NaN, _ | _, NaN => NaN
  | Inf s, Inf t => Inf (xorb s t)
  | Inf s, Fin q | Fin q, Inf s =>
      if Qeq_bool q 0 then NaN else Inf (xorb s (negb (Qle_bool 0 q)))
  | Fin p, Fin q => Fin (p * q)
  end.

(** [x / y] for a finite, non-zero divisor (the only use: [total / perPage]). *)
Definition div (x y : num) : num :=
  match x, y with
  | Fin p, Fin q => if Qeq_bool q 0 then NaN else Fin (p / q)
  | _, _ => NaN
  end.

(** [Math.max(x, y)] and [Math.min(x, y)]: [NaN] if either argument is. *)
Definition max (x y : num) : num :=
  match x, y with
  | NaN, _ | _, NaN => NaN
  | _, _ => if ltb x y then y else x
  end.

Definition min (x y : num) : num :=
  match x, y with
  | NaN, _ | _, NaN => NaN
  | _, _ => if ltb y x then y else x
  end.

(** [Math.ceil(x)]. *)
Definition ceil (x : num) : num :=
  match x with
  | Fin q => of_Z (Qceiling q)
  | _ => x
  end.

(** [x || y] on numbers. *)
Definition or_else (x y : num) : num := if truthy x then x else y.

(** ToIntegerOrInfinity followed by the clamp of [Array.prototype.slice]:
    the index in [0, len] a relative position stands for. *)
Definition slice_index (len : nat) (x : num) : nat :=
  match x with
  | NaN => 0%nat
  | Inf true => 0%nat
  | Inf false => len
  | Fin q =>
      let i := Z.quot (Qnum q) (Zpos (Qden q)) in
      if i <? 0 then Z.to_nat (Z.max (Z.of_nat len + i) 0)
      else Nat.min (Z.to_nat i) len
  end.

(** Propositions used in statements. *)
Definition lt (x y : num) : Prop := ltb x y = true.
Definition is_nan (x : num) : bool := match x with NaN => true | _ => false end.
Definition is_integer (x : num) : bool :=
  match x with
  | Fin q => Z.eqb (Z.rem (Qnum q) (Zpos (Qden q))) 0
  | _ => false
  end.

End JsNum.

(** ** JavaScript values read off requests and upstream JSON *)

(** A JS string is a sequence of UTF-16 code units. *)
Abbreviation jsstring := (list N).

Definition js (s : string) : jsstring :=
  List.map N_of_ascii (list_ascii_of_string s).

(** Values as JSON and query strings carry them: primitives, arrays and
    plain objects ([fields] holds each property once). *)
Inductive jsval : Type :=
| JUndefined
| JNull
| JBool (b : bool)
| JNum (n : JsNum.num)
| JStr (s : jsstring)
| JArr (items : list jsval)
| JObj (fields : list (jsstring * jsval)).

Definition truthy (v : jsval) : bool :=
  match v with
  | JUndefined | JNull => false
  | JBool b => b
  | JNum n => JsNum.truthy n
  | JStr s => match s with [] => false | _ => true end
  | JArr _ | JObj _ => true
  end.

Definition nullish (v : jsval) : bool :=
  match v with JUndefined | JNull => true | _ => false end.

(** ** Results of code that may throw *)

(** A thrown value, with what [e?.message] reads off it. *)
Inductive exn : Type := Thrown (message : jsval).

Inductive result (A : Type) : Type :=
| Ok (a : A)
| Throw (e : exn).
Arguments Ok {A} a.
Arguments Throw {A} e.

#[global] Instance result_ret : MRet result := fun _ a => Ok a.
#[global] Instance result_bind : MBind result := fun _ _ k r =>
  match r with
  | Ok a => k a
  | Throw e => Throw e
  end.

Lemma result_bind_ok {A B} (a : A) (k : A → result B) : (Ok a ≫= k) = k a.
Proof. reflexivity. Qed.

(** ** JavaScript strings *)
Module JsString.

(** White space and line terminators: what [trim] removes and what [\s]
    matches. *)
Definition is_space (c : N) : bool :=
  match c with
  | 9 | 10 | 11 | 12 | 13 | 32 | 160 | 5760 | 8232 | 8233 | 8239 | 8287
  | 12288 | 65279 => true
  | _ => (8192 <=? c) && (c <=? 8202)
  end%N.

Fixpoint trimStart (s : jsstring) : jsstring :=
  match s with
  | c :: s' => if is_space c then trimStart s' else s
  | [] => []
  end.

Fixpoint trimEnd (s : jsstring) : jsstring :=
  match s with
  | c :: s' =>
      match trimEnd s' with
      | [] => if is_space c then [] else [c]
      | t => c :: t
      end
  | [] => []
  end.

Definition trim (s : jsstring) : jsstring := trimEnd (trimStart s).

Definition is_digit (c : N) : bool := ((48 <=? c) && (c <=? 57))%N.

End JsString.

(** ** Regular expressions, as far as the title patterns use them

    The patterns carry the flag [i] and no other: [$] is the end of the
    input, [.] is any code unit but a line terminator, [\b] and [\d] are
    ASCII, and a pattern letter matches itself in either case (a code unit
    above 127 never canonicalizes to an ASCII one). *)
Module Regex.

Inductive cls : Type := Space | Digit | Dot.

Definition is_line_terminator (c : N) : bool :=
  match c with
  | 10 | 13 | 8232 | 8233 => true
  | _ => false
  end%N.

Definition in_cls (p : cls) (c : N) : bool :=
  match p with
  | Space => JsString.is_space c
  | Digit => JsString.is_digit c
  | Dot => negb (is_line_terminator c)
  end.

(** [\w]. *)
Definition is_word (c : N) : bool :=
  (JsString.is_digit c || ((65 <=? c) && (c <=? 90)) || (c =? 95)
   || ((97 <=? c) && (c <=? 122)))%N.

Definition canonicalize (c : N) : N :=
  if ((97 <=? c) && (c <=? 122))%N then (c - 32)%N else c.

Inductive regex : Type :=
| Char (c : N)                  (* a pattern character *)
| Class (p : cls)               (* [\s], [\d], [.] *)
| Star (p : cls)                (* [\s*], [.*] *)
| Plus (p : cls)                (* [\s+], [\d+] *)
| Seq (r1 r2 : regex)
| Alt (r1 r2 : regex)
| Opt (r : regex)               (* [(?:r)?] *)
| WordBoundary                  (* [\b] *)
| End.                          (* [$] *)

(** A continuation receives the code unit before the current position and
    the rest of the input, and answers with what is left after the whole
    match, if there is one. *)
Definition cont : Type := option N → jsstring → option jsstring.

(** Greedy repetition: one more code unit first, the continuation only when
    that fails. *)
Fixpoint star (p : cls) (k : cont) (prev : option N) (s : jsstring) : option jsstring :=
  match s with
  | x :: s' =>
      if in_cls p x then
        match star p k (Some x) s' with
        | Some rest => Some rest
        | None => k prev s
        end
      else k prev s
  | [] => k prev s
  end.

Definition word_before (prev : option N) : bool :=
  match prev with Some c => is_word c | None => false end.
Definition word_after (s : jsstring) : bool :=
  match s with c :: _ => is_word c | [] => false end.

(** The backtracking matcher: alternatives in order, the first success
    wins. *)
Fixpoint run (r : regex) (k : cont) (prev : option N) (s : jsstring) : option jsstring :=
  match r with
  | Char c =>
      match s with
      | x :: s' => if (canonicalize x =? canonicalize c)%N then k (Some x) s' else None
      | [] => None
      end
  | Class p =>
      match s with
      | x :: s' => if in_cls p x then k (Some x) s' else None
      | [] => None
      end
  | Star p => star p k prev s
  | Plus p =>
      match s with
      | x :: s' => if in_cls p x then star p k (Some x) s' else None
      | [] => None
      end
  | Seq r1 r2 => run r1 (run r2 k) prev s
  | Alt r1 r2 =>
      match run r1 k prev s with
      | Some rest => Some rest
      | None => run r2 k prev s
      end
  | Opt r =>
      match run r k prev s with
      | Some rest => Some rest
      | None => k prev s
      end
  | WordBoundary => if xorb (word_before prev) (word_after s) then k prev s else None
  | End => match s with [] => k prev [] | _ => None end
  end.

(** A match that starts at the current position; the answer is the input
    after it. *)
Definition match_here (r : regex) (prev : option N) (s : jsstring) : option jsstring :=
  run r (fun _ rest => Some rest) prev s.

(** The leftmost match: where it starts and what follows it. *)
Fixpoint search (r : regex) (prev : option N) (s : jsstring) (i : nat)
  : option (nat * jsstring) :=
  match match_here r prev s with
  | Some rest => Some (i, rest)
  | None =>
      match s with
      | x :: s' => search r (Some x) s' (S i)
      | [] => None
      end
  end.

(** [s.replace(r, "")] for a pattern without the flag [g]. *)
Definition replace (r : regex) (s : jsstring) : jsstring :=
  match search r None s 0 with
  | Some (i, rest) => take i s ++ rest
  | None => s
  end.

(** Building patterns. *)
Fixpoint seqs (rs : list regex) : regex :=
  match rs with
  | [] => End
  | [r] => r
  | r :: rs' => Seq r (seqs rs')
  end.

Fixpoint alts (rs : list regex) : regex :=
  match rs with
  | [] => End
  | [r] => r
  | r :: rs' => Alt r (alts rs')
  end.

Definition lit (s : string) : regex := seqs (Char <$> js s).

End Regex.

(** ** The title normalizer ([anime.ts] lines 12-22, [part_000] lines 20-30;
    the two copies are the same text) *)
Module Title.
Import Regex.

Definition keyword : regex := alts [lit "Season"; lit "Cour"; lit "Part"].
Definition part_suffix : regex := Opt (seqs [Star Space; lit "Part"; Star Space; Plus Digit]).

(** [/\s*-\s*(Season|Cour|Part)\s*\d+$/i] *)
Definition dash_marker : regex :=
  seqs [Star Space; lit "-"; Star Space; keyword; Star Space; Plus Digit; End].

(** [/\s*\(\s*(Season|Cour|Part)\s*\d+\s*\)$/i] *)
Definition paren_marker : regex :=
  seqs [Star Space; lit "("; Star Space; keyword; Star Space; Plus Digit; Star Space;
        lit ")"; End].

(** [/\s*\b(\d+)(st|nd|rd|th)\s+Season\b.*$/i] *)
Definition ordinal_season : regex :=
  seqs [Star Space; WordBoundary; Plus Digit; alts [lit "st"; lit "nd"; lit "rd"; lit "th"];
        Plus Space; lit "Season"; WordBoundary; Star Dot; End].

(** [/\s*\bSeason\s+\d+(?:\s*Part\s*\d+)?\b.*$/i] *)
Definition season_number : regex :=
  seqs [Star Space; WordBoundary; lit "Season"; Plus Space; Plus Digit; part_suffix;
        WordBoundary; Star Dot; End].

(** [/\s*\bFinal Season(?:\s*Part\s*\d+)?\b.*$/i] *)
Definition final_season : regex :=
  seqs [Star Space; WordBoundary; lit "Final Season"; part_suffix; WordBoundary;
        Star Dot; End].

(** [/\s+(?:II|III|IV|V|VI|VII|VIII|IX|X)$/i] *)
Definition roman_numeral : regex :=
  seqs [Plus Space;
        alts [lit "II"; lit "III"; lit "IV"; lit "V"; lit "VI"; lit "VII"; lit "VIII";
              lit "IX"; lit "X"];
        End].

(** [/\s+\d+$/i] *)
Definition bare_number : regex := seqs [Plus Space; Plus Digit; End].

Definition patterns : list regex :=
  [dash_marker; paren_marker; ordinal_season; season_number; final_season;
   roman_numeral; bare_number].

(** [normalizeBaseTitle(title)], for the string [title] is declared to be
    ([String(title || "")] is then [title]). *)
Definition normalizeBaseTitle (title : jsstring) : jsstring :=
  let s := JsString.trim title in
  let s := List.fold_left (fun s r => replace r s) patterns s in
  JsString.trim s.

End Title.

(** ** [Number] on strings, decimal literals

    StringToNumber for the literals a page or episode number is written in:
    optional white space, an optional sign, then [Infinity] or decimal digits
    with an optional fraction and exponent; the empty string is 0 and
    anything else is [NaN].  Binary, octal and hexadecimal literals are left
    out (they read as [NaN] here), and the value is the exact rational, not
    its rounding to a double. *)
Module Decimal.
Import JsString.

Fixpoint digits (s : jsstring) : jsstring * jsstring :=
  match s with
  | c :: s' => if is_digit c then let '(d, r) := digits s' in (c :: d, r) else ([], s)
  | [] => ([], [])
  end.

Definition value (ds : jsstring) : Z :=
  List.fold_left (fun acc c => 10 * acc + (Z.of_N c - 48)) ds 0.

Definition pow10 (e : Z) : Q := Qpower (10 # 1) e.

(** [ExponentPart], if any; [None] when what is left is no exponent. *)
Definition exponent (s : jsstring) : option Z :=
  match s with
  | [] => Some 0
  | c :: s' =>
      if bool_decide (c = 101%N ∨ c = 69%N) then      (* e, E *)
        let '(neg, s'') :=
          match s' with
          | 45%N :: t => (true, t)
          | 43%N :: t => (false, t)
          | _ => (false, s')
          end in
        match digits s'' with
        | ((_ :: _) as ds, []) => Some (if neg : bool then - value ds else value ds)
        | _ => None
        end
      else None
  end.

(** [StrUnsignedDecimalLiteral]. *)
Definition unsigned (s : jsstring) : option JsNum.num :=
  if bool_decide (s = js "Infinity") then Some (JsNum.Inf false)
  else
    let '(int, r) := digits s in
    let '(frac, r') :=
      match r with
      | 46%N :: t => let '(f, r') := digits t in (Some f, r')
      | _ => (None, r)
      end in
    match int, frac with
    | [], None | [], Some [] => None
    | _, _ =>
        e ← exponent r';
        let f := default [] frac in
        Some (JsNum.Fin
                (Qred ((inject_Z (value int)
                        + inject_Z (value f) * pow10 (- Z.of_nat (length f)))
                       * pow10 e)))
    end.

Definition negate (x : JsNum.num) : JsNum.num :=
  match x with
  | JsNum.NaN => JsNum.NaN
  | JsNum.Inf s => JsNum.Inf (negb s)
  | JsNum.Fin q => JsNum.Fin (- q)
  end.

Definition StringToNumber (s : jsstring) : JsNum.num :=
  match trim s with
  | [] => JsNum.of_Z 0
  | 45%N :: t => default JsNum.NaN (negate <$> unsigned t)
  | 43%N :: t => default JsNum.NaN (unsigned t)
  | t => default JsNum.NaN (unsigned t)
  end.

End Decimal.

(** ** The TTL cache ([part_000], lines 7-18)

    [cache] is a module-level object used as a dictionary from string keys to
    [{at, data}] entries; [Date.now()] is passed in as [now].  A lookup that
    finds nothing, or finds an entry that is too old, returns [null]. *)
Module Cache.

Record entry : Type := { at_ : Z; data : jsval }.

Definition TTL_MS : Z := 5 * 60 * 1000.

Definition getCached (cache : gmap jsstring entry) (now : Z) (key : jsstring) : jsval :=
  match cache !! key with
  | None => JNull
  | Some e => if now - at_ e >? TTL_MS then JNull else data e
  end.

Definition setCached (cache : gmap jsstring entry) (now : Z) (key : jsstring) (d : jsval)
  : gmap jsstring entry :=
  <[key := {| at_ := now; data := d |}]> cache.

(** A run of later [setCached] calls, each with its own clock reading. *)
Definition set_all (writes : list (Z * jsstring * jsval)) (cache : gmap jsstring entry)
  : gmap jsstring entry :=
  List.fold_left (fun c w => setCached c w.1.1 w.1.2 w.2) writes cache.

End Cache.

(** [v === "literal"]. *)
Definition is_string (v : jsval) (lit : string) : bool :=
  match v with
  | JStr s => bool_decide (s = js lit)
  | _ => false
  end.

(** ** Coercions and [Array.prototype] helpers *)

(** [Number(v)].  [StringToNumber] is the built-in's reading of a string
    (StringToNumber of the language specification); the routes are embedded
    over an arbitrary one, and [Decimal.StringToNumber] above is the one used
    to run them on concrete requests.  An array is read through its string:
    the empty array as the empty string, a one-element array as its element
    (a number prints to a string that reads back as itself), a longer one as
    a string with a comma in it. *)
Fixpoint ToNumber (StringToNumber : jsstring → JsNum.num) (v : jsval) : JsNum.num :=
  match v with
  | JUndefined => JsNum.NaN
  | JNull => JsNum.of_Z 0
  | JBool b => JsNum.of_Z (if b then 1 else 0)
  | JNum n => n
  | JStr s => StringToNumber s
  | JArr [] => StringToNumber []
  | JArr [x] =>
      match x with
      | JUndefined | JNull => StringToNumber []
      | JBool _ | JObj _ => JsNum.NaN
      | JNum n => n
      | JStr s => StringToNumber s
      | JArr _ => ToNumber StringToNumber x
      end
  | JArr _ | JObj _ => JsNum.NaN
  end.

(** [v?.key]: [undefined] on [null] and [undefined], the property of an
    object, and [undefined] for the keys read here on anything else. *)
Definition opt_prop (v : jsval) (key : string) : jsval :=
  match v with
  | JObj fields =>
      match List.find (fun f => bool_decide (f.1 = js key)) fields with
      | Some f => f.2
      | None => JUndefined
      end
  | _ => JUndefined
  end.

(** [v.key]: a [TypeError] on [null] and [undefined]. *)
Definition prop (v : jsval) (key : string) : result jsval :=
  if nullish v then Throw (Thrown (JStr (js "Cannot read properties of " ++ js key)))
  else Ok (opt_prop v key).

(** ** Conversion to a primitive

    [String(v)], a template literal and [Number(v)] convert an object to a
    primitive first.  A value read off JSON or off a parsed query holds no
    function.  So an object with an own property [toString] has no callable
    [toString], and [valueOf], its own or the inherited one, gives no
    primitive: the conversion is a [TypeError].  Every other object prints
    through [Object.prototype.toString].  An array prints its elements,
    [null] and [undefined] as the empty string, and fails where one of the
    others fails. *)
Fixpoint printable (v : jsval) : bool :=
  match v with
  | JObj fields => negb (existsb (fun f => bool_decide (f.1 = js "toString")) fields)
  | JArr items => forallb printable items
  | _ => true
  end.

Definition not_primitive : exn :=
  Thrown (JStr (js "Cannot convert object to primitive value")).

(** [String(v)] and [`${v}`], over the built-in that prints what can be
    printed. *)
Definition to_string (ToString : jsval → jsstring) (v : jsval) : result jsstring :=
  if printable v then Ok (ToString v) else Throw not_primitive.

(** [Number(v)], likewise. *)
Definition to_number (StringToNumber : jsstring → JsNum.num) (v : jsval)
  : result JsNum.num :=
  if printable v then Ok (ToNumber StringToNumber v) else Throw not_primitive.

(** [preferred.indexOf(v)]: the position of the first element strictly equal
    to [v], or -1. *)
Fixpoint indexOf_from (i : Z) (l : list string) (v : jsval) : Z :=
  match l with
  | [] => -1
  | x :: l' => if is_string v x then i else indexOf_from (i + 1) l' v
  end.

Definition indexOf (l : list string) (v : jsval) : Z := indexOf_from 0 l v.

(** [Array.prototype.sort(cmp)].  The sort is stable, and [cmp a b] orders
    [b] before [a] exactly when it is positive; for a comparator that is
    consistent the outcome is the one stable ordering, which insertion from
    the right computes. *)
Section Sort.
Context {A : Type} (cmp : A → A → JsNum.num).

Fixpoint sort_insert (x : A) (l : list A) : list A :=
  match l with
  | [] => [x]
  | y :: l' =>
      if JsNum.gtb (cmp x y) (JsNum.of_Z 0) then y :: sort_insert x l'
      else x :: y :: l'
  end.

Fixpoint sort (l : list A) : list A :=
  match l with
  | [] => []
  | x :: l' => sort_insert x (sort l')
  end.
End Sort.

(** [Array.prototype.slice(from, to)]. *)
Definition slice {A} (l : list A) (from to : JsNum.num) : list A :=
  let k := JsNum.slice_index (length l) from in
  let final := JsNum.slice_index (length l) to in
  take (final - k) (drop k l).

(** ** Paging, as both generations have it *)

(** [Math.max(1, Number(req.query.page || 1) || 1)] ([anime.ts] line 258,
    [part_000] line 248). *)
Definition effective_page (StringToNumber : jsstring → JsNum.num) (query_page : jsval)
  : JsNum.num :=
  JsNum.max (JsNum.of_Z 1)
    (JsNum.or_else
       (ToNumber StringToNumber
          (if truthy query_page then query_page else JNum (JsNum.of_Z 1)))
       (JsNum.of_Z 1)).

(** The same expression where a route evaluates it: [Number] of a query
    value that converts to no primitive is a [TypeError]. *)
Definition requested_page (StringToNumber : jsstring → JsNum.num) (query_page : jsval)
  : result JsNum.num :=
  if printable query_page then Ok (effective_page StringToNumber query_page)
  else Throw not_primitive.

Definition perPage : Z := 24.

Record items_info : Type := {
  count : JsNum.num;
  total : nat;
  per_page : Z;
}.

Record pagination_info : Type := {
  page : JsNum.num;
  has_next_page : bool;
  last_visible_page : JsNum.num;
  items : items_info;
}.

(** ** The upstream and the process state

    A route handler runs against the process-wide cache and a clock, and
    awaits upstream requests.  The upstream is an oracle: what the [n]-th
    request of the run gets, and after how long. *)
Inductive request : Type :=
| Post (endpoint : string) (query : jsstring) (variables : jsval)
| Get (url : list jsval).   (* the parts of the template literal the URL is built by *)

Inductive outcome : Type :=
| Rejected (e : exn) (elapsed : Z)
    (* [fetch] rejects: no connection, DNS failure, reset *)
| Responded (status : Z) (body : result jsval) (elapsed : Z).
    (* a response arrived; [body] is what [r.json()] gives: the parsed value,
       or the exception of a body that is no JSON *)

Definition elapsed_of (o : outcome) : Z :=
  match o with Rejected _ t | Responded _ _ t => t end.

(** [r.ok]. *)
Definition ok_status (status : Z) : bool := (200 <=? status) && (status <=? 299).

Record world : Type := {
  cache : gmap jsstring Cache.entry;
  clock : Z;        (* [Date.now()] *)
  calls : nat;      (* upstream requests made so far *)
}.

(** Code that reads and writes the process state and may throw. *)
Definition M (A : Type) : Type := world → result A * world.

#[global] Instance M_ret : MRet M := fun _ a w => (Ok a, w).
#[global] Instance M_bind : MBind M := fun _ _ k m w =>
  match m w with
  | (Ok a, w') => k a w'
  | (Throw e, w') => (Throw e, w')
  end.

Definition throw {A} (e : exn) : M A := fun w => (Throw e, w).
Definition lift {A} (r : result A) : M A := fun w => (r, w).

(** [try { m } catch (e) { handler e }]. *)
Definition try_catch {A} (m : M A) (handler : exn → M A) : M A := fun w =>
  match m w with
  | (Ok a, w') => (Ok a, w')
  | (Throw e, w') => handler e w'
  end.

Definition getCached (key : jsstring) : M jsval := fun w =>
  (Ok (Cache.getCached (cache w) (clock w) key), w).

Definition setCached (key : jsstring) (data : jsval) : M unit := fun w =>
  (Ok (), {| cache := Cache.setCached (cache w) (clock w) key data;
             clock := clock w; calls := calls w |}).

Definition AbortError : exn := Thrown (JStr (js "This operation was aborted")).

Section Fetch.
Variable upstream : nat → request → outcome.

Definition after (w : world) (elapsed : Z) : world :=
  {| cache := cache w; clock := clock w + elapsed; calls := S (calls w) |}.

(** [await fetch(...)] followed, on a 2xx or not, by nothing yet: the
    status and the still unread body. *)
Definition fetch (req : request) : M (Z * result jsval) := fun w =>
  match upstream (calls w) req with
  | Rejected e t => (Throw e, after w t)
  | Responded status body t => (Ok (status, body), after w t)
  end.

(** [fetch(url, { signal })] under a timer of [timeoutMs]: a request that
    takes longer is aborted when the timer fires. *)
Definition fetch_with_timeout (timeoutMs : Z) (req : request) : M (Z * result jsval) :=
  fun w =>
    if elapsed_of (upstream (calls w) req) >? timeoutMs
    then (Throw AbortError, after w timeoutMs)
    else fetch req w.
End Fetch.

(** [e?.message || fallback]. *)
Definition message_or (e : exn) (fallback : string) : jsval :=
  match e with
  | Thrown m => if truthy m then m else JStr (js fallback)
  end.

(** The body of a response the routes send, and the response. *)
Inductive body (Summary Episode : Type) : Type :=
| ResultsBody (results : list Summary)
| EpisodesBody (episodes : list Episode) (pagination : option pagination_info)
| ErrorBody (error : jsval).
Arguments ResultsBody {Summary Episode} results.
Arguments EpisodesBody {Summary Episode} episodes pagination.
Arguments ErrorBody {Summary Episode} error.

Record response (Summary Episode : Type) : Type := {
  status : Z;
  json : body Summary Episode;
}.
Arguments status {Summary Episode} r.
Arguments json {Summary Episode} r.

(** [res.json(b)] and [res.status(500).json({ error })]. *)
Definition respond {S E} (b : body S E) : response S E := {| status := 200; json := b |}.
Definition respond_error {S E} (e : exn) (fallback : string) : response S E :=
  {| status := 500; json := ErrorBody (message_or e fallback) |}.

(** ** The AniList generation ([part_000]) *)
Module AniList.

(** *** Season chain (lines 147-214) *)

(** The [node] of a relation edge, and the media record itself:
    [{ id idMal format title{ userPreferred } }]. *)
Record node : Type := {
  id : Z;
  idMal : jsval;
  format : jsval;
  title : jsval;
}.

Record edge : Type := {
  relationType : jsval;
  edge_node : option node;   (* [null] when the edge carries no node *)
}.

(** What [fetchWithRelations] returns for a title: the node and
    [relations.edges]. *)
Record media : Type := {
  self : node;
  edges : list edge;
}.

(** [pickEdge(edges, type)] (lines 158-163): [candidates] is the local
    constant of that name, [primary] the predicate handed to [find]. *)
Definition candidates (es : list edge) (type : string) : list (option node) :=
  List.map edge_node (List.filter (fun e => is_string (relationType e) type) es).

Definition primary (n : option node) : bool :=
  match n with
  | Some n => is_string (format n) "TV" || is_string (format n) "ONA"
  | None => false
  end.

Definition pickEdge (es : list edge) (type : string) : option node :=
  let tv := List.find primary (candidates es type) in
  match tv with
  | Some n => n
  | None => match candidates es type with
            | c :: _ => c
            | [] => None
            end
  end.

Section Chain.
(** The upstream, as [fetchWithRelations(id)] sees it: the lookup throws
    (transport or GraphQL error), finds nothing ([null]), or returns the
    media record. *)
Variable fetchWithRelations : Z → result (option media).

(** One of the two [for (let i = 0; i < 3; i++)] loops (lines 196-203 and
    207-214): [remaining] iterations are left, [current] is [node], [out] is
    the array the accepted candidates are pushed on. *)
Fixpoint walk (type : string) (remaining : nat) (current : media)
         (seen : gset Z) (out : list node)
  : result (gset Z * list node) :=
  match remaining with
  | O => Ok (seen, out)
  | S remaining' =>
      match pickEdge (edges current) type with
      | None => Ok (seen, out)
      | Some cand =>
          if decide (id cand ∈ seen) then Ok (seen, out)
          else
            let seen' := seen ∪ {[id cand]} in
            let out' := out ++ [cand] in
            fetched ← fetchWithRelations (id cand);
            match fetched with
            | None => Ok (seen', out')
            | Some next => walk type remaining' next seen' out'
            end
      end
  end.

(** Lines 193-214: the chain built around [start]. *)
Definition seasons_chain (start : media) : result (gset Z * list node) :=
  let seen : gset Z := {[id (self start)]} in
  '(seen, back) ← walk "PREQUEL" 3 start seen [];
  let chain := reverse back ++ [self start] in
  walk "SEQUEL" 3 start seen chain.
End Chain.

(** *** Episodes ([part_000], lines 245-297) *)

(** One entry of a provider's [episodes] array, as far as the route reads
    it. *)
Record raw_episode : Type := {
  ep_number : jsval;
  ep_id : jsval;
  ep_title : jsval;
}.

(** One element of the Anify response. *)
Record provider : Type := {
  providerId : jsval;
  episodes : option (list raw_episode);   (* [None]: not an array *)
}.

(** [String(ep.id ?? `${ids.id}-${num}`)], kept as the term it is. *)
Inductive episode_id : Type :=
| IdOf (v : jsval)                        (* [String(ep.id)] *)
| IdSynth (anime : jsval) (n : JsNum.num).    (* [`${ids.id}-${num}`] *)

Record episode : Type := {
  e_id : episode_id;
  number : JsNum.num;
  e_title : jsval;
}.

Definition preferred : list string :=
  ["gogoanime"; "zoro"; "aniwatch"; "animepahe"; "9anime"; "aniwave"].

(** Lines 283-291.  The products and the sum are exact: for an integer
    [page] they are the code's. *)
Definition pagination (total : nat) (page : JsNum.num) : pagination_info :=
  let start := JsNum.mul (JsNum.sub page (JsNum.of_Z 1)) (JsNum.of_Z perPage) in
  {| page := page;
     has_next_page := JsNum.gtb (JsNum.of_nat total) (JsNum.mul page (JsNum.of_Z perPage));
     last_visible_page :=
       JsNum.max (JsNum.of_Z 1)
                 (JsNum.ceil (JsNum.div (JsNum.of_nat total) (JsNum.of_Z perPage)));
     items := {| count := JsNum.min (JsNum.of_Z perPage)
                            (JsNum.max (JsNum.of_Z 0) (JsNum.sub (JsNum.of_nat total) start));
                 total := total;
                 per_page := perPage |} |}.

Section Episodes.
Variable StringToNumber : jsstring → JsNum.num.

(** Line 265: the comparator handed to [providers.sort]. *)
Definition by_preference (a b : provider) : JsNum.num :=
  JsNum.sub (JsNum.of_Z (indexOf preferred (providerId a)))
            (JsNum.of_Z (indexOf preferred (providerId b))).

(** Line 271. *)
Definition episode_number (ep : raw_episode) : JsNum.num :=
  match ep_number ep with
  | JNum n => n
  | v => JsNum.or_else (ToNumber StringToNumber v) (JsNum.of_Z 0)
  end.

(** [map.has(num)]; [map] keeps its values in insertion order. *)
Definition has (map : list episode) (num : JsNum.num) : bool :=
  existsb (fun e => JsNum.same_value_zero (number e) num) map.

(** The value of [map.set] (lines 273-277). *)
Definition record_of (anime : jsval) (num : JsNum.num) (ep : raw_episode) : episode :=
  {| e_id := if nullish (ep_id ep) then IdSynth anime num else IdOf (ep_id ep);
     number := num;
     e_title := if truthy (ep_title ep) then ep_title ep else JUndefined |}.

(** The body of the inner loop (lines 270-278). *)
Definition add_episode (anime : jsval) (map : list episode) (ep : raw_episode)
  : list episode :=
  let num := episode_number ep in
  if negb (JsNum.truthy num) || has map num then map
  else map ++ [record_of anime num ep].

(** The outer loop (lines 268-279). *)
Definition add_provider (anime : jsval) (map : list episode) (prov : provider)
  : list episode :=
  let eps := default [] (episodes prov) in
  List.fold_left (add_episode anime) eps map.

(** Lines 263-281: from the providers of the response to [list]. *)
Definition reconcile (anime : jsval) (providers : list provider) : list episode :=
  let sorted := sort by_preference providers in
  let map := List.fold_left (add_provider anime) sorted [] in
  sort (fun a b => JsNum.sub (number a) (number b)) map.

(** Lines 283-293: the body of the 200 response.  The bounds of the slice
    are exact: for an integer [page] they are the code's. *)
Definition episodes_page (anime : jsval) (providers : list provider) (page : JsNum.num)
  : list episode * pagination_info :=
  let list := reconcile anime providers in
  let start := JsNum.mul (JsNum.sub page (JsNum.of_Z 1)) (JsNum.of_Z perPage) in
  (slice list start (JsNum.add start (JsNum.of_Z perPage)),
   pagination (length list) page).
End Episodes.

(** *** The routes ([part_000]) *)

Definition ANILIST_ENDPOINT : string := "https://graphql.anilist.co".
Definition ANIFY_BASE : string := "https://api.anify.tv".

Definition byMalQuery : jsstring :=
  js "query($idMal: Int){ Media(idMal: $idMal, type: ANIME) { id idMal title { userPreferred } } }".
Definition byIdQuery : jsstring :=
  js "query($id: Int){ Media(id: $id, type: ANIME) { id idMal title { userPreferred } } }".
Definition trendingQuery : jsstring :=
  js "query($perPage:Int){ Page(perPage:$perPage){ media(type: ANIME, sort: TRENDING_DESC, isAdult: false){ id idMal title { userPreferred } coverImage{ extraLarge large medium } format seasonYear averageScore genres description } } }".

(** [{ id, idMal }], as [getAniIdsByMalOrAni] returns it. *)
Record ani_ids : Type := { ids_id : jsval; ids_idMal : jsval }.

(** The typed reading of the Anify response the loops of [getEpisodes]
    perform.  [ep.number] on an episode that is [null] is a [TypeError], and
    so is [Number(ep.number)] on a value that converts to no primitive (a
    number is not converted, and is printable); every other read goes through
    [?.] or lands on [undefined]. *)
Definition decode_episode (ep : jsval) : result raw_episode :=
  number ← prop ep "number";
  if printable number
  then Ok {| ep_number := number; ep_id := opt_prop ep "id"; ep_title := opt_prop ep "title" |}
  else Throw not_primitive.

(** Line 274: [String(ep.id ?? `${ids.id}-${num}`)] is evaluated once for
    each record that enters the map, and no record leaves it; the route has
    printed [ids.id] before (line 255). *)
Definition prints (e : episode) : bool :=
  match e_id e with
  | IdOf v => printable v
  | IdSynth _ _ => true
  end.

Definition printed (list : list episode) : result unit :=
  if forallb prints list then Ok () else Throw not_primitive.

Definition decode_provider (prov : jsval) : result provider :=
  match opt_prop prov "episodes" with
  | JArr eps =>
      eps ← mapM decode_episode eps;
      Ok {| providerId := opt_prop prov "providerId"; episodes := Some eps |}
  | _ => Ok {| providerId := opt_prop prov "providerId"; episodes := None |}
  end.

Definition decode_providers (data : jsval) : result (list provider) :=
  match data with
  | JArr provs => mapM decode_provider provs
  | _ => Ok []
  end.

Section Routes.
(** The built-ins that print values and read strings. *)
Variable StringToNumber : jsstring → JsNum.num.
Variable ToString : jsval → jsstring.          (* [String(v)], [`${v}`] *)
Variable JSON_stringify : jsval → jsstring.
Variable base64 : jsstring → jsstring.         (* [Buffer.from(s).toString("base64")] *)
(** [mapAnilistToSummary] (lines 58-77): every read in it is guarded; it
    throws where [String(title)] does, in [normalizeBaseTitle]. *)
Variable Summary : Type.
Variable mapAnilistToSummary : jsval → result Summary.
Variable upstream : nat → request → outcome.

(** [gql(query, variables)] (lines 41-56). *)
Definition gql (query : jsstring) (variables : jsval) : M jsval :=
  let key := js "gql:" ++ base64 query ++ js "::" ++ JSON_stringify variables in
  cached ← getCached key;
  if truthy cached then mret cached
  else
    '(status, body) ← fetch upstream (Post ANILIST_ENDPOINT query variables);
    if negb (ok_status status)
    then throw (Thrown (JStr (js "AniList error: " ++ ToString (JNum (JsNum.of_Z status)))))
    else
      j ← lift body;
      errors ← lift (prop j "errors");
      if truthy errors
      then throw (Thrown (JStr (js "AniList error: " ++ JSON_stringify errors)))
      else
        data ← lift (prop j "data");
        _ ← setCached key data;
        mret data.

(** One of the two [try { ... } catch {}] blocks of lines 84-93: [Some ids]
    when it returned from the function, [None] when control falls through. *)
Definition lookup_media (query : jsstring) (variables : jsval) : M (option ani_ids) :=
  try_catch
    (found ← gql query variables;
     let media := opt_prop found "Media" in
     if truthy media
     then mret (Some {| ids_id := opt_prop media "id"; ids_idMal := opt_prop media "idMal" |})
     else mret None)
    (fun _ => mret None).

(** [getAniIdsByMalOrAni(idRaw)] (lines 79-95). *)
Definition getAniIdsByMalOrAni (idRaw : jsstring) : M ani_ids :=
  let idNum := StringToNumber idRaw in
  match idNum with
  | JsNum.Fin _ =>
      byMal ← lookup_media byMalQuery (JObj [(js "idMal", JNum idNum)]);
      match byMal with
      | Some ids => mret ids
      | None =>
          byId ← lookup_media byIdQuery (JObj [(js "id", JNum idNum)]);
          match byId with
          | Some ids => mret ids
          | None => mret {| ids_id := JNull; ids_idMal := JNull |}
          end
      end
  | _ => mret {| ids_id := JNull; ids_idMal := JNull |}
  end.

(** [(data?.Page?.media || []).filter(...).map(mapAnilistToSummary)]
    (lines 110-112): calling [filter] on what is no array is a
    [TypeError]. *)
Definition summaries (data : jsval) : result (list Summary) :=
  let media := opt_prop (opt_prop data "Page") "media" in
  match (if truthy media then media else JArr []) with
  | JArr ms =>
      mapM mapAnilistToSummary
        (List.filter (fun m => truthy (opt_prop m "idMal") || truthy (opt_prop m "id")) ms)
  | _ => Throw (Thrown (JStr (js "filter is not a function")))
  end.

(** The [try { ... } catch (e) { res.status(500).json(...) }] every route
    is wrapped in. *)
Definition handle (m : M (response Summary episode)) (fallback : string)
  : world → response Summary episode * world := fun w =>
  match m w with
  | (Ok r, w') => (r, w')
  | (Throw e, w') => (respond_error e fallback, w')
  end.

(** [getTrending] (lines 97-117). *)
Definition getTrending : world → response Summary episode * world :=
  handle
    (data ← gql trendingQuery (JObj [(js "perPage", JNum (JsNum.of_Z 24))]);
     results ← lift (summaries data);
     mret (respond (ResultsBody results)))
    "Failed to fetch trending".

(** [fetchJson(url, timeoutMs = 8000)] (lines 231-243): every failure,
    thrown or not, becomes [null]. *)
Definition fetchJson (url : list jsval) (timeoutMs : Z) : M jsval :=
  try_catch
    ('(status, body) ← fetch_with_timeout upstream timeoutMs (Get url);
     if negb (ok_status status) then mret JNull
     else lift body)
    (fun _ => mret JNull).

(** [getEpisodes] (lines 245-297); [params_id] is [req.params.id] and
    [query_page] is [req.query.page]. *)
Definition getEpisodes (params_id : jsstring) (query_page : jsval)
  : world → response Summary episode * world :=
  let empty : response Summary episode := respond (EpisodesBody [] None) in
  handle
    (let idRaw := JsString.trim params_id in
     page ← lift (requested_page StringToNumber query_page);
     ids ← getAniIdsByMalOrAni idRaw;
     if negb (truthy (ids_id ids)) then mret empty
     else
       anime ← lift (to_string ToString (ids_id ids));
       let cacheKey := js "anify:episodes:" ++ anime in
       cached ← getCached cacheKey;
       data ← (if truthy cached then mret cached
               else
                 fetched ← fetchJson [JStr (js ANIFY_BASE); JStr (js "/episodes/"); ids_id ids] 8000;
                 _ ← (if truthy fetched then setCached cacheKey fetched else mret ());
                 mret fetched);
       if negb (truthy data) then mret empty
       else
         providers ← lift (decode_providers data);
         _ ← lift (printed (reconcile StringToNumber (ids_id ids) providers));
         let '(paged, pagination) :=
           episodes_page StringToNumber (ids_id ids) providers page in
         mret (respond (EpisodesBody paged (Some pagination))))
    "Episodes failed".
End Routes.

End AniList.

(** ** The Jikan generation ([anime.ts]) *)
Module Jikan.

(** *** Season chain (lines 96-159) *)

Record entry : Type := {
  e_mal_id : Z;
  e_type : jsval;
  e_name : jsval;
}.

Record relation : Type := {
  rel_relation : jsval;
  rel_entry : option (list entry);   (* [None]: [entry] is not an array *)
}.

(** The [data] of a [/anime/{id}/full] response. *)
Record anime : Type := {
  mal_id : Z;
  a_title : jsval;
  a_title_english : jsval;
  a_title_japanese : jsval;
  relations : list relation;
}.

(** [pickRelation(rel)] (lines 103-108); [rel] is [undefined] when
    [relations.find] found no relation of the wanted kind. *)
Definition pickRelation (rel : option relation) : option (Z * jsval) :=
  match rel with
  | None => None
  | Some r =>
      match rel_entry r with
      | None => None
      | Some es =>
          let tv := List.find (fun x => is_string (e_type x) "TV") es in
          let chosen := match tv with Some x => Some x | None => List.head es end in
          match chosen with
          | Some c => Some (e_mal_id c, e_name c)
          | None => None
          end
      end
  end.

(** [node.relations?.find?.((r) => r.relation === kind)]. *)
Definition find_relation (a : anime) (kind : string) : option relation :=
  List.find (fun r => is_string (rel_relation r) kind) (relations a).

(** [full.title || full.title_english || full.title_japanese]. *)
Definition display_title (a : anime) : jsval :=
  if truthy (a_title a) then a_title a
  else if truthy (a_title_english a) then a_title_english a
  else a_title_japanese a.

Section Chain.
(** [fetchByMal(id)]: throws (network or parse failure), returns [null]
    (non-2xx, or no [data]), or returns the record. *)
Variable fetchByMal : Z → result (option anime).

(** The state the two loops of [buildSeasonsChain] share. *)
Record walk_state : Type := {
  seen : gset Z;
  titles : gmap Z jsval;
  ids : list Z;              (* [back] in the first loop, [chain] in the second *)
}.

(** The backward loop (lines 123-136): the candidate is pushed on [back]
    before its record is fetched. *)
Fixpoint walk_back (remaining : nat) (current : anime) (st : walk_state)
  : result walk_state :=
  match remaining with
  | O => Ok st
  | S remaining' =>
      match pickRelation (find_relation current "Prequel") with
      | None => Ok st
      | Some (pid, _) =>
          if decide (pid ∈ seen st) then Ok st
          else
            let st1 := {| seen := seen st ∪ {[pid]};
                          titles := titles st;
                          ids := ids st ++ [pid] |} in
            fetched ← fetchByMal pid;
            match fetched with
            | None => Ok st1
            | Some full =>
                walk_back remaining' full
                  {| seen := seen st1;
                     titles := <[pid := display_title full]> (titles st1);
                     ids := ids st1 |}
            end
      end
  end.

(** The forward loop (lines 143-156): the candidate is pushed on [chain]
    only after its record was fetched. *)
Fixpoint walk_forward (remaining : nat) (current : anime) (st : walk_state)
  : result walk_state :=
  match remaining with
  | O => Ok st
  | S remaining' =>
      match pickRelation (find_relation current "Sequel") with
      | None => Ok st
      | Some (sid, _) =>
          if decide (sid ∈ seen st) then Ok st
          else
            let st1 := {| seen := seen st ∪ {[sid]};
                          titles := titles st;
                          ids := ids st |} in
            fetched ← fetchByMal sid;
            match fetched with
            | None => Ok st1
            | Some full =>
                walk_forward remaining' full
                  {| seen := seen st1;
                     titles := <[sid := display_title full]> (titles st1);
                     ids := ids st1 ++ [sid] |}
            end
      end
  end.

(** [buildSeasonsChain(startData)] (lines 110-159). *)
Definition buildSeasonsChain (startData : anime) : result walk_state :=
  let currentId := mal_id startData in
  let st0 := {| seen := ∅;
                titles := {[ currentId := display_title startData ]};
                ids := [] |} in
  st ← walk_back 8 startData st0;
  let chain := reverse (ids st) ++ [currentId] in
  walk_forward 8 startData
    {| seen := seen st; titles := titles st; ids := chain |}.
End Chain.

(** The pagination of the Consumet fallback (lines 347-358); [total] is
    [arr.length], which the guard of line 327 keeps positive.  The products
    are exact: for an integer [page] they are the code's. *)
Definition pagination (total : nat) (page : JsNum.num) : pagination_info :=
  {| page := page;
     has_next_page := JsNum.gtb (JsNum.of_nat total) (JsNum.mul page (JsNum.of_Z perPage));
     last_visible_page :=
       JsNum.max (JsNum.of_Z 1)
                 (JsNum.ceil (JsNum.div (JsNum.of_nat total) (JsNum.of_Z perPage)));
     items := {| count := JsNum.min (JsNum.of_Z perPage)
                            (JsNum.sub (JsNum.of_nat total)
                               (JsNum.mul (JsNum.sub page (JsNum.of_Z 1))
                                          (JsNum.of_Z perPage)));
                 total := total;
                 per_page := perPage |} |}.

(** The episodes cache ([anime.ts], lines 5-10, 259-264 and 302): the same
    store, read in place.  [Some payload] is the cached response that is sent;
    an entry is served while its age is below [EPISODES_TTL_MS]. *)
Definition EPISODES_TTL_MS : Z := 3 * 60 * 1000.

Definition cached_payload (episodesCache : gmap jsstring Cache.entry) (now : Z)
    (cacheKey : jsstring) : option jsval :=
  match episodesCache !! cacheKey with
  | Some cached =>
      if now - Cache.at_ cached <? EPISODES_TTL_MS then Some (Cache.data cached) else None
  | None => None
  end.

(** The helper of [getEpisodes] (lines 267-282): [try { ... } finally
    { clearTimeout(timer) }], with no [catch].  [retries] is a count (the
    callers pass 1 and 0). *)
Record fetched : Type := {
  f_ok : bool;
  f_status : Z;
  f_json : jsval;
}.

Section FetchJson.
Variable upstream : nat → request → outcome.

(** [await new Promise((r) => setTimeout(r, 500))]. *)
Definition backoff : M unit := fun w =>
  (Ok (), {| cache := cache w; clock := clock w + 500; calls := calls w |}).

(** Lines 276-278: what is returned once no retry is due. *)
Definition settle (status : Z) (body : result jsval) : M fetched :=
  if negb (ok_status status)
  then mret {| f_ok := false; f_status := status; f_json := JNull |}
  else
    j ← lift body;
    mret {| f_ok := true; f_status := status; f_json := j |}.

Fixpoint fetchJson (url : list jsval) (timeoutMs : Z) (retries : nat) : M fetched :=
  '(status, body) ← fetch_with_timeout upstream timeoutMs (Get url);
  match retries with
  | S retries' =>
      if status =? 429
      then _ ← backoff; fetchJson url timeoutMs retries'
      else settle status body
  | O => settle status body
  end.
End FetchJson.

End Jikan.

(** ** A runtime to run the routes on

    The routes are embedded over the built-ins that print values
    ([String], [JSON.stringify], base64 of a [Buffer]); the theorems hold for
    any such functions.  These are the ones the examples are run with.  They
    print integers, strings, booleans, [null], arrays and objects as
    JavaScript does; a fraction is printed to at most 17 places, and strings
    are not escaped. *)
Module Runtime.

Definition print_Z (z : Z) : jsstring := js (pretty z).

(** The places of [n / d] after the point, at most [places] of them. *)
Fixpoint fraction (places : nat) (n : Z) (d : Z) : jsstring :=
  match places with
  | O => []
  | S places' =>
      if n =? 0 then []
      else Z.to_N (48 + 10 * n / d) :: fraction places' ((10 * n) `mod` d) d
  end.

Definition NumberToString (x : JsNum.num) : jsstring :=
  match x with
  | JsNum.NaN => js "NaN"
  | JsNum.Inf false => js "Infinity"
  | JsNum.Inf true => js "-Infinity"
  | JsNum.Fin q =>
      let d := Zpos (Qden q) in
      let a := Z.abs (Qnum q) in
      let sign := if Qnum q <? 0 then js "-" else [] in
      match fraction 17 (a `mod` d) d with
      | [] => if a =? 0 then js "0" else sign ++ print_Z (a / d)
      | places => sign ++ print_Z (a / d) ++ js "." ++ places
      end
  end.

Definition join (sep : jsstring) (parts : list jsstring) : jsstring :=
  match parts with
  | [] => []
  | p :: ps => p ++ List.concat (List.map (fun x => sep ++ x) ps)
  end.

Fixpoint ToString (v : jsval) : jsstring :=
  match v with
  | JUndefined => js "undefined"
  | JNull => js "null"
  | JBool b => if b then js "true" else js "false"
  | JNum n => NumberToString n
  | JStr s => s
  | JArr items =>
      join (js ",")
        (List.map (fun x => match x with
                            | JUndefined | JNull => []
                            | _ => ToString x
                            end) items)
  | JObj _ => js "[object Object]"
  end.

Definition quoted (s : jsstring) : jsstring := 34%N :: s ++ [34%N].

Fixpoint JSON_stringify (v : jsval) : jsstring :=
  match v with
  | JUndefined => js "undefined"
  | JNull => js "null"
  | JBool b => if b then js "true" else js "false"
  | JNum (JsNum.Fin q) => NumberToString (JsNum.Fin q)
  | JNum _ => js "null"
  | JStr s => quoted s
  | JArr items =>
      js "[" ++ join (js ",")
                  (List.map (fun x => match x with
                                      | JUndefined => js "null"
                                      | _ => JSON_stringify x
                                      end) items) ++ js "]"
  | JObj fields =>
      js "{" ++ join (js ",")
                  ((fix members (fs : list (jsstring * jsval)) : list jsstring :=
                      match fs with
                      | [] => []
                      | (_, JUndefined) :: fs' => members fs'
                      | (k, x) :: fs' =>
                          (quoted k ++ js ":" ++ JSON_stringify x) :: members fs'
                      end) fields) ++ js "}"
  end.

(** UTF-8, one code unit at a time. *)
Definition utf8 (c : N) : list N :=
  if (c <? 128)%N then [c]
  else if (c <? 2048)%N then [192 + c / 64; 128 + c mod 64]%N
  else [224 + c / 4096; 128 + (c / 64) mod 64; 128 + c mod 64]%N.

Definition base64_char (i : N) : N :=
  if (i <? 26)%N then (65 + i)%N
  else if (i <? 52)%N then (97 + (i - 26))%N
  else if (i <? 62)%N then (48 + (i - 52))%N
  else if (i =? 62)%N then 43%N else 47%N.

Fixpoint base64_bytes (bytes : list N) : jsstring :=
  match bytes with
  | a :: b :: c :: rest =>
      base64_char (a / 4) :: base64_char ((a mod 4) * 16 + b / 16)
        :: base64_char ((b mod 16) * 4 + c / 64) :: base64_char (c mod 64)
        :: base64_bytes rest
  | [a; b] =>
      [base64_char (a / 4); base64_char ((a mod 4) * 16 + b / 16);
       base64_char ((b mod 16) * 4); 61]
  | [a] => [base64_char (a / 4); base64_char ((a mod 4) * 16); 61; 61]
  | [] => []
  end%N.

Definition base64 (s : jsstring) : jsstring :=
  base64_bytes (List.concat (List.map utf8 s)).

End Runtime.

(** ** More of the language the routes use *)

(** [a || b] and [a ?? b] on values. *)
Definition or_val (a b : jsval) : jsval := if truthy a then a else b.
Definition coalesce (a b : jsval) : jsval := if nullish a then b else a.

(** [typeof v === "number" ? v : Number(v) || 0]. *)
Definition number_or_zero (StringToNumber : jsstring → JsNum.num) (v : jsval)
  : result JsNum.num :=
  match v with
  | JNum n => Ok n
  | _ =>
      n ← to_number StringToNumber v;
      Ok (JsNum.or_else n (JsNum.of_Z 0))
  end.

(** [items.map((x, idx) => f(idx, x))] for a callback that may throw. *)
Definition map_indexed {A B} (f : nat → A → result B) (items : list A) : result (list B) :=
  mapM (fun x => f x.1 x.2) (imap pair items).

(** [Date.now()]. *)
Definition date_now : M Z := fun w => (Ok (clock w), w).

(** ** [String.prototype.replace] with a global pattern

    The global patterns of the routes are a character class, a run of one,
    or a run between two delimiters.  Such a pattern looks at nothing before
    its match and matches no empty string. *)
Module ReplaceAll.

(** A pattern, as the match it has at the start of an input: [Some rest] is
    the input left after the match. *)
Definition matcher : Type := jsstring → option jsstring.

(** [[class]]: one character of the class. *)
Definition one (p : N → bool) : matcher := fun s =>
  match s with
  | c :: s' => if p c then Some s' else None
  | [] => None
  end.

(** The input after the longest run of the class. *)
Fixpoint skip (p : N → bool) (s : jsstring) : jsstring :=
  match s with
  | c :: s' => if p c then skip p s' else s
  | [] => []
  end.

(** [[class]+]: the longest run; the class is all the pattern has, so the
    run is never shortened. *)
Definition many (p : N → bool) : matcher := fun s =>
  match s with
  | c :: s' => if p c then Some (skip p s') else None
  | [] => None
  end.

(** [s.replace(/pattern/g, by)]: the matches are looked for from left to
    right, each search starting where the previous match ended; [inside] is
    the number of characters of the current match still ahead. *)
Fixpoint replace_from (m : matcher) (by_ : jsstring) (inside : nat) (s : jsstring)
  : jsstring :=
  match s with
  | [] => []
  | c :: s' =>
      match inside with
      | S inside' => replace_from m by_ inside' s'
      | O =>
          match m s with
          | Some rest => by_ ++ replace_from m by_ (length s' - length rest) s'
          | None => c :: replace_from m by_ 0 s'
          end
      end
  end.

Definition replace_all (m : matcher) (by_ : jsstring) (s : jsstring) : jsstring :=
  replace_from m by_ 0 s.

End ReplaceAll.

(** ** The episodes route of the Jikan generation ([anime.ts]) *)
Module JikanRoutes.
Import Jikan.

Definition JIKAN_BASE : string := "https://api.jikan.moe/v4".
Definition CONSUMET : string := "https://api.consumet.org/anime/".

(** The characters of the class of line 54: the double quote, and the rest
    as written there. *)
Definition punctuation : jsstring := 34%N :: js ":'.,!?&/()[]".
Definition is_punctuation (c : N) : bool := bool_decide (c ∈ punctuation).

(** The class [[a-z0-9\-]] (line 56). *)
Definition is_slug_char (c : N) : bool :=
  ((97 <=? c) && (c <=? 122) || (48 <=? c) && (c <=? 57) || (c =? 45))%N.

(** What a route sends: [res.json(sent)], or
    [res.status(500).json({ error })]. *)
Record reply : Type := { code : Z; sent : jsval }.

Definition send (v : jsval) : reply := {| code := 200; sent := v |}.
Definition send_error (e : exn) (fallback : string) : reply :=
  {| code := 500; sent := JObj [(js "error", message_or e fallback)] |}.

(** The pagination object of the fallback (lines 349-358), as the value it
    is. *)
Definition pagination_json (p : pagination_info) : jsval :=
  JObj [(js "page", JNum (page p));
        (js "has_next_page", JBool (has_next_page p));
        (js "last_visible_page", JNum (last_visible_page p));
        (js "items",
         JObj [(js "count", JNum (count (items p)));
               (js "total", JNum (JsNum.of_nat (total (items p))));
               (js "per_page", JNum (JsNum.of_Z (per_page (items p))))])].

(** [episodesCache[cacheKey] = { at: now, data }]. *)
Definition store (cacheKey : jsstring) (now : Z) (data : jsval) : M unit := fun w =>
  (Ok (), {| cache := Cache.setCached (cache w) now cacheKey data;
             clock := clock w; calls := calls w |}).

(** Lines 261-264. *)
Definition read_cached (cacheKey : jsstring) (now : Z) : M (option jsval) := fun w =>
  (Ok (cached_payload (cache w) now cacheKey), w).

Section Routes.
Variable StringToNumber : jsstring → JsNum.num.
Variable ToString : jsval → jsstring.              (* [String(v)], [`${v}`] *)
Variable toLowerCase : jsstring → jsstring.        (* [String.prototype.toLowerCase] *)
Variable upstream : nat → request → outcome.

(** [slugify(input)] (lines 50-57). *)
Definition slugify (input : jsval) : jsstring :=
  let s := ToString (or_val input (JStr [])) in
  let s := JsString.trim (toLowerCase s) in
  let s := ReplaceAll.replace_all (ReplaceAll.many is_punctuation) [] s in
  let s := ReplaceAll.replace_all (ReplaceAll.many JsString.is_space) (js "-") s in
  ReplaceAll.replace_all (ReplaceAll.one (fun c => negb (is_slug_char c))) [] s.

(** A call [slugify(v)]: [String(input || "")] is a [TypeError] on a value
    that converts to no primitive. *)
Definition slugified (input : jsval) : result jsstring :=
  if printable (or_val input (JStr [])) then Ok (slugify input) else Throw not_primitive.

(** [`${id}:${page}`] (line 259). *)
Definition cacheKey (id : jsstring) (page : JsNum.num) : jsstring :=
  id ++ js ":" ++ ToString (JNum page).

(** The callback of [(j.data || []).map] (lines 290-299). *)
Definition primary_episode (id : jsstring) (idx : nat) (ep : jsval) : result jsval :=
  numRaw ← prop ep "episode";
  num ← number_or_zero StringToNumber numRaw;
  let position := JsNum.of_nat (idx + 1) in
  printed ← to_string ToString
              (coalesce (opt_prop ep "mal_id")
                 (JStr (id ++ js "-" ++ ToString (JNum (JsNum.or_else num position)))));
  Ok (JObj
        [(js "id", JStr printed);
         (js "number", JNum (if JsNum.gtb num (JsNum.of_Z 0) then num else position));
         (js "title",
          or_val (opt_prop ep "title")
            (or_val (opt_prop ep "title_romanji")
               (or_val (opt_prop ep "title_japanese") JUndefined)));
         (js "air_date", or_val (opt_prop ep "aired") JNull)]).

(** [(j.data || []).map(...)] (line 290): [j.data] on [null] and [map] on
    what is no array are [TypeError]s. *)
Definition primary_episodes (id : jsstring) (j : jsval) : result (list jsval) :=
  data ← prop j "data";
  match or_val data (JArr []) with
  | JArr eps => map_indexed (primary_episode id) eps
  | _ => Throw (Thrown (JStr (js "map is not a function")))
  end.

(** The callback of [arr.map] in the fallback (lines 328-346). *)
Definition fallback_episode (id : jsstring) (ep : jsval) : result jsval :=
  first ← prop ep "number";
  let number :=
    coalesce first
      (coalesce (opt_prop ep "episode")
         (coalesce (opt_prop ep "ep") (coalesce (opt_prop ep "index") JNull))) in
  let title :=
    or_val (opt_prop ep "title")
      (or_val (opt_prop ep "name")
         (or_val (opt_prop ep "episodeTitle")
            (or_val (opt_prop ep "title_english") JUndefined))) in
  let air_date :=
    coalesce (opt_prop ep "air_date")
      (coalesce (opt_prop ep "aired") (coalesce (opt_prop ep "date") JNull)) in
  eid ← (if nullish (opt_prop ep "id")
         then
           suffix ← to_string ToString (coalesce number (JStr (js "0")));
           Ok (JStr (id ++ js "-" ++ suffix))
         else Ok (opt_prop ep "id"));
  printed ← to_string ToString eid;
  n ← number_or_zero StringToNumber number;
  Ok (JObj [(js "id", JStr printed);
            (js "number", JNum n);
            (js "title", title);
            (js "air_date", air_date)]).

(** The loop over the Consumet providers (lines 318-364): [Some reply] when
    a provider answered with episodes, [None] when the loop ran out. *)
Fixpoint try_providers (id : jsstring) (page : JsNum.num) (key : jsstring) (now : Z)
    (slug : jsstring) (providers : list string) : M (option reply) :=
  match providers with
  | [] => mret None
  | p :: providers' =>
      c ← fetchJson upstream [JStr (js CONSUMET); JStr (js p); JStr (js "/info/"); JStr slug]
            8000 0;
      let json := f_json c in
      let arr :=
        or_val (opt_prop json "episodes")
          (or_val (opt_prop (opt_prop json "data") "episodes")
             (or_val (opt_prop json "results") JNull)) in
      match f_ok c, arr with
      | true, JArr ((_ :: _) as items) =>
          episodes ← lift (mapM (fallback_episode id) items);
          let payload :=
            JObj [(js "episodes", JArr episodes);
                  (js "pagination", pagination_json (pagination (length items) page))] in
          _ ← store key now payload;
          mret (Some (send payload))
      | _, _ => try_providers id page key now slug providers'
      end
  end.

(** The [try { ... } catch (e) { res.status(500).json(...) }] of the route. *)
Definition handle (m : M reply) (fallback : string) : world → reply * world := fun w =>
  match m w with
  | (Ok r, w') => (r, w')
  | (Throw e, w') => (send_error e fallback, w')
  end.

(** The primary source (lines 284-305): [Some reply] when the route
    returns from it, [None] when control goes on to the fallback. *)
Definition primary (id : jsstring) (page : JsNum.num) (key : jsstring) (now : Z)
  : M (option reply) :=
  primary ← fetchJson upstream
              [JStr (js JIKAN_BASE); JStr (js "/anime/"); JStr id;
               JStr (js "/episodes?page="); JNum page] 8000 1;
  if f_ok primary then
    let j := f_json primary in
    episodes ← lift (primary_episodes id j);
    let payload :=
      JObj [(js "episodes", JArr episodes);
            (js "pagination", or_val (opt_prop j "pagination") JNull)] in
    _ ← store key now payload;
    mret (match episodes with
          | _ :: _ => Some (send payload)
          | [] => None
          end)
  else mret None.

(** The fallback and the empty answer (lines 307-370). *)
Definition fallback (id : jsstring) (page : JsNum.num) (key : jsstring) (now : Z)
  : M reply :=
  infoRes ← fetchJson upstream
              [JStr (js JIKAN_BASE); JStr (js "/anime/"); JStr id] 8000 1;
  let data := opt_prop (f_json infoRes) "data" in
  let title :=
    if f_ok infoRes && truthy data
    then or_val (opt_prop data "title")
           (or_val (opt_prop data "title_english") (opt_prop data "title_japanese"))
    else JNull in
  found ←
    (if truthy title
     then
       slug ← lift (slugified title);
       try_providers id page key now slug ["gogoanime"; "zoro"; "animepahe"]
     else mret None);
  match found with
  | Some r => mret r
  | None =>
      let empty := JObj [(js "episodes", JArr []); (js "pagination", JNull)] in
      _ ← store key now empty;
      mret (send empty)
  end.

(** [getEpisodes] (lines 255-374); [params_id] is [req.params.id] and
    [query_page] is [req.query.page]. *)
Definition getEpisodes (params_id : jsstring) (query_page : jsval)
  : world → reply * world :=
  handle
    (let id := params_id in
     page ← lift (requested_page StringToNumber query_page);
     let key := cacheKey id page in
     now ← date_now;
     cached ← read_cached key now;
     match cached with
     | Some data => mret (send data)
     | None =>
         answered ← primary id page key now;
         match answered with
         | Some r => mret r
         | None => fallback id page key now
         end
     end)
    "Episodes failed".
End Routes.

End JikanRoutes.

(** [toLowerCase] on the Basic Latin letters, every other character left as
    it is: the built-in on ASCII strings, and the one the examples are run
    with. *)
Module Latin.

Definition lower (c : N) : N :=
  if ((65 <=? c) && (c <=? 90))%N then (c + 32)%N else c.

Definition toLowerCase (s : jsstring) : jsstring := lower <$> s.

End Latin.

(** ** The streaming route of the AniList generation ([part_000], lines
    389-433) *)
Module Streaming.
Import AniList.

(** [x === y] on numbers: SameValueZero, but for [NaN], which equals
    nothing. *)
Definition strict_equal (x y : JsNum.num) : bool :=
  negb (JsNum.is_nan x) && JsNum.same_value_zero x y.

Record link : Type := { name : jsstring; url : jsval }.

(** [res.json({ links })] and [res.status(500).json({ error })]. *)
Inductive answer : Type :=
| Links (links : list link)
| Failed (error : jsval).

(** The comparator of line 402, on the elements of the Anify response as
    they come. *)
Definition by_preference (a b : jsval) : JsNum.num :=
  JsNum.sub (JsNum.of_Z (indexOf preferred (opt_prop a "providerId")))
            (JsNum.of_Z (indexOf preferred (opt_prop b "providerId"))).

(** Lines 418-423: the links one answer of [/sources] gives. *)
Definition collect (providerId : jsstring) (src : jsval) : list link :=
  let found :=
    if truthy src
    then or_val (opt_prop src "sources") (or_val (opt_prop src "data") (opt_prop src "stream"))
    else src in
  match or_val found (JArr []) with
  | JArr items =>
      omap (fun s => if truthy (opt_prop s "url")
                     then Some {| name := providerId; url := opt_prop s "url" |}
                     else None) items
  | _ =>
      if truthy (opt_prop src "url")
      then [{| name := providerId; url := opt_prop src "url" |}]
      else []
  end.

Section Routes.
Variable StringToNumber : jsstring → JsNum.num.
Variable ToString : jsval → jsstring.
Variable JSON_stringify : jsval → jsstring.
Variable base64 : jsstring → jsstring.
Variable upstream : nat → request → outcome.

(** [eps.find((e) => (typeof e.number === "number" ? e.number :
    Number(e.number) || 0) === epNum)] (line 406): reading [number] off an
    episode that is [null] is a [TypeError]. *)
Fixpoint find_episode (epNum : JsNum.num) (eps : list jsval) : result (option jsval) :=
  match eps with
  | [] => Ok None
  | e :: eps' =>
      number ← prop e "number";
      n ← number_or_zero StringToNumber number;
      if strict_equal n epNum then Ok (Some e) else find_episode epNum eps'
  end.

(** Lines 403-416: what one turn of the loop asks [/sources] for.  [None]
    is a [continue]; the pair is the provider's name and the parts of the
    URL. *)
Definition wanted (anime : jsval) (epNum : JsNum.num) (subType : jsstring) (prov : jsval)
  : result (option (jsstring * list jsval)) :=
  providerId ← to_string ToString (or_val (opt_prop prov "providerId") (JStr []));
  match providerId with
  | [] => Ok None
  | _ :: _ =>
      let eps := match opt_prop prov "episodes" with JArr eps => eps | _ => [] end in
      found ← find_episode epNum eps;
      match found with
      | None => Ok None
      | Some matched =>
          if negb (truthy matched) || negb (truthy (opt_prop matched "id")) then Ok None
          else
            watchId ← to_string ToString (opt_prop matched "id");
            id ← to_string ToString anime;
            Ok (Some (providerId,
                      [JStr (js ANIFY_BASE); JStr (js "/sources?");
                       JObj [(js "providerId", JStr providerId);
                             (js "watchId", JStr watchId);
                             (js "episodeNumber", JStr (ToString (JNum epNum)));
                             (js "id", JStr id);
                             (js "subType", JStr subType)]]))
      end
  end.

(** The loop of lines 402-426; [links] is the array the loop pushes on. *)
Fixpoint visit (anime : jsval) (epNum : JsNum.num) (subType : jsstring)
    (providers : list jsval) (links : list link) : M (list link) :=
  match providers with
  | [] => mret links
  | prov :: providers' =>
      asked ← lift (wanted anime epNum subType prov);
      match asked with
      | None => visit anime epNum subType providers' links
      | Some (providerId, url) =>
          src ← fetchJson upstream url 10000;
          let links := links ++ collect providerId src in
          match links with
          | _ :: _ => mret links
          | [] => visit anime epNum subType providers' links
          end
      end
  end.

(** [getStreaming] (lines 389-433); [params_id] is [req.params.id],
    [query_ep] and [query_sub] are [req.query.ep] and [req.query.sub]. *)
Definition getStreaming (params_id : jsstring) (query_ep query_sub : jsval)
  : world → answer * world := fun w =>
  let route : M answer :=
    let idRaw := JsString.trim params_id in
    epNum ← lift (requested_page StringToNumber query_ep);
    subType ← lift (to_string ToString (or_val query_sub (JStr (js "sub"))));
    ids ← getAniIdsByMalOrAni StringToNumber ToString JSON_stringify base64 upstream idRaw;
    if negb (truthy (ids_id ids)) then mret (Links [])
    else
      _ ← lift (to_string ToString (ids_id ids));
      data ← fetchJson upstream
               [JStr (js ANIFY_BASE); JStr (js "/episodes/"); ids_id ids] 8000;
      if negb (truthy data) then mret (Links [])
      else
        let providers := match data with JArr provs => provs | _ => [] end in
        links ← visit (ids_id ids) epNum subType (sort by_preference providers) [];
        mret (Links links) in
  match route w with
  | (Ok a, w') => (a, w')
  | (Throw e, w') => (Failed (message_or e "Streaming providers failed"), w')
  end.
End Routes.

End Streaming.

(** ** The client's reading of the episodes endpoint ([part_000], lines
    630-697) *)
Module Client.

Record EpisodeItem : Type := {
  id : jsstring;
  number : JsNum.num;
  title : jsval;
  air_date : jsval;
}.

Record EpisodesResponse : Type := {
  episodes : list EpisodeItem;
  pagination : jsval;
}.

(** [{ ...pagination, last_visible_page: last }] on the fields of an
    object: the property keeps its place when it is there, and comes last
    when it is not. *)
Fixpoint with_last_visible_page (fields : list (jsstring * jsval)) (last : jsval)
  : list (jsstring * jsval) :=
  match fields with
  | [] => [(js "last_visible_page", last)]
  | (k, v) :: fields' =>
      if bool_decide (k = js "last_visible_page") then (k, last) :: fields'
      else (k, v) :: with_last_visible_page fields' last
  end.

Section Client.
Variable StringToNumber : jsstring → JsNum.num.
Variable ToString : jsval → jsstring.
Variable upstream : nat → request → outcome.

(** The callback of [base.map] (lines 663-682). *)
Definition normalize_episode (idx : nat) (ep : jsval) : result EpisodeItem :=
  first ← prop ep "number";
  let number :=
    coalesce first
      (coalesce (opt_prop ep "episode")
         (coalesce (opt_prop ep "episode_number")
            (coalesce (opt_prop ep "ep") (coalesce (opt_prop ep "ep_num") JNull)))) in
  let title :=
    or_val (opt_prop ep "title")
      (or_val (opt_prop ep "name")
         (or_val (opt_prop ep "episodeTitle")
            (or_val (opt_prop ep "title_english") JUndefined))) in
  let air_date :=
    coalesce (opt_prop ep "air_date")
      (coalesce (opt_prop ep "aired") (coalesce (opt_prop ep "date") JNull)) in
  n ← number_or_zero StringToNumber number;
  let finalNum := if JsNum.gtb n (JsNum.of_Z 0) then n else JsNum.of_nat (idx + 1) in
  let id :=
    coalesce (opt_prop ep "id")
      (coalesce (opt_prop ep "mal_id")
         (JStr (ToString (coalesce (opt_prop ep "mal_id") (JStr []))
                  ++ js "-" ++ ToString (JNum finalNum)))) in
  printed ← to_string ToString id;
  Ok {| id := printed; number := finalNum; title := title; air_date := air_date |}.

(** [normalizeEpisodesResponse(data)] (lines 661-697).  An array has no
    property of the names read off [pagination], and spreads to its
    indices. *)
Definition normalizeEpisodesResponse (data : jsval) : result EpisodesResponse :=
  listed ← prop data "episodes";
  let base :=
    or_val listed (or_val (opt_prop data "results") (or_val (opt_prop data "data") (JArr []))) in
  episodes ← match base with
             | JArr items => map_indexed normalize_episode items
             | _ => Throw (Thrown (JStr (js "base.map is not a function")))
             end;
  let pagination := or_val (opt_prop data "pagination") (or_val (opt_prop data "meta") JNull) in
  let last :=
    coalesce (opt_prop pagination "last_visible_page")
      (coalesce (opt_prop pagination "last_page")
         (coalesce (opt_prop pagination "total_pages")
            (coalesce (opt_prop pagination "totalPages") JNull))) in
  match pagination with
  | JObj fields =>
      Ok {| episodes := episodes; pagination := JObj (with_last_visible_page fields last) |}
  | JArr items =>
      Ok {| episodes := episodes;
            pagination :=
              JObj (with_last_visible_page (imap (fun i x => (js (pretty i), x)) items) last) |}
  | _ => Ok {| episodes := episodes; pagination := JNull |}
  end.

(** [fetchEpisodes(id, page)] (lines 646-659). *)
Definition fetchEpisodes (id page : JsNum.num) : world → EpisodesResponse * world := fun w =>
  let attempt : M (option EpisodesResponse) :=
    '(status, body) ← fetch upstream
                        (Get [JStr (js "/api/anime/episodes/"); JNum id;
                              JStr (js "?page="); JNum page]);
    if ok_status status then
      data ← lift body;
      normalized ← lift (normalizeEpisodesResponse data);
      mret (Some normalized)
    else mret None in
  let nothing := {| episodes := []; pagination := JNull |} in
  match attempt w with
  | (Ok (Some r), w') => (r, w')
  | (Ok None, w') | (Throw _, w') => (nothing, w')
  end.
End Client.

End Client.

(** ** The synopsis of a summary ([part_000], line 75) *)
Module Synopsis.
Import ReplaceAll.

Definition not_gt (c : N) : bool := negb (c =? 62)%N.

(** [<[^>]+>]: a [<], the longest run of characters other than [>], which
    must not be empty, and a [>].  The run ends at the first [>] or at the
    end of the input, so a shorter run is never followed by a [>]. *)
Definition tag : matcher := fun s =>
  match s with
  | 60%N :: s' =>
      match many not_gt s' with
      | Some (62%N :: rest) => Some rest
      | _ => None
      end
  | _ => None
  end.

(** [typeof m?.description === "string" ? m.description.replace(/<[^>]+>/g, "") : ""]. *)
Definition synopsis (m : jsval) : jsstring :=
  match opt_prop m "description" with
  | JStr description => replace_all tag [] description
  | _ => []
  end.

End Synopsis.

(** ** The streaming route of the Jikan generation ([anime.ts], lines
    445-500) *)
Module JikanStreaming.
Import JikanRoutes.

Record link : Type := { name : jsval; url : jsval }.

Inductive answer : Type :=
| Links (links : list link)
| Failed (error : jsval).

Definition CONSUMET : string := "https://api.consumet.org".
Definition providers : list string := ["gogoanime"; "zoro"; "animepahe"].

(** Lines 466-477: the links one answer of a provider's watch endpoint
    gives. *)
Definition provider_links (p : string) (j : jsval) : list link :=
  let sources :=
    or_val (opt_prop j "sources")
      (or_val (opt_prop j "mirrors")
         (or_val (opt_prop j "streaming") (or_val (opt_prop j "data") JNull))) in
  match sources with
  | JArr items =>
      omap (fun s =>
              if truthy (opt_prop s "url")
              then Some {| name := JStr (js p); url := opt_prop s "url" |}
              else match s with
                   | JStr _ => Some {| name := JStr (js p); url := s |}
                   | _ => None
                   end) items
  | _ =>
      if truthy (opt_prop j "url")
      then [{| name := JStr (js p); url := opt_prop j "url" |}]
      else []
  end.

(** [(j2.data || []).map((s) => ({ name: s.name, url: s.url }))]. *)
Definition station (s : jsval) : result link :=
  name ← prop s "name";
  url ← prop s "url";
  Ok {| name := name; url := url |}.

Section Routes.
Variable ToString : jsval → jsstring.
Variable toLowerCase : jsstring → jsstring.
Variable upstream : nat → request → outcome.

(** The body of the loop (lines 460-481), a [try] with an empty [catch]:
    the links to push. *)
Definition watch (slug : jsstring) (p : string) : M (list link) :=
  try_catch
    ('(status, body) ← fetch upstream
                         (Get [JStr (js CONSUMET); JStr (js "/anime/"); JStr (js p);
                               JStr (js "/watch/"); JStr slug; JStr (js "-episode-1")]);
     if negb (ok_status status) then mret []
     else
       j ← lift body;
       mret (provider_links p j))
    (fun _ => mret []).

Fixpoint watch_all (slug : jsstring) (ps : list string) (links : list link)
  : M (list link) :=
  match ps with
  | [] => mret links
  | p :: ps' =>
      found ← watch slug p;
      watch_all slug ps' (links ++ found)
  end.

(** The fallback (lines 484-495), a [try] with an empty [catch]. *)
Definition jikan_links (id : jsstring) : M (list link) :=
  try_catch
    ('(_, body) ← fetch upstream
                    (Get [JStr (js JIKAN_BASE); JStr (js "/anime/"); JStr id;
                          JStr (js "/streaming")]);
     j2 ← lift body;
     data ← lift (prop j2 "data");
     match or_val data (JArr []) with
     | JArr items => lift (mapM station items)
     | _ => throw (Thrown (JStr (js "map is not a function")))
     end)
    (fun _ => mret []).

(** [getStreaming] (lines 445-500); [params_id] is [req.params.id]. *)
Definition getStreaming (params_id : jsstring) : world → answer * world := fun w =>
  let route : M answer :=
    let id := params_id in
    '(_, body) ← fetch upstream (Get [JStr (js JIKAN_BASE); JStr (js "/anime/"); JStr id]);
    infoJson ← lift body;
    let data := opt_prop infoJson "data" in
    let title :=
      or_val (opt_prop data "title")
        (or_val (opt_prop data "title_english") (opt_prop data "title_japanese")) in
    if negb (truthy title) then mret (Links [])
    else
      slug ← lift (slugified ToString toLowerCase title);
      links ← watch_all slug providers [];
      links ← match links with
              | [] => jikan_links id
              | _ :: _ => mret links
              end;
      mret (Links links) in
  match route w with
  | (Ok a, w') => (a, w')
  | (Throw e, w') => (Failed (message_or e "Streaming providers failed"), w')
  end.
End Routes.

End JikanStreaming.

(** ** The info route of the Jikan generation ([anime.ts], lines 91-253) *)
Module JikanInfo.
Import JikanRoutes.

(** [/^\d+$/.test(raw)]. *)
Definition all_digits (raw : jsstring) : bool :=
  match raw with
  | [] => false
  | _ :: _ => forallb JsString.is_digit raw
  end.

(** [raw.replace(/-/g, " ")]. *)
Definition unhyphen (raw : jsstring) : jsstring :=
  ReplaceAll.replace_all (ReplaceAll.one (fun c => (c =? 45)%N)) (js " ") raw.

(** [v[0]]: the first element of an array, the first character of a string,
    the property [0] of an object, and [undefined] on the other values that
    are not nullish. *)
Definition first_of (v : jsval) : jsval :=
  match v with
  | JArr (x :: _) => x
  | JStr (c :: _) => JStr [c]
  | JObj _ => opt_prop v "0"
  | _ => JUndefined
  end.

(** [{ ...base, seasons }]. *)
Fixpoint assign (fields : list (jsstring * jsval)) (key : jsstring) (v : jsval)
  : list (jsstring * jsval) :=
  match fields with
  | [] => [(key, v)]
  | (k, x) :: fields' =>
      if bool_decide (k = key) then (k, v) :: fields' else (k, x) :: assign fields' key v
  end.

Definition with_seasons (base seasons : jsval) : jsval :=
  match base with
  | JObj fields => JObj (assign fields (js "seasons") seasons)
  | _ => JObj [(js "seasons", seasons)]
  end.


Definition not_found : reply :=
  {| code := 404; sent := JObj [(js "error", JStr (js "Not found"))] |}.

Section Routes.
Variable ToString : jsval → jsstring.
Variable encodeURIComponent : jsstring → jsstring.

(** [normalizeBaseTitle(title)] on a value (line 13): the title is printed,
    [String(title || "")], and the string normalized. *)
Definition normalized (title : jsval) : result jsval :=
  s ← to_string ToString (or_val title (JStr []));
  Ok (JStr (Title.normalizeBaseTitle s)).

(** [mapAnime(data)] (lines 24-48): it reads the clock, and throws on a
    record of an unexpected shape. *)
Variable mapAnime : jsval → M jsval.
(** [await buildSeasonsChain(data).catch(() => null)] and the list made of
    the chain (lines 166-173); [Jikan.buildSeasonsChain] is the chain. *)
Variable seasons_of : jsval → M jsval.
Variable upstream : nat → request → outcome.

(** [fetchByMal(malId)] (lines 96-101). *)
Definition fetchByMal (malId : jsstring) : M jsval :=
  '(status, body) ← fetch upstream
                      (Get [JStr (js JIKAN_BASE); JStr (js "/anime/"); JStr malId;
                            JStr (js "/full")]);
  if negb (ok_status status) then mret JNull
  else
    json ← lift body;
    data ← lift (prop json "data");
    mret (coalesce data JNull).

(** Lines 163-175 and 208-219: the summary of a record with its seasons. *)
Definition full_answer (data : jsval) : M reply :=
  base ← mapAnime data;
  seasons ← seasons_of data;
  mret (send (with_seasons base seasons)).

(** The search by title (lines 179-193), a [try] with an empty [catch]:
    [Some reply] when the route returns from it. *)
Definition by_title (raw : jsstring) : M (option reply) :=
  try_catch
    ('(status, body) ← fetch upstream
                         (Get [JStr (js JIKAN_BASE); JStr (js "/anime?q=");
                               JStr (encodeURIComponent (unhyphen raw));
                               JStr (js "&limit=5")]);
     if ok_status status then
       sj ← lift body;
       listed ← lift (prop sj "data");
       let first := first_of (or_val listed (JArr [])) in
       if truthy first && truthy (opt_prop first "mal_id") then
         malId ← lift (to_string ToString (opt_prop first "mal_id"));
         data ← fetchByMal malId;
         if truthy data then
           summary ← mapAnime data;
           mret (Some (send summary))
         else mret None
       else mret None
     else mret None)
    (fun _ => mret None).

(** One turn of the loop over the Consumet providers (lines 199-243), a
    [try] with an empty [catch]. *)
Definition by_provider (raw : jsstring) (p : string) : M (option reply) :=
  try_catch
    ('(status, body) ← fetch upstream
                         (Get [JStr (js "https://api.consumet.org"); JStr (js "/anime/");
                               JStr (js p); JStr (js "/info/"); JStr raw]);
     if negb (ok_status status) then mret None
     else
       j ← lift body;
       let ep :=
         or_val (opt_prop j "id")
           (or_val (opt_prop j "mal_id")
              (or_val (opt_prop (opt_prop j "data") "mal_id")
                 (or_val (opt_prop (opt_prop j "data") "id") JNull))) in
       found ← (if truthy ep then
                  malId ← lift (to_string ToString ep);
                  data ← fetchByMal malId;
                  if truthy data then
                    r ← full_answer data;
                    mret (Some r)
                  else mret None
                else mret None);
       match found with
       | Some r => mret (Some r)
       | None =>
           let title :=
             or_val (opt_prop j "title")
               (or_val (opt_prop (opt_prop j "data") "title")
                  (or_val (opt_prop j "name") JNull)) in
           let image :=
             or_val (opt_prop j "image")
               (or_val (opt_prop j "poster")
                  (or_val (opt_prop (opt_prop j "data") "image") JNull)) in
           if truthy title then
             base ← lift (normalized title);
             mret (Some (send (JObj
               [(js "id", or_val (opt_prop j "mal_id") JNull);
                (js "title", base);
                (js "image", image);
                (js "type", or_val (opt_prop j "type") JNull);
                (js "year", or_val (opt_prop j "year") JNull);
                (js "rating", JNull);
                (js "subDub", JNull);
                (js "genres", or_val (opt_prop j "genres") (JArr []));
                (js "synopsis",
                 or_val (opt_prop j "description")
                   (or_val (opt_prop (opt_prop j "data") "description") JNull));
                (js "seasons", JArr [])])))
           else mret None
       end)
    (fun _ => mret None).

Fixpoint by_providers (raw : jsstring) (ps : list string) : M (option reply) :=
  match ps with
  | [] => mret None
  | p :: ps' =>
      found ← by_provider raw p;
      match found with
      | Some r => mret (Some r)
      | None => by_providers raw ps'
      end
  end.

(** [getInfo] (lines 91-253); [raw] is [String(req.params.id || "")]. *)
Definition getInfo (raw : jsstring) : world → reply * world :=
  handle
    (direct ← (if all_digits raw then
                 data ← fetchByMal raw;
                 if truthy data then
                   r ← full_answer data;
                   mret (Some r)
                 else mret None
               else mret None);
     match direct with
     | Some r => mret r
     | None =>
         searched ← by_title raw;
         match searched with
         | Some r => mret r
         | None =>
             found ← by_providers raw ["gogoanime"; "zoro"; "animepahe"];
             match found with
             | Some r => mret r
             | None => mret not_found
             end
         end
     end)
    "Info failed".
End Routes.

End JikanInfo.

(** ** The info route of the AniList generation ([part_000], lines
    147-156 and 165-228) *)
Module AniListInfo.
Import AniList JikanRoutes.

Definition relationsQuery : jsstring :=
  js "query($id:Int!){
    Media(id:$id, type: ANIME){
      id idMal format title{ userPreferred }
      relations{ edges{ relationType node{ id idMal format title{ userPreferred } } } }
    }
  }".

Definition infoQuery : jsstring :=
  js "query($id: Int, $idMal: Int){
        Media(id: $id, idMal: $idMal, type: ANIME){
          id idMal title { userPreferred english romaji native }
          coverImage{ extraLarge large medium }
          format seasonYear averageScore genres description
        }
      }".

Section Routes.
Variable StringToNumber : jsstring → JsNum.num.
Variable ToString : jsval → jsstring.
Variable JSON_stringify : jsval → jsstring.
Variable base64 : jsstring → jsstring.
(** [mapAnilistToSummary(m)] (lines 58-77); it throws where
    [String(title)] does, in [normalizeBaseTitle]. *)
Variable mapAnilistToSummary : jsval → M jsval.
(** Lines 186-221: the two loops from [start] and the list made of the
    chain; [AniList.seasons_chain] is the chain. *)
Variable seasons_from : jsval → M jsval.
Variable upstream : nat → request → outcome.

(** [fetchWithRelations(id)] (lines 147-156). *)
Definition fetchWithRelations (id : jsval) : M jsval :=
  d ← gql ToString JSON_stringify base64 upstream relationsQuery (JObj [(js "id", id)]);
  mret (coalesce (opt_prop d "Media") JNull).

(** [getInfo] (lines 165-228); [params_id] is [req.params.id]. *)
Definition getInfo (params_id : jsstring) : world → reply * world :=
  handle
    (let raw := JsString.trim params_id in
     ids ← getAniIdsByMalOrAni StringToNumber ToString JSON_stringify base64 upstream raw;
     if negb (truthy (ids_id ids)) && negb (truthy (ids_idMal ids))
     then mret JikanInfo.not_found
     else
       data ← gql ToString JSON_stringify base64 upstream infoQuery
                (JObj [(js "id", ids_id ids); (js "idMal", ids_idMal ids)]);
       let m := opt_prop data "Media" in
       if negb (truthy m) then mret JikanInfo.not_found
       else
         base ← mapAnilistToSummary m;
         if is_string (opt_prop m "format") "MOVIE"
         then mret (send (JikanInfo.with_seasons base (JArr [])))
         else
           start ← fetchWithRelations (opt_prop m "id");
           if negb (truthy start)
           then mret (send (JikanInfo.with_seasons base (JArr [])))
           else
             seasons ← seasons_from start;
             mret (send (JikanInfo.with_seasons base seasons)))
    "Info failed".
End Routes.

End AniListInfo.

(* ===================================================================== *)
(** * Properties *)
(* ===================================================================== *)

(** ** The order of JS numbers *)
Module JsNumFacts.
Import JsNum.

Lemma Qle_bool_false_iff (x y : Q) : Qle_bool x y = false ↔ (y < x)%Q.
Proof.
  split.
  - intros Hb. apply Qnot_le_lt. intros Hle. apply Qle_bool_iff in Hle. congruence.
  - intros Hlt. destruct (Qle_bool x y) eqn:Hb; [|done].
    apply Qle_bool_iff in Hb. by apply Qlt_not_le in Hlt.
Qed.

Lemma ltb_Fin (p q : Q) : ltb (Fin p) (Fin q) = true ↔ (p < q)%Q.
Proof. cbn. by rewrite negb_true_iff, Qle_bool_false_iff. Qed.

Lemma ltb_asym x y : ltb x y = true → ltb y x = false.
Proof.
  destruct x as [|[]|p], y as [|[]|q]; cbn; try done.
  rewrite negb_true_iff, negb_false_iff, Qle_bool_false_iff, Qle_bool_iff.
  apply Qlt_le_weak.
Qed.

Lemma ltb_trans x y z : ltb x y = true → ltb y z = true → ltb x z = true.
Proof.
  destruct x as [|[]|p], y as [|[]|q], z as [|[]|r]; try done.
  rewrite !ltb_Fin. apply Qlt_trans.
Qed.

(** Two numbers that are not the same [Map] key are ordered one way or the
    other. *)
Lemma ltb_total x y :
  is_nan x = false → is_nan y = false →
  same_value_zero x y = false → ltb y x = false → ltb x y = true.
Proof.
  destruct x as [|[]|p], y as [|[]|q]; cbn; try done.
  intros _ _ Hne Hle. rewrite negb_false_iff, Qle_bool_iff in Hle.
  rewrite negb_true_iff, Qle_bool_false_iff.
  apply Qle_lteq in Hle as [Hlt|Heq]; [done|].
  apply Qeq_bool_iff in Heq. congruence.
Qed.

Lemma ltb_apart x y : ltb x y = true → same_value_zero x y = false.
Proof.
  destruct x as [|[]|p], y as [|[]|q]; try done.
  rewrite ltb_Fin. intros Hlt. cbn.
  destruct (Qeq_bool p q) eqn:Heq; [|done].
  apply Qeq_bool_iff in Heq. rewrite Heq in Hlt. by apply Qlt_irrefl in Hlt.
Qed.

(** The sign of a difference is the comparison: [x - y > 0] exactly when
    [y < x]. *)
Lemma sub_positive x y : gtb (sub x y) (of_Z 0) = ltb y x.
Proof.
  destruct x as [|[]|p], y as [|[]|q]; try reflexivity.
  unfold gtb, sub, of_Z, ltb. f_equal.
  assert (E1 : (p - q + q == p)%Q) by ring.
  assert (E2 : (inject_Z 0 + q == q)%Q) by ring.
  destruct (Qle_bool p q) eqn:Hpq.
  - apply Qle_bool_iff. apply Qle_bool_iff in Hpq.
    apply (Qplus_le_l _ _ q). by rewrite E1, E2.
  - apply Qle_bool_false_iff. apply Qle_bool_false_iff in Hpq.
    apply (Qplus_lt_l _ _ q). by rewrite E1, E2.
Qed.

Lemma truthy_not_nan x : truthy x = true → is_nan x = false.
Proof. by destruct x. Qed.

End JsNumFacts.

Module CacheFacts.
Import Cache.

Lemma set_all_other writes cache key :
  Forall (fun w => w.1.2 ≠ key) writes →
  set_all writes cache !! key = cache !! key.
Proof.
  revert cache. induction writes as [|w ws IH]; intros cache Hne; [done|].
  inversion Hne as [|? ? Hw Hws]; subst. cbn.
  rewrite IH by done. unfold setCached. by rewrite lookup_insert_ne.
Qed.

(** C9.  After [setCached key v] at time [t0], and whatever is written under
    other keys in between, [getCached key] at time [t1] returns [v] while the
    entry's age [t1 - t0] is at most [TTL_MS], and returns [null] once the age
    exceeds [TTL_MS]; in the second case the entry is still in the store:
    nothing deleted it.  The episodes cache of the Jikan generation, read in
    place, serves the payload while the age is below [EPISODES_TTL_MS] and
    nothing from then on, the entry staying in the store as well. *)
Theorem ttl_cache_get_after_set cache key v t0 t1 writes :
  Forall (fun w => w.1.2 ≠ key) writes →
  let cache' := set_all writes (setCached cache t0 key v) in
  (t1 - t0 ≤ TTL_MS → getCached cache' t1 key = v) ∧
  (t1 - t0 > TTL_MS → getCached cache' t1 key = JNull) ∧
  (t1 - t0 < Jikan.EPISODES_TTL_MS → Jikan.cached_payload cache' t1 key = Some v) ∧
  (Jikan.EPISODES_TTL_MS ≤ t1 - t0 → Jikan.cached_payload cache' t1 key = None) ∧
  cache' !! key = Some {| at_ := t0; data := v |}.
Proof.
  intros Hne cache'.
  assert (Hl : cache' !! key = Some {| at_ := t0; data := v |}).
  { unfold cache'. rewrite set_all_other by done.
    unfold setCached. apply lookup_insert_eq. }
  unfold getCached, Jikan.cached_payload. rewrite Hl. cbn [at_ data].
  repeat split.
  - intros Hage. destruct (Z.gtb_spec (t1 - t0) TTL_MS); [lia | done].
  - intros Hage. destruct (Z.gtb_spec (t1 - t0) TTL_MS); [done | lia].
  - intros Hage. destruct (Z.ltb_spec (t1 - t0) Jikan.EPISODES_TTL_MS); [done | lia].
  - intros Hage. destruct (Z.ltb_spec (t1 - t0) Jikan.EPISODES_TTL_MS); [lia | done].
Qed.

(** The theorem at a store with one other key written in between, read at
    the last instant of each window and at the first instant after it. *)
Lemma ttl_cache_get_after_set_witness :
  getCached (set_all [(5, js "other", JNull)] (setCached ∅ 0 (js "k") (JBool true)))
            300000 (js "k") = JBool true
  ∧ getCached (set_all [(5, js "other", JNull)] (setCached ∅ 0 (js "k") (JBool true)))
              300001 (js "k") = JNull
  ∧ Jikan.cached_payload
      (set_all [(5, js "other", JNull)] (setCached ∅ 0 (js "k") (JBool true)))
      179999 (js "k") = Some (JBool true)
  ∧ Jikan.cached_payload
      (set_all [(5, js "other", JNull)] (setCached ∅ 0 (js "k") (JBool true)))
      180000 (js "k") = None.
Proof.
  assert (Hother : Forall (fun w : Z * jsstring * jsval => w.1.2 ≠ js "k")
                     [(5, js "other", JNull)]).
  { repeat constructor. by vm_compute. }
  split; [|split; [|split]].
  - apply (ttl_cache_get_after_set ∅ (js "k") (JBool true) 0 300000 _ Hother). by vm_compute.
  - apply (ttl_cache_get_after_set ∅ (js "k") (JBool true) 0 300001 _ Hother). by vm_compute.
  - apply (ttl_cache_get_after_set ∅ (js "k") (JBool true) 0 179999 _ Hother). by vm_compute.
  - apply (ttl_cache_get_after_set ∅ (js "k") (JBool true) 0 180000 _ Hother). by vm_compute.
Defined.

(** A key that was never set is absent. *)
Lemma getCached_never_set now key : getCached ∅ now key = JNull.
Proof. unfold getCached. by rewrite lookup_empty. Qed.

End CacheFacts.

(** ** Picking a relation edge *)
Module PickFacts.

(** What [Array.prototype.find] returns: the first element that satisfies the
    predicate, and nothing when none does. *)
Lemma find_first {A} (p : A → bool) (l : list A) :
  match List.find p l with
  | Some x => ∃ i, l !! i = Some x ∧ p x = true ∧
                   ∀ j y, (j < i)%nat → l !! j = Some y → p y = false
  | None => ∀ y, y ∈ l → p y = false
  end.
Proof.
  induction l as [|a l IH]; cbn.
  - intros y Hy. by apply elem_of_nil in Hy.
  - destruct (p a) eqn:Hpa.
    + exists 0%nat. repeat split; [done|]. intros j y Hj. lia.
    + destruct (List.find p l) as [x|].
      * destruct IH as (i & Hi & Hpx & Hbefore). exists (S i). repeat split; [done..|].
        intros [|j] y Hj Hy; cbn in Hy.
        -- by simplify_eq.
        -- eapply Hbefore; [|done]. lia.
      * intros y Hy. apply elem_of_cons in Hy as [->|Hy]; [done | by apply IH].
Qed.

(** C8, as the code has it.  Among the candidates of the wanted relation type,
    in edge order: [pickEdge] returns the first one whose format is "TV" or
    "ONA"; when no candidate has one of these two formats it returns the first
    candidate, and [null] when there is none.  [pickRelation] of the Jikan
    generation returns the first entry of type "TV", and the first entry when
    none has that type. *)
Theorem pick_prefers_primary_then_first :
  (∀ (es : list AniList.edge) (type : string),
     let cands := AniList.candidates es type in
     match List.find AniList.primary cands with
     | Some c =>
         AniList.pickEdge es type = c ∧
         ∃ i, cands !! i = Some c ∧ AniList.primary c = true ∧
              ∀ j d, (j < i)%nat → cands !! j = Some d → AniList.primary d = false
     | None =>
         (∀ d, d ∈ cands → AniList.primary d = false) ∧
         AniList.pickEdge es type = default None (cands !! 0%nat)
     end) ∧
  (∀ (es : list Jikan.entry) (rel : jsval),
     let r := Some {| Jikan.rel_relation := rel; Jikan.rel_entry := Some es |} in
     match List.find (fun x => is_string (Jikan.e_type x) "TV") es with
     | Some c =>
         Jikan.pickRelation r = Some (Jikan.e_mal_id c, Jikan.e_name c) ∧
         ∃ i, es !! i = Some c ∧ is_string (Jikan.e_type c) "TV" = true ∧
              ∀ j d, (j < i)%nat → es !! j = Some d → is_string (Jikan.e_type d) "TV" = false
     | None =>
         (∀ d, d ∈ es → is_string (Jikan.e_type d) "TV" = false) ∧
         Jikan.pickRelation r =
           (fun c => (Jikan.e_mal_id c, Jikan.e_name c)) <$> es !! 0%nat
     end).
Proof.
  split.
  - intros es type cands.
    pose proof (find_first AniList.primary cands) as Hfind.
    unfold AniList.pickEdge. fold cands.
    destruct (List.find AniList.primary cands) as [c|].
    + split; [done | exact Hfind].
    + split; [exact Hfind | by destruct cands].
  - intros es rel r.
    pose proof (find_first (fun x => is_string (Jikan.e_type x) "TV") es) as Hfind.
    unfold Jikan.pickRelation, r; cbn.
    destruct (List.find _ es) as [c|].
    + split; [done | exact Hfind].
    + split; [exact Hfind | by destruct es].
Qed.

Definition ona_node : AniList.node :=
  {| AniList.id := 1; AniList.idMal := JNull;
     AniList.format := JStr (js "ONA"); AniList.title := JStr (js "Side Story") |}.

Definition tv_node : AniList.node :=
  {| AniList.id := 2; AniList.idMal := JNull;
     AniList.format := JStr (js "TV"); AniList.title := JStr (js "Season 1") |}.

Definition ona_first : list AniList.edge :=
  [ {| AniList.relationType := JStr (js "PREQUEL"); AniList.edge_node := Some ona_node |};
    {| AniList.relationType := JStr (js "PREQUEL"); AniList.edge_node := Some tv_node |} ].

(** C8, as stated, fails on [pickEdge]: with an "ONA" candidate ahead of a
    "TV" candidate, the "ONA" one is chosen although a candidate of format
    "TV" exists. *)
Lemma pickEdge_picks_ona_before_tv :
  AniList.candidates ona_first "PREQUEL" = [Some ona_node; Some tv_node] ∧
  is_string (AniList.format tv_node) "TV" = true ∧
  AniList.pickEdge ona_first "PREQUEL" = Some ona_node ∧
  is_string (AniList.format ona_node) "TV" = false.
Proof. repeat split. Qed.

End PickFacts.

(** ** The season chain *)
Module ChainFacts.

(** *** AniList generation: [seen] starts as [{start.id}] *)
Section AniListWalk.
Import AniList.
Variable fetchWithRelations : Z → result (option media).

(** One loop only appends: what it adds is at most [remaining] nodes, with
    pairwise distinct ids, none of which was in [seen] before, and [seen]
    grows by exactly these ids. *)
Lemma walk_appends type remaining :
  ∀ current seen out seen' out',
    walk fetchWithRelations type remaining current seen out = Ok (seen', out') →
    ∃ added,
      out' = out ++ added ∧
      (length added ≤ remaining)%nat ∧
      NoDup (id <$> added) ∧
      (∀ x, x ∈ (id <$> added) → x ∉ seen) ∧
      seen' = seen ∪ list_to_set (id <$> added).
Proof.
  induction remaining as [|k IH]; intros current seen out seen' out' Hwalk; cbn in Hwalk.
  - simplify_eq. exists []. rewrite app_nil_r. cbn.
    repeat split; [lia | constructor | set_solver | set_solver].
  - destruct (pickEdge (edges current) type) as [cand|]; last first.
    { simplify_eq. exists []. rewrite app_nil_r. cbn.
      repeat split; [lia | constructor | set_solver | set_solver]. }
    destruct (decide (id cand ∈ seen)) as [Hin|Hnotin].
    { simplify_eq. exists []. rewrite app_nil_r. cbn.
      repeat split; [lia | constructor | set_solver | set_solver]. }
    destruct (fetchWithRelations (id cand)) as [[next|]|e]; cbn in Hwalk; [| |done].
    + apply IH in Hwalk as (added & -> & Hlen & Hnd & Hfresh & ->).
      exists (cand :: added). rewrite <- app_assoc. cbn.
      repeat split.
      * lia.
      * constructor; [|done]. intros Hc. apply Hfresh in Hc. set_solver.
      * intros x Hx. apply elem_of_cons in Hx as [->|Hx]; [done|].
        apply Hfresh in Hx. set_solver.
      * set_solver.
    + simplify_eq. exists [cand]. cbn.
      repeat split; [lia | apply NoDup_singleton | set_solver | set_solver].
Qed.

(** The chain of the AniList generation never holds an id twice, is at most
    seven long (3 back, the start, 3 forward), and [seen] is the set of its
    ids, the start's among them.  [seasons_chain] throws exactly when a
    lookup does; then [getInfo] answers 500 and there is no chain. *)
Lemma seasons_chain_distinct start seen chain :
  seasons_chain fetchWithRelations start = Ok (seen, chain) →
  NoDup (id <$> chain) ∧ (length chain ≤ 7)%nat ∧
  seen = list_to_set (id <$> chain) ∧ id (self start) ∈ seen.
Proof.
  unfold seasons_chain. intros Hchain.
  destruct (walk _ "PREQUEL" _ _ _ _) as [[seen1 back]|] eqn:Hback; [|done].
  rewrite result_bind_ok in Hchain. cbv beta iota in Hchain.
  apply walk_appends in Hback as (added1 & -> & Hlen1 & Hnd1 & Hfresh1 & ->).
  apply walk_appends in Hchain as (added2 & -> & Hlen2 & Hnd2 & Hfresh2 & ->).
  rewrite app_nil_l in *. rewrite !fmap_app, fmap_reverse. cbn [fmap list_fmap].
  repeat split.
  - apply NoDup_app. split; [|split; [|done]].
    + apply NoDup_app. split; [by rewrite reverse_Permutation|].
      split; [|apply NoDup_singleton].
      intros x Hx Hs. rewrite elem_of_reverse in Hx. apply Hfresh1 in Hx. set_solver.
    + intros x Hx Hx2. apply Hfresh2 in Hx2. apply Hx2.
      apply elem_of_app in Hx as [Hx|Hx]; [rewrite elem_of_reverse in Hx|]; set_solver.
  - rewrite !length_app, length_reverse. cbn. lia.
  - apply set_eq. intros x.
    rewrite !elem_of_union, !elem_of_list_to_set, !elem_of_app, elem_of_reverse.
    set_solver.
  - set_solver.
Qed.

(** With lookups that never throw the chain is always produced. *)
Lemma walk_returns type remaining :
  (∀ i, ∃ m, fetchWithRelations i = Ok m) →
  ∀ current seen out, ∃ r, walk fetchWithRelations type remaining current seen out = Ok r.
Proof.
  intros Hfetch. induction remaining as [|k IH]; intros current seen out; cbn; [eauto|].
  destruct (pickEdge _ _) as [cand|]; [|eauto].
  destruct (decide _); [eauto|].
  destruct (Hfetch (id cand)) as [[next|] ->]; cbn; eauto.
Qed.

Lemma seasons_chain_returns start :
  (∀ i, ∃ m, fetchWithRelations i = Ok m) →
  ∃ r, seasons_chain fetchWithRelations start = Ok r.
Proof.
  intros Hfetch. unfold seasons_chain.
  destruct (walk_returns "PREQUEL" 3 Hfetch start {[id (self start)]} [])
    as [[seen1 back] ->].
  rewrite result_bind_ok. apply walk_returns, Hfetch.
Qed.

Lemma walk_throws type remaining : ∀ current seen out e,
  walk fetchWithRelations type remaining current seen out = Throw e →
  ∃ i, fetchWithRelations i = Throw e.
Proof.
  induction remaining as [|k IH]; intros current seen out e Hw; cbn in Hw; [done|].
  destruct (pickEdge _ _) as [cand|]; [|done].
  destruct (decide _); [done|].
  destruct (fetchWithRelations (id cand)) as [[next|]|e'] eqn:Hf; cbn in Hw.
  - by eapply IH.
  - done.
  - simplify_eq. eauto.
Qed.

(** X1.  The season chain of the AniList generation, whatever the graph: either a
    lookup threw, and the route answers 500, or the chain has pairwise
    distinct ids, is at most 7 long, and [seen] holds exactly its ids. *)
Theorem seasons_chain_never_revisits start :
  match seasons_chain fetchWithRelations start with
  | Ok (seen, chain) =>
      NoDup (id <$> chain) ∧ (length chain ≤ 7)%nat ∧
      seen = list_to_set (id <$> chain) ∧ id (self start) ∈ seen
  | Throw e => ∃ i, fetchWithRelations i = Throw e
  end.
Proof.
  destruct (seasons_chain fetchWithRelations start) as [[seen chain]|e] eqn:Hc.
  - by apply seasons_chain_distinct.
  - unfold seasons_chain in Hc.
    destruct (walk _ "PREQUEL" _ _ _ _) as [[seen1 back]|e1] eqn:Hback.
    + rewrite result_bind_ok in Hc. by eapply walk_throws.
    + cbn in Hc. simplify_eq. by eapply walk_throws.
Qed.
End AniListWalk.

(** *** Jikan generation: [seen] starts empty *)
Section JikanWalk.
Import Jikan.
Variable fetchByMal : Z → result (option anime).

Lemma walk_back_length remaining :
  ∀ current st st',
    walk_back fetchByMal remaining current st = Ok st' →
    (length (ids st') ≤ length (ids st) + remaining)%nat.
Proof.
  induction remaining as [|k IH]; intros current st st' Hw; cbn in Hw.
  - simplify_eq. lia.
  - destruct (pickRelation _) as [[pid ?]|]; [|simplify_eq; lia].
    destruct (decide _); [simplify_eq; lia|].
    destruct (fetchByMal pid) as [[full|]|]; cbn in Hw; [| |done].
    + apply IH in Hw. cbn in Hw. rewrite length_app in Hw. cbn in Hw. lia.
    + simplify_eq. cbn. rewrite length_app. cbn. lia.
Qed.

Lemma walk_forward_length remaining :
  ∀ current st st',
    walk_forward fetchByMal remaining current st = Ok st' →
    (length (ids st') ≤ length (ids st) + remaining)%nat.
Proof.
  induction remaining as [|k IH]; intros current st st' Hw; cbn in Hw.
  - simplify_eq. lia.
  - destruct (pickRelation _) as [[sid ?]|]; [|simplify_eq; lia].
    destruct (decide _); [simplify_eq; lia|].
    destruct (fetchByMal sid) as [[full|]|]; cbn in Hw; [| |done].
    + apply IH in Hw. cbn in Hw. rewrite length_app in Hw. cbn in Hw. lia.
    + simplify_eq. cbn. lia.
Qed.

(** The bound of the claim holds in the Jikan generation too: at most
    8 + 1 + 8 ids. *)
Lemma buildSeasonsChain_length startData st :
  buildSeasonsChain fetchByMal startData = Ok st → (length (ids st) ≤ 17)%nat.
Proof.
  unfold buildSeasonsChain. intros Hb.
  destruct (walk_back _ _ _ _) as [st1|] eqn:Hback; [|done].
  rewrite result_bind_ok in Hb.
  apply walk_back_length in Hback. apply walk_forward_length in Hb.
  cbn [ids] in *. rewrite length_app, length_reverse in Hb. cbn [length] in *. lia.
Qed.

Lemma walk_back_throws remaining : ∀ current st e,
  walk_back fetchByMal remaining current st = Throw e → ∃ i, fetchByMal i = Throw e.
Proof.
  induction remaining as [|k IH]; intros current st e Hw; cbn in Hw; [done|].
  destruct (pickRelation _) as [[pid ?]|]; [|done].
  destruct (decide _); [done|].
  destruct (fetchByMal pid) as [[full|]|e'] eqn:Hf; cbn in Hw.
  - by eapply IH.
  - done.
  - simplify_eq. eauto.
Qed.

Lemma walk_forward_throws remaining : ∀ current st e,
  walk_forward fetchByMal remaining current st = Throw e → ∃ i, fetchByMal i = Throw e.
Proof.
  induction remaining as [|k IH]; intros current st e Hw; cbn in Hw; [done|].
  destruct (pickRelation _) as [[sid ?]|]; [|done].
  destruct (decide _); [done|].
  destruct (fetchByMal sid) as [[full|]|e'] eqn:Hf; cbn in Hw.
  - by eapply IH.
  - done.
  - simplify_eq. eauto.
Qed.

Lemma buildSeasonsChain_throws startData e :
  buildSeasonsChain fetchByMal startData = Throw e → ∃ i, fetchByMal i = Throw e.
Proof.
  unfold buildSeasonsChain. intros Hb.
  destruct (walk_back _ _ _ _) as [st1|e1] eqn:Hback.
  - rewrite result_bind_ok in Hb. by eapply walk_forward_throws.
  - injection Hb as ->. by eapply walk_back_throws.
Qed.

(** X2.  [buildSeasonsChain], whatever the graph: either a lookup threw, or
    the chain is at most 17 ids long. *)
Theorem buildSeasonsChain_bounded startData :
  match buildSeasonsChain fetchByMal startData with
  | Ok st => (length (ids st) ≤ 17)%nat
  | Throw e => ∃ i, fetchByMal i = Throw e
  end.
Proof.
  destruct (buildSeasonsChain fetchByMal startData) as [st|e] eqn:Hb.
  - by eapply buildSeasonsChain_length.
  - by eapply buildSeasonsChain_throws.
Qed.
End JikanWalk.

(** A two-title cycle: 1 names 2 as its prequel and 2 names 1. *)
Definition cyclic_title (self prequel : Z) : Jikan.anime :=
  {| Jikan.mal_id := self;
     Jikan.a_title := JStr (js "T");
     Jikan.a_title_english := JNull;
     Jikan.a_title_japanese := JNull;
     Jikan.relations :=
       [ {| Jikan.rel_relation := JStr (js "Prequel");
            Jikan.rel_entry := Some [ {| Jikan.e_mal_id := prequel;
                                         Jikan.e_type := JStr (js "TV");
                                         Jikan.e_name := JStr (js "T") |} ] |} ] |}.

Definition cyclic_jikan (i : Z) : result (option Jikan.anime) :=
  if i =? 1 then Ok (Some (cyclic_title 1 2))
  else if i =? 2 then Ok (Some (cyclic_title 2 1))
  else Ok None.

(** The same graph as the AniList generation receives it. *)
Definition cyclic_media (self prequel : Z) : AniList.media :=
  {| AniList.self := {| AniList.id := self; AniList.idMal := JNull;
                        AniList.format := JStr (js "TV");
                        AniList.title := JStr (js "T") |};
     AniList.edges :=
       [ {| AniList.relationType := JStr (js "PREQUEL");
            AniList.edge_node := Some {| AniList.id := prequel; AniList.idMal := JNull;
                                         AniList.format := JStr (js "TV");
                                         AniList.title := JStr (js "T") |} |} ] |}.

Definition cyclic_anilist (i : Z) : result (option AniList.media) :=
  if i =? 1 then Ok (Some (cyclic_media 1 2))
  else if i =? 2 then Ok (Some (cyclic_media 2 1))
  else Ok None.

Definition chain_ids (r : result Jikan.walk_state) : result (list Z) :=
  match r with
  | Ok st => Ok (Jikan.ids st)
  | Throw e => Throw e
  end.

Definition node_ids (r : result (gset Z * list AniList.node)) : result (list Z) :=
  match r with
  | Ok (_, chain) => Ok (AniList.id <$> chain)
  | Throw e => Throw e
  end.

(** C2 at the cycle.  [buildSeasonsChain] starts from an empty [seen], so the
    start's own id 1 is accepted as a candidate on the second backward step
    and the chain is [1; 2; 1]: id 1 twice.  The AniList generation, whose
    [seen] starts as [{start.id}], stops there and returns [2; 1]. *)
Theorem buildSeasonsChain_revisits_start :
  chain_ids (Jikan.buildSeasonsChain cyclic_jikan (cyclic_title 1 2)) = Ok [1; 2; 1] ∧
  node_ids (AniList.seasons_chain cyclic_anilist (cyclic_media 1 2)) = Ok [2; 1].
Proof. split; vm_compute; reflexivity. Qed.

(** The scenario of the specification: P2 has the prequel P1 and the sequel
    S1, P1 has no prequel, and the lookup of S1 finds nothing.  (P1, P2, S1
    are the ids 1, 2, 3.) *)
Definition related (self : Z) (prequel sequel : list Z) : AniList.media :=
  let node_of i := {| AniList.id := i; AniList.idMal := JNull;
                      AniList.format := JStr (js "TV"); AniList.title := JStr (js "T") |} in
  {| AniList.self := node_of self;
     AniList.edges :=
       ((fun i => {| AniList.relationType := JStr (js "PREQUEL");
                     AniList.edge_node := Some (node_of i) |}) <$> prequel)
       ++ ((fun i => {| AniList.relationType := JStr (js "SEQUEL");
                        AniList.edge_node := Some (node_of i) |}) <$> sequel) |}.

Definition sequel_missing (i : Z) : result (option AniList.media) :=
  if i =? 1 then Ok (Some (related 1 [] [2]))
  else if i =? 2 then Ok (Some (related 2 [1] [3]))
  else Ok None.

(** An example.  In the AniList generation a candidate is pushed before it
    is looked up, so the chain is cut after S1, not before it. *)
Lemma chain_cut_at_failed_lookup :
  node_ids (AniList.seasons_chain sequel_missing (related 2 [1] [3])) = Ok [1; 2; 3].
Proof. vm_compute. reflexivity. Qed.

End ChainFacts.

(** ** Page numbers and pagination *)
Module PagingFacts.

Import JsNumFacts.

(** The value [Math.max(1, x || 1)] takes. *)
Lemma max_one_or_else (x : JsNum.num) :
  JsNum.max (JsNum.of_Z 1) (JsNum.or_else x (JsNum.of_Z 1)) =
  if JsNum.ltb (JsNum.of_Z 1) x then x else JsNum.of_Z 1.
Proof.
  destruct x as [|[]|q]; try reflexivity.
  unfold JsNum.or_else, JsNum.truthy.
  destruct (Qeq_bool q 0) eqn:Hz; cbn [negb]; [|reflexivity].
  apply Qeq_bool_iff in Hz.
  assert (Hle : Qle_bool q 1 = true).
  { apply Qle_bool_iff. rewrite Hz. unfold Qle. cbn. lia. }
  change (JsNum.ltb (JsNum.of_Z 1) (JsNum.Fin q)) with (negb (Qle_bool q 1)).
  rewrite Hle. reflexivity.
Qed.

(** C10, as the code has it.  The effective page is [n] when the coerced
    parameter [n] is greater than 1 and is 1 otherwise (parameter missing,
    empty, not a number, zero, negative, or any value up to 1).  It is never
    [NaN] and never below 1, and it is an integer whenever [n] is.  Nothing
    rounds it: a fractional or infinite [n] above 1 is used as it stands. *)
Theorem effective_page_at_least_one
    (StringToNumber : jsstring → JsNum.num) (query_page : jsval) :
  let n := ToNumber StringToNumber
             (if truthy query_page then query_page else JNum (JsNum.of_Z 1)) in
  let p := effective_page StringToNumber query_page in
  p = (if JsNum.ltb (JsNum.of_Z 1) n then n else JsNum.of_Z 1) ∧
  JsNum.is_nan p = false ∧
  JsNum.ltb p (JsNum.of_Z 1) = false ∧
  (JsNum.is_integer n = true → JsNum.is_integer p = true).
Proof.
  intros n p.
  assert (Hp : p = if JsNum.ltb (JsNum.of_Z 1) n then n else JsNum.of_Z 1)
    by apply max_one_or_else.
  split; [exact Hp|]. rewrite Hp. clear Hp p.
  destruct (JsNum.ltb (JsNum.of_Z 1) n) eqn:Hlt; [|by repeat split].
  destruct n as [|[]|q]; try discriminate; [by repeat split|].
  repeat split; [|done].
  cbn in Hlt |- *. apply negb_true_iff, Qle_bool_false_iff in Hlt.
  apply negb_false_iff, Qle_bool_iff. by apply Qlt_le_weak.
Qed.

(** C10, as stated, fails: [?page=2.5] gives the page 2.5, which is no
    integer. *)
Lemma effective_page_fraction :
  effective_page Decimal.StringToNumber (JStr (js "2.5")) = JsNum.Fin (5 # 2) ∧
  JsNum.is_integer (effective_page Decimal.StringToNumber (JStr (js "2.5"))) = false.
Proof. split; vm_compute; reflexivity. Qed.

(** The inputs the claim lists all give page 1. *)
Lemma effective_page_defaults :
  effective_page Decimal.StringToNumber JUndefined = JsNum.of_Z 1 ∧
  effective_page Decimal.StringToNumber (JStr (js "abc")) = JsNum.of_Z 1 ∧
  effective_page Decimal.StringToNumber (JStr (js "0")) = JsNum.of_Z 1 ∧
  effective_page Decimal.StringToNumber (JStr (js "-4")) = JsNum.of_Z 1 ∧
  effective_page Decimal.StringToNumber (JStr (js "3")) = JsNum.of_Z 3.
Proof. repeat split; vm_compute; reflexivity. Qed.

(** [Math.ceil(total / perPage)] is the integer ceiling. *)
Lemma ceil_total_per_page (total : nat) :
  JsNum.ceil (JsNum.div (JsNum.of_nat total) (JsNum.of_Z perPage)) =
  JsNum.of_Z ((Z.of_nat total + 23) / 24).
Proof.
  unfold JsNum.div, JsNum.of_nat, JsNum.ceil, perPage, JsNum.of_Z.
  change (Qeq_bool (inject_Z 24) 0) with false. cbv iota.
  do 2 f_equal. generalize (Z.of_nat total). intros t.
  unfold Qceiling, Qfloor, Qdiv, Qmult, Qinv, Qopp, inject_Z. cbn.
  rewrite Z.mul_1_r. Z.div_mod_to_equations. lia.
Qed.

Lemma max_of_Z (a b : Z) : JsNum.max (JsNum.of_Z a) (JsNum.of_Z b) = JsNum.of_Z (Z.max a b).
Proof.
  unfold JsNum.max, JsNum.of_Z, JsNum.ltb, Qle_bool. cbn. rewrite !Z.mul_1_r.
  destruct (Z.leb_spec b a); cbn; f_equal; f_equal; lia.
Qed.

Lemma last_visible_page_value (total : nat) :
  JsNum.max (JsNum.of_Z 1)
    (JsNum.ceil (JsNum.div (JsNum.of_nat total) (JsNum.of_Z perPage))) =
  JsNum.of_Z (Z.max 1 ((Z.of_nat total + 23) / 24)).
Proof. by rewrite ceil_total_per_page, max_of_Z. Qed.

Lemma has_next_page_value (total : nat) (n : Z) :
  JsNum.gtb (JsNum.of_nat total) (JsNum.mul (JsNum.of_Z n) (JsNum.of_Z perPage)) =
  (n * 24 <? Z.of_nat total).
Proof.
  unfold JsNum.gtb, JsNum.ltb, JsNum.mul, JsNum.of_nat, JsNum.of_Z, Qle_bool, perPage.
  cbn. rewrite !Z.mul_1_r.
  destruct (Z.leb_spec (Z.of_nat total) (n * 24)), (Z.ltb_spec (n * 24) (Z.of_nat total));
    cbn; [lia | done | done | lia].
Qed.

(** C7, as the code has it, for the pagination of both generations.
    For a page that is an integer [n], [has_next_page] is [total > n * 24].
    On every page [last_visible_page] is [max(1, ceil(total / 24))]: the
    least [c] with [total <= 24 * c] when [total] is positive, and 1, not
    [ceil(0 / 24) = 0], when [total] is 0. *)
Theorem pagination_fields (total : nat) (page : JsNum.num) :
  let c := (Z.of_nat total + 23) / 24 in
  (∀ p, p = AniList.pagination total page ∨ p = Jikan.pagination total page →
     (∀ n : Z, page = JsNum.of_Z n → has_next_page p = (n * 24 <? Z.of_nat total)) ∧
     last_visible_page p = JsNum.of_Z (Z.max 1 c)) ∧
  24 * (c - 1) < Z.of_nat total ≤ 24 * c ∧
  (total ≠ 0%nat → Z.max 1 c = c) ∧
  (total = 0%nat → Z.max 1 c = 1 ∧ c = 0).
Proof.
  intros c. split; [|split; [|split]].
  - intros p [-> | ->]; cbn [has_next_page last_visible_page AniList.pagination Jikan.pagination];
      (split; [intros n ->; apply has_next_page_value|]);
      apply last_visible_page_value.
  - unfold c. Z.div_mod_to_equations. lia.
  - intros Hpos. unfold c. Z.div_mod_to_equations. lia.
  - intros ->. by vm_compute.
Qed.

(** C7, as stated, fails at [total = 0]: the page count is 1 where
    [ceil(0 / 24)] is 0. *)
Lemma empty_list_has_one_page :
  last_visible_page (AniList.pagination 0 (JsNum.of_Z 1)) = JsNum.of_Z 1 ∧
  JsNum.ceil (JsNum.div (JsNum.of_nat 0) (JsNum.of_Z perPage)) = JsNum.of_Z 0.
Proof. split; vm_compute; reflexivity. Qed.

End PagingFacts.

(** ** [Array.prototype.sort] *)
Module SortFacts.
Section Sort.
Context {A : Type} (cmp : A → A → JsNum.num).

Lemma sort_insert_perm x l : sort_insert cmp x l ≡ₚ x :: l.
Proof.
  induction l as [|y l IH]; cbn [sort_insert]; [done|].
  destruct (JsNum.gtb (cmp x y) _); [|done].
  rewrite IH. apply Permutation_swap.
Qed.

(** Sorting only reorders. *)
Lemma sort_perm l : sort cmp l ≡ₚ l.
Proof.
  induction l as [|x l IH]; cbn; [done|].
  by rewrite sort_insert_perm, IH.
Qed.

Lemma sort_Forall (P : A → Prop) l : Forall P l → Forall P (sort cmp l).
Proof. intros H. by rewrite sort_perm. Qed.

Lemma sort_length l : length (sort cmp l) = length l.
Proof. by rewrite sort_perm. Qed.
End Sort.

Section Sorted.
Context {A : Type} (R : relation A).

Lemma StronglySorted_take n l : StronglySorted R l → StronglySorted R (take n l).
Proof. rewrite <- (take_drop n l) at 1. apply StronglySorted_app_1_l. Qed.

Lemma StronglySorted_drop n l : StronglySorted R l → StronglySorted R (drop n l).
Proof. rewrite <- (take_drop n l) at 1. apply StronglySorted_app_1_r. Qed.

Lemma StronglySorted_lookup l i j a b :
  StronglySorted R l → (i < j)%nat → l !! i = Some a → l !! j = Some b → R a b.
Proof.
  intros Hs Hij Ha Hb. rewrite <- (take_drop j l) in Hs.
  eapply StronglySorted_app_1_elem_of; [done|..].
  - apply elem_of_take. eauto.
  - apply list_elem_of_lookup. exists 0%nat. by rewrite lookup_drop, Nat.add_0_r.
Qed.
End Sorted.

(** *** The order providers are processed in *)
Section KeySort.
Context {A : Type} (key : A → Z) (cmp : A → A → JsNum.num).
Hypothesis cmp_key : ∀ a b, JsNum.gtb (cmp a b) (JsNum.of_Z 0) = (key b <? key a).

Lemma sort_insert_by_key x l :
  StronglySorted (fun a b => key a ≤ key b) l →
  StronglySorted (fun a b => key a ≤ key b) (sort_insert cmp x l).
Proof.
  induction 1 as [|y l Hs IH Hy]; cbn [sort_insert]; [repeat constructor|].
  rewrite cmp_key. destruct (Z.ltb_spec (key y) (key x)).
  - constructor; [done|]. rewrite sort_insert_perm. constructor; [lia | done].
  - constructor; [by constructor|]. constructor; [done|].
    eapply Forall_impl; [exact Hy|]. cbn. intros; lia.
Qed.

(** A sort by an integer key puts the keys in ascending order... *)
Lemma sort_by_key l : StronglySorted (fun a b => key a ≤ key b) (sort cmp l).
Proof.
  induction l as [|x l IH]; cbn [sort]; [constructor | by apply sort_insert_by_key].
Qed.

Lemma sort_insert_stable k x l :
  filter (fun a => key a = k) (sort_insert cmp x l) = filter (fun a => key a = k) (x :: l).
Proof.
  induction l as [|y l IH]; cbn [sort_insert]; [done|].
  rewrite cmp_key. destruct (Z.ltb_spec (key y) (key x)); [|done].
  rewrite filter_cons, IH, !filter_cons.
  repeat case_decide; try done. lia.
Qed.

(** ... and keeps the elements of equal key in the order they came in. *)
Lemma sort_stable k l :
  filter (fun a => key a = k) (sort cmp l) = filter (fun a => key a = k) l.
Proof.
  induction l as [|x l IH]; cbn [sort]; [done|].
  by rewrite sort_insert_stable, !filter_cons, IH.
Qed.
End KeySort.
End SortFacts.

(** ** The episode reconciler *)
Module ReconcileFacts.
Import AniList JsNumFacts SortFacts.

Definition key_lt (a b : episode) : Prop := JsNum.lt (number a) (number b).
Definition apart (a b : episode) : Prop :=
  JsNum.same_value_zero (number a) (number b) = false.
Definition valid (e : episode) : Prop := JsNum.truthy (number e) = true.

Definition by_number (a b : episode) : JsNum.num := JsNum.sub (number a) (number b).

Lemma apart_sym a b : apart a b → apart b a.
Proof.
  unfold apart. destruct (number a) as [|[]|p], (number b) as [|[]|q]; cbn; try done.
  intros H. destruct (Qeq_bool q p) eqn:E; [|done].
  apply Qeq_bool_iff in E. symmetry in E. apply Qeq_bool_iff in E. congruence.
Qed.

#[local] Instance key_lt_trans : Transitive key_lt.
Proof. intros a b c. unfold key_lt, JsNum.lt. apply ltb_trans. Qed.

(** Inserting a key that is in no way equal to the keys already there keeps a
    strictly ascending list strictly ascending. *)
Lemma sort_insert_ascending x l :
  valid x → Forall valid l → Forall (apart x) l →
  StronglySorted key_lt l → StronglySorted key_lt (sort_insert by_number x l).
Proof.
  intros Hx. induction l as [|y l IH]; intros Hv Hap Hs; cbn [sort_insert].
  - repeat constructor.
  - inversion Hv as [|? ? Hy Hv']; inversion Hap as [|? ? Hxy Hap'];
      inversion Hs as [|? ? Hs' Hyl]; subst.
    unfold by_number at 1. rewrite sub_positive.
    destruct (JsNum.ltb (number y) (number x)) eqn:Hlt.
    + constructor; [by apply IH|].
      rewrite sort_insert_perm. by constructor.
    + assert (Hxlt : key_lt x y).
      { apply ltb_total; [by apply truthy_not_nan..|done|done]. }
      constructor; [done|]. constructor; [done|].
      eapply Forall_impl; [exact Hyl|]. intros z Hz. by etrans.
Qed.

Lemma sort_ascending l :
  Forall valid l → StronglySorted apart l → StronglySorted key_lt (sort by_number l).
Proof.
  induction l as [|x l IH]; intros Hv Hs; cbn; [constructor|].
  inversion Hv; inversion Hs; subst.
  apply sort_insert_ascending; [done| by apply sort_Forall.. | by apply IH].
Qed.

Lemma apart_snoc (l : list episode) x :
  StronglySorted apart l → Forall (fun e => apart e x) l → StronglySorted apart (l ++ [x]).
Proof.
  induction l as [|y l IH]; intros Hs Hx; cbn; [repeat constructor|].
  inversion Hs; inversion Hx; subst. constructor; [by apply IH|].
  apply Forall_app. split; [done | by constructor].
Qed.

Section Loop.
Variable StringToNumber : jsstring → JsNum.num.
Variable anime : jsval.

(** What the accumulating [Map] satisfies throughout the two loops: every
    key is truthy and no two entries have the same key. *)
Definition map_ok (map : list episode) : Prop :=
  Forall valid map ∧ StronglySorted apart map.

Lemma has_false map num :
  has map num = false →
  Forall (fun e => JsNum.same_value_zero (number e) num = false) map.
Proof.
  induction map as [|e map IH]; cbn; [constructor|].
  intros [He Hm]%orb_false_iff. constructor; [done | by apply IH].
Qed.

Lemma add_episode_ok map ep :
  map_ok map → map_ok (add_episode StringToNumber anime map ep).
Proof.
  intros [Hv Hs]. unfold add_episode.
  destruct (negb (JsNum.truthy _)) eqn:Ht; cbn [orb]; [done|].
  destruct (has map _) eqn:Hhas; [done|].
  apply negb_false_iff in Ht. split.
  - apply Forall_app. split; [done|]. by constructor.
  - apply apart_snoc; [done|]. by apply has_false.
Qed.

Lemma add_provider_ok map prov :
  map_ok map → map_ok (add_provider StringToNumber anime map prov).
Proof.
  unfold add_provider. generalize (default [] (episodes prov)). intros eps.
  revert map. induction eps as [|ep eps IH]; intros map Hok; cbn; [done|].
  by apply IH, add_episode_ok.
Qed.

Lemma providers_ok provs map :
  map_ok map →
  map_ok (List.fold_left (add_provider StringToNumber anime) provs map).
Proof.
  revert map. induction provs as [|p provs IH]; intros map Hok; cbn; [done|].
  by apply IH, add_provider_ok.
Qed.
End Loop.

(** *** First seen wins *)

Lemma svz_sym x y : JsNum.same_value_zero x y = JsNum.same_value_zero y x.
Proof.
  destruct x as [|[]|p], y as [|[]|q]; try reflexivity. cbn.
  destruct (Qeq_bool p q) eqn:E1, (Qeq_bool q p) eqn:E2; try reflexivity.
  - apply Qeq_bool_iff in E1. symmetry in E1. apply Qeq_bool_iff in E1. congruence.
  - apply Qeq_bool_iff in E2. symmetry in E2. apply Qeq_bool_iff in E2. congruence.
Qed.

Lemma svz_trans x y z :
  JsNum.same_value_zero x y = true → JsNum.same_value_zero y z = true →
  JsNum.same_value_zero x z = true.
Proof.
  destruct x as [|[]|p], y as [|[]|q], z as [|[]|r]; try done. cbn.
  rewrite !Qeq_bool_iff. apply Qeq_trans.
Qed.

Lemma svz_falsy_truthy x y :
  JsNum.truthy x = false → JsNum.truthy y = true → JsNum.same_value_zero x y = false.
Proof.
  destruct x as [|[]|p], y as [|[]|q]; try done. cbn.
  rewrite negb_false_iff, negb_true_iff. intros Hp Hq.
  destruct (Qeq_bool p q) eqn:E; [|done].
  apply Qeq_bool_iff in Hp, E. rewrite E in Hp. apply Qeq_bool_iff in Hp. congruence.
Qed.

Section FirstSeen.
Variable StringToNumber : jsstring → JsNum.num.
Variable anime : jsval.

Notation num_of := (episode_number StringToNumber).

(** The episodes in the order the two loops visit them. *)
Definition visited (provs : list provider) : list raw_episode :=
  List.concat (List.map (fun p => default [] (episodes p)) provs).

Lemma providers_visited provs map :
  List.fold_left (add_provider StringToNumber anime) provs map
  = List.fold_left (add_episode StringToNumber anime) (visited provs) map.
Proof.
  revert map. induction provs as [|p provs IH]; intros map; [done|].
  unfold visited. cbn. rewrite fold_left_app. apply IH.
Qed.

Lemma has_snoc map e num :
  has (map ++ [e]) num = has map num || JsNum.same_value_zero (number e) num.
Proof. unfold has. rewrite existsb_app. cbn. by rewrite orb_false_r. Qed.

Lemma has_true map num :
  has map num = true → ∃ e, e ∈ map ∧ JsNum.same_value_zero (number e) num = true.
Proof.
  induction map as [|e map IH]; cbn; [done|].
  intros [He|Hm]%orb_true_iff.
  - exists e. split; [apply list_elem_of_here | done].
  - destruct (IH Hm) as (e' & ? & ?). exists e'. split; [by apply list_elem_of_further | done].
Qed.

Lemma has_separates map a b :
  has map a = true → has map b = false → JsNum.same_value_zero a b = false.
Proof.
  intros (e & He & Ha)%has_true Hb.
  destruct (JsNum.same_value_zero a b) eqn:Hab; [|done].
  pose proof (svz_trans _ _ _ Ha Hab) as Heb.
  apply has_false in Hb. rewrite Forall_forall in Hb.
  rewrite (Hb e He) in Heb. done.
Qed.

(** The record kept for a number is made from the first visited episode that
    carries this number; an episode is skipped exactly when its number is
    falsy or was seen before. *)
Lemma first_seen_wins eps : ∀ map e,
  e ∈ List.fold_left (add_episode StringToNumber anime) eps map ↔
  e ∈ map ∨
  ∃ i ep, eps !! i = Some ep ∧
          e = record_of anime (num_of ep) ep ∧
          JsNum.truthy (num_of ep) = true ∧
          has map (num_of ep) = false ∧
          ∀ j ep', (j < i)%nat → eps !! j = Some ep' →
                   JsNum.same_value_zero (num_of ep') (num_of ep) = false.
Proof.
  induction eps as [|ep0 eps IH]; intros map e.
  { cbn. split; [by left|]. intros [H|(i & ep & H & _)]; [done | by destruct i]. }
  cbn [List.fold_left]. rewrite IH. unfold add_episode at 1 2.
  destruct (negb (JsNum.truthy (num_of ep0)) || has map (num_of ep0)) eqn:Hskip.
  - (* [ep0] is skipped *)
    split.
    + intros [H|(i & ep & Hi & He & Ht & Hh & Hearlier)]; [by left|].
      right. exists (S i), ep. repeat split; try done.
      intros [|j] ep' Hj Hj'; cbn in Hj'.
      * simplify_eq. apply orb_true_iff in Hskip as [Hf|Hs].
        -- apply svz_falsy_truthy; [by apply negb_true_iff | done].
        -- by eapply has_separates.
      * eapply Hearlier; [|done]. lia.
    + intros [H|(i & ep & Hi & He & Ht & Hh & Hearlier)]; [by left|].
      destruct i as [|i]; cbn in Hi.
      * simplify_eq. rewrite Ht, Hh in Hskip. done.
      * right. exists i, ep. repeat split; try done.
        intros j ep' Hj Hj'. apply (Hearlier (S j) ep'); [lia | done].
  - (* [ep0] is recorded *)
    apply orb_false_iff in Hskip as [Ht0%negb_false_iff Hh0].
    split.
    + intros [H|(i & ep & Hi & He & Ht & Hh & Hearlier)].
      * apply elem_of_app in H as [H|H]; [by left|].
        apply list_elem_of_singleton in H as ->.
        right. exists 0%nat, ep0. repeat split; try done. intros j ep' Hj. lia.
      * rewrite has_snoc in Hh. apply orb_false_iff in Hh as [Hh Hne].
        right. exists (S i), ep. repeat split; try done.
        intros [|j] ep' Hj Hj'; cbn in Hj'.
        -- by simplify_eq.
        -- eapply Hearlier; [|done]. lia.
    + intros [H|(i & ep & Hi & He & Ht & Hh & Hearlier)].
      * left. apply elem_of_app. by left.
      * destruct i as [|i]; cbn in Hi.
        -- simplify_eq. left. apply elem_of_app. right. apply list_elem_of_here.
        -- right. exists i, ep. repeat split; try done.
           ++ rewrite has_snoc, Hh. cbn. apply (Hearlier 0%nat ep0); [lia | done].
           ++ intros j ep' Hj Hj'. apply (Hearlier (S j) ep'); [lia | done].
Qed.

(** The rank a provider is sorted by: its index in [preferred], and -1 when
    it is not listed. *)
Definition rank (p : provider) : Z := indexOf preferred (providerId p).

Lemma by_preference_rank a b :
  JsNum.gtb (by_preference a b) (JsNum.of_Z 0) = (rank b <? rank a).
Proof.
  unfold by_preference. rewrite sub_positive. fold (rank a) (rank b).
  unfold JsNum.ltb, JsNum.of_Z, Qle_bool. cbn. rewrite !Z.mul_1_r.
  destruct (Z.leb_spec (rank a) (rank b)), (Z.ltb_spec (rank b) (rank a)); cbn; try done; lia.
Qed.

(** X3.  What the reconciler keeps.  Providers are visited in ascending rank,
    those of equal rank in the order of the response; the reconciled list
    holds, for each truthy episode number met on the way, the record made
    from the first episode that carries it, and nothing else. *)
Lemma reconcile_first_seen providers :
  let sorted := sort by_preference providers in
  StronglySorted (fun a b => rank a ≤ rank b) sorted ∧
  (∀ k, filter (fun p => rank p = k) sorted = filter (fun p => rank p = k) providers) ∧
  ∀ e, e ∈ reconcile StringToNumber anime providers ↔
       ∃ i ep, visited sorted !! i = Some ep ∧
               e = record_of anime (num_of ep) ep ∧
               JsNum.truthy (num_of ep) = true ∧
               ∀ j ep', (j < i)%nat → visited sorted !! j = Some ep' →
                        JsNum.same_value_zero (num_of ep') (num_of ep) = false.
Proof.
  intros sorted. split; [|split].
  - apply (sort_by_key rank), by_preference_rank.
  - intros k. apply (sort_stable rank), by_preference_rank.
  - intros e. unfold reconcile. fold sorted.
    rewrite sort_perm, providers_visited, first_seen_wins. split.
    + intros [H|(i & ep & Hi & He & Ht & _ & Hearlier)]; [by apply elem_of_nil in H|].
      by exists i, ep.
    + intros (i & ep & Hi & He & Ht & Hearlier). right. by exists i, ep.
Qed.
End FirstSeen.

(** C1.  Whatever the providers, their order, the order of their episodes and
    the numbers they share, the reconciled list is strictly ascending by
    episode number; hence no two of its records have the same number, and the
    page cut out of it is strictly ascending too. *)
Theorem reconcile_strictly_ascending
    (StringToNumber : jsstring → JsNum.num) (anime : jsval)
    (providers : list provider) (page : JsNum.num) :
  let list := reconcile StringToNumber anime providers in
  StronglySorted key_lt list ∧
  (∀ i j a b, i ≠ j → list !! i = Some a → list !! j = Some b →
              JsNum.same_value_zero (number a) (number b) = false) ∧
  StronglySorted key_lt (episodes_page StringToNumber anime providers page).1.
Proof.
  intros list.
  assert (Hs : StronglySorted key_lt list).
  { unfold list, reconcile.
    destruct (providers_ok StringToNumber anime
                (sort (by_preference) providers) []) as [Hv Ha].
    { split; constructor. }
    by apply sort_ascending. }
  split; [done|]. split.
  - assert (Hlt : ∀ i j a b, (i < j)%nat → list !! i = Some a → list !! j = Some b →
                              key_lt a b).
    { intros i j a b Hij Ha Hb.
      by apply (StronglySorted_lookup key_lt list i j). }
    intros i j a b Hij Ha Hb.
    destruct (decide (i < j)%nat).
    + apply ltb_apart. by eapply Hlt.
    + apply apart_sym, ltb_apart. eapply (Hlt j i); [lia|done..].
  - unfold episodes_page, slice. cbn [fst]. fold list.
    generalize (JsNum.slice_index (length list)). intros f.
    apply StronglySorted_take, StronglySorted_drop, Hs.
Qed.

End ReconcileFacts.

(** ** The fetchers *)
Module FetchFacts.

Definition fresh : world := {| cache := ∅; clock := 0; calls := 0 |}.

Definition episodes_url : list jsval := [JStr (js "https://api.jikan.moe/v4/anime/1/episodes?page=1")].

(** Three upstreams that fail in the three ways a request can: the
    connection is refused, the response never comes, the body is no JSON. *)
Definition refused (_ : nat) (_ : request) : outcome :=
  Rejected (Thrown (JStr (js "fetch failed"))) 3.

Definition silent (_ : nat) (_ : request) : outcome :=
  Responded 200 (Ok JNull) 60000.

Definition garbled (_ : nat) (_ : request) : outcome :=
  Responded 200 (Throw (Thrown (JStr (js "Unexpected token < in JSON")))) 3.

Definition unavailable (_ : nat) (_ : request) : outcome :=
  Responded 503 (Ok JNull) 3.

(** What [fetchJson] makes of the outcome of its request: the body of a 2xx
    answer that arrived in time, and [null] otherwise. *)
Definition read (timeoutMs : Z) (o : outcome) : jsval :=
  if elapsed_of o >? timeoutMs then JNull
  else match o with
       | Rejected _ _ => JNull
       | Responded status body _ =>
           if ok_status status
           then match body with Ok j => j | Throw _ => JNull end
           else JNull
       end.


(** X5.  The helper of the AniList generation never throws: whatever the
    upstream does, it returns, and it returns [null] unless a 2xx response
    with a JSON body arrived within the time limit. *)
Lemma anilist_fetchJson_returns upstream url timeoutMs w :
  ∃ v w', AniList.fetchJson upstream url timeoutMs w = (Ok v, w') ∧
          (v = JNull ∨
           ∃ status t, upstream (calls w) (Get url) = Responded status (Ok v) t ∧
                       ok_status status = true ∧ t ≤ timeoutMs).
Proof.
  unfold AniList.fetchJson, try_catch, fetch_with_timeout, fetch, mbind, M_bind, mret, M_ret, lift.
  destruct (upstream (calls w) (Get url)) as [e t|status body t] eqn:Hup; cbn [elapsed_of].
  - destruct (t >? timeoutMs); eauto.
  - destruct (Z.gtb_spec t timeoutMs); [eauto|].
    destruct (ok_status status) eqn:Hok; cbn [negb]; [|eauto].
    destruct body as [v|e]; eauto 10.
Qed.

(** C5 on the three failures.  [fetchJson] of [anime.ts] has a [finally] and
    no [catch]: a refused connection, a request aborted by the timer and a
    body that is no JSON all leave it as exceptions; only a non-2xx status is
    turned into [{ ok: false }].  [fetchJson] of the AniList generation
    returns [null] on all four. *)
Theorem jikan_fetchJson_lets_failures_escape :
  (Jikan.fetchJson refused episodes_url 8000 1 fresh).1
    = Throw (Thrown (JStr (js "fetch failed"))) ∧
  (Jikan.fetchJson silent episodes_url 8000 1 fresh).1 = Throw AbortError ∧
  (Jikan.fetchJson garbled episodes_url 8000 1 fresh).1
    = Throw (Thrown (JStr (js "Unexpected token < in JSON"))) ∧
  (Jikan.fetchJson unavailable episodes_url 8000 1 fresh).1
    = Ok {| Jikan.f_ok := false; Jikan.f_status := 503; Jikan.f_json := JNull |} ∧
  (AniList.fetchJson refused episodes_url 8000 fresh).1 = Ok JNull ∧
  (AniList.fetchJson silent episodes_url 8000 fresh).1 = Ok JNull ∧
  (AniList.fetchJson garbled episodes_url 8000 fresh).1 = Ok JNull ∧
  (AniList.fetchJson unavailable episodes_url 8000 fresh).1 = Ok JNull.
Proof. repeat split; vm_compute; reflexivity. Qed.

(** An upstream that answers the [n]-th request with the [n]-th status. *)
Definition statuses (l : list Z) (n : nat) (_ : request) : outcome :=
  Responded (default 200 (l !! n)) (Ok (JStr (js "body"))) 3.

(** Two runs of the retry policy: a 429 is retried after the back-off while
    retries are left, and returned as a failure when none is. *)
Lemma fetchJson_retries_429 :
  (let '(r, w) := Jikan.fetchJson (statuses [429; 429; 200]) episodes_url 8000 2 fresh in
   (r, calls w))
    = (Ok {| Jikan.f_ok := true; Jikan.f_status := 200; Jikan.f_json := JStr (js "body") |},
       3%nat) ∧
  (let '(r, w) := Jikan.fetchJson (statuses [429; 429; 429]) episodes_url 8000 1 fresh in
   (r, calls w))
    = (Ok {| Jikan.f_ok := false; Jikan.f_status := 429; Jikan.f_json := JNull |}, 2%nat).
Proof. split; vm_compute; reflexivity. Qed.

End FetchFacts.

(** ** Upstream failures in the routes *)
Module FacadeFacts.
Import AniList.

(** A transport failure: the request was rejected, or answered with a status
    that is not 2xx. *)
Definition transport_failure (o : outcome) : Prop :=
  match o with
  | Rejected _ _ => True
  | Responded status _ _ => ok_status status = false
  end.

Ltac unfold_M :=
  unfold mbind, M_bind, mret, M_ret, lift, throw, try_catch,
    getCached, setCached, fetch in *.

Section Routes.
Variable StringToNumber : jsstring → JsNum.num.
Variable ToString : jsval → jsstring.
Variable JSON_stringify : jsval → jsstring.
Variable base64 : jsstring → jsstring.
Variable Summary : Type.
Variable mapAnilistToSummary : jsval → result Summary.
Variable upstream : nat → request → outcome.

Definition gql_key (query : jsstring) (variables : jsval) : jsstring :=
  js "gql:" ++ base64 query ++ js "::" ++ JSON_stringify variables.

(** On a cache miss [gql] throws whenever the transport fails, and leaves
    the cache as it was. *)
Lemma gql_throws_on_failure query variables w :
  truthy (Cache.getCached (cache w) (clock w) (gql_key query variables)) = false →
  transport_failure (upstream (calls w) (Post ANILIST_ENDPOINT query variables)) →
  ∃ e t, gql ToString JSON_stringify base64 upstream query variables w
         = (Throw e, after w t).
Proof.
  intros Hmiss Hfail. unfold gql. fold (gql_key query variables). unfold_M.
  rewrite Hmiss.
  destruct (upstream (calls w) _) as [e t|status body t]; cbn in Hfail |- *; [eauto|].
  rewrite Hfail. cbn. eauto.
Qed.

Lemma empty_cache_misses (w : world) key :
  cache w = ∅ → truthy (Cache.getCached (cache w) (clock w) key) = false.
Proof. intros ->. by rewrite CacheFacts.getCached_never_set. Qed.

(** A lookup that misses the cache and fails in transport counts as "not
    found", in any state of the cache. *)
Lemma lookup_media_absorbs query variables w :
  truthy (Cache.getCached (cache w) (clock w) (gql_key query variables)) = false →
  transport_failure (upstream (calls w) (Post ANILIST_ENDPOINT query variables)) →
  ∃ t, lookup_media ToString JSON_stringify base64 upstream query variables w
       = (Ok None, after w t).
Proof.
  intros Hmiss Hfail.
  destruct (gql_throws_on_failure query variables w Hmiss Hfail) as (e & t & Hgql).
  exists t. unfold lookup_media, try_catch, mbind, M_bind at 1. by rewrite Hgql.
Qed.

Lemma lookup_media_absorbs_failure query variables w :
  cache w = ∅ →
  (∀ n req, transport_failure (upstream n req)) →
  ∃ t, lookup_media ToString JSON_stringify base64 upstream query variables w
       = (Ok None, after w t).
Proof.
  intros Hempty Hfail. apply lookup_media_absorbs; [by apply empty_cache_misses | apply Hfail].
Qed.

(** A lookup never throws. *)
Lemma lookup_media_never_throws query variables w :
  ∃ found w', lookup_media ToString JSON_stringify base64 upstream query variables w
              = (Ok found, w').
Proof.
  unfold lookup_media, try_catch, mbind, M_bind at 1.
  destruct (gql _ _ _ _ _ _ _) as [[found|e] w1]; [|by eauto].
  destruct (truthy _); by eauto.
Qed.

Lemma ids_always_returned idRaw w :
  ∃ ids w', getAniIdsByMalOrAni StringToNumber ToString JSON_stringify base64 upstream idRaw w
            = (Ok ids, w').
Proof.
  unfold getAniIdsByMalOrAni.
  destruct (StringToNumber idRaw) as [| |q]; [by eauto..|].
  unfold mbind, M_bind at 1.
  destruct (lookup_media_never_throws byMalQuery (JObj [(js "idMal", JNum (JsNum.Fin q))]) w)
    as ([ids|] & w1 & ->); [by eauto|].
  unfold mbind, M_bind at 1.
  destruct (lookup_media_never_throws byIdQuery (JObj [(js "id", JNum (JsNum.Fin q))]) w1)
    as ([ids|] & w2 & ->); by eauto.
Qed.

Lemma ids_unresolved_on_failure idRaw w :
  cache w = ∅ →
  (∀ n req, transport_failure (upstream n req)) →
  ∃ w', getAniIdsByMalOrAni StringToNumber ToString JSON_stringify base64 upstream idRaw w
        = (Ok {| ids_id := JNull; ids_idMal := JNull |}, w').
Proof.
  intros Hempty Hfail. unfold getAniIdsByMalOrAni.
  destruct (StringToNumber idRaw) as [| |q] eqn:Hnum; [by eexists..|].
  destruct (lookup_media_absorbs_failure byMalQuery (JObj [(js "idMal", JNum (JsNum.Fin q))]) w)
    as [t1 H1]; [done..|].
  destruct (lookup_media_absorbs_failure byIdQuery (JObj [(js "id", JNum (JsNum.Fin q))])
              (after w t1)) as [t2 H2]; [done..|].
  eexists. unfold mbind, M_bind at 1. rewrite H1.
  unfold mbind, M_bind at 1. rewrite H2. reflexivity.
Qed.

(** The Anify request of [getEpisodes] (line 258). *)
Definition anify_request (ids : ani_ids) : request :=
  Get [JStr (js ANIFY_BASE); JStr (js "/episodes/"); ids_id ids].

(** The first lines of [getEpisodes] on a query value that converts. *)
Lemma getEpisodes_after_ids params_id query_page ids w w1 :
  printable query_page = true →
  getAniIdsByMalOrAni StringToNumber ToString JSON_stringify base64 upstream
    (JsString.trim params_id) w = (Ok ids, w1) →
  truthy (ids_id ids) = false →
  getEpisodes StringToNumber ToString JSON_stringify base64 Summary upstream
    params_id query_page w
  = (respond (EpisodesBody [] None), w1).
Proof.
  intros Hpage Hids Hid.
  unfold getEpisodes, handle, requested_page. rewrite Hpage.
  unfold mbind, M_bind at 1. unfold lift at 1.
  unfold mbind, M_bind at 1. by rewrite Hids, Hid.
Qed.

(** C6, as the code has it, for [gql], [getTrending] and [getEpisodes] of
    [part_000], in any state [w] of the cache.
    - [gql] does not recover a transport failure: on a cache miss it
      throws, and leaves the cache as it was.
    - [getTrending] lets it surface: the caller gets status 500 with an
      [error] message.
    - [getEpisodes] recovers it.  Resolving the id never throws, and a
      lookup that misses the cache and fails counts as "not found".  With no
      id resolved the caller gets [{ episodes: [], pagination: null }] with
      status 200; with an id resolved, no Anify answer cached and the Anify
      request failing or exceeding its time limit, the same.  With nothing
      cached and every request failing, that is what the caller gets.
    - The handler of [getEpisodes] answers 500 where a conversion throws:
      [Number(req.query.page)], or the template literal on the resolved id,
      on a value that converts to no primitive. *)
Theorem transport_failure_in_routes (w : world) :
  (∀ query variables,
     truthy (Cache.getCached (cache w) (clock w) (gql_key query variables)) = false →
     transport_failure (upstream (calls w) (Post ANILIST_ENDPOINT query variables)) →
     (∃ e t, gql ToString JSON_stringify base64 upstream query variables w
             = (Throw e, after w t)) ∧
     (∃ t, lookup_media ToString JSON_stringify base64 upstream query variables w
           = (Ok None, after w t))) ∧
  (truthy (Cache.getCached (cache w) (clock w)
             (gql_key trendingQuery (JObj [(js "perPage", JNum (JsNum.of_Z 24))]))) = false →
   transport_failure
     (upstream (calls w)
        (Post ANILIST_ENDPOINT trendingQuery (JObj [(js "perPage", JNum (JsNum.of_Z 24))]))) →
   ∃ message,
     (getTrending ToString JSON_stringify base64 Summary mapAnilistToSummary upstream w).1
     = {| status := 500; json := ErrorBody message |}) ∧
  (∀ params_id query_page,
     ∃ ids w1,
       getAniIdsByMalOrAni StringToNumber ToString JSON_stringify base64 upstream
         (JsString.trim params_id) w = (Ok ids, w1) ∧
       (printable query_page = true →
        truthy (ids_id ids) = false →
        getEpisodes StringToNumber ToString JSON_stringify base64 Summary upstream
          params_id query_page w
        = (respond (EpisodesBody [] None), w1)) ∧
       (printable query_page = true →
        truthy (ids_id ids) = true →
        printable (ids_id ids) = true →
        truthy (Cache.getCached (cache w1) (clock w1)
                  (js "anify:episodes:" ++ ToString (ids_id ids))) = false →
        transport_failure (upstream (calls w1) (anify_request ids))
        ∨ elapsed_of (upstream (calls w1) (anify_request ids)) > 8000 →
        (getEpisodes StringToNumber ToString JSON_stringify base64 Summary upstream
           params_id query_page w).1
        = respond (EpisodesBody [] None)) ∧
       (printable query_page = false
        ∨ truthy (ids_id ids) = true ∧ printable (ids_id ids) = false →
        status (getEpisodes StringToNumber ToString JSON_stringify base64 Summary upstream
                  params_id query_page w).1 = 500)) ∧
  (∀ params_id query_page,
     printable query_page = true →
     cache w = ∅ →
     (∀ n req, transport_failure (upstream n req)) →
     (getEpisodes StringToNumber ToString JSON_stringify base64 Summary upstream
        params_id query_page w).1
     = respond (EpisodesBody [] None)).
Proof.
  split; [|split; [|split]].
  - intros query variables Hmiss Hfail.
    split; [by apply gql_throws_on_failure | by apply lookup_media_absorbs].
  - intros Hmiss Hfail.
    destruct (gql_throws_on_failure _ _ w Hmiss Hfail) as (e & t & Hgql).
    exists (message_or e "Failed to fetch trending").
    unfold getTrending, handle, mbind, M_bind at 1. by rewrite Hgql.
  - intros params_id query_page.
    destruct (ids_always_returned (JsString.trim params_id) w) as (ids & w1 & Hids).
    exists ids, w1. split; [done|]. split; [|split].
    + intros Hpage Hid. by apply (getEpisodes_after_ids params_id query_page ids).
    + intros Hpage Hid Hprint Hmiss Hfail.
      unfold getEpisodes, handle, requested_page. rewrite Hpage.
      unfold mbind, M_bind at 1. unfold lift at 1.
      unfold mbind, M_bind at 1. rewrite Hids, Hid. cbn [negb].
      unfold to_string. rewrite Hprint.
      unfold mbind, M_bind at 1. unfold lift at 1.
      unfold getCached, mbind, M_bind at 1. rewrite Hmiss.
      assert (Hnull : ∃ w2, fetchJson upstream
                              [JStr (js ANIFY_BASE); JStr (js "/episodes/"); ids_id ids]
                              8000 w1 = (Ok JNull, w2)).
      { unfold fetchJson, try_catch, fetch_with_timeout, fetch, mbind, M_bind, mret, M_ret, lift.
        unfold anify_request in Hfail.
        set (o := upstream (calls w1) _) in *. destruct Hfail as [Hfail|Hslow].
        - destruct (elapsed_of o >? 8000); [eauto|].
          destruct o as [e t|status body t]; cbn in Hfail; [eauto|].
          rewrite Hfail. eauto.
        - destruct (Z.gtb_spec (elapsed_of o) 8000); [eauto | lia]. }
      destruct Hnull as [w2 Hnull].
      unfold mbind, M_bind at 1. unfold mbind, M_bind at 1. rewrite Hnull. reflexivity.
    + intros [Hpage|[Hid Hprint]];
        unfold getEpisodes, handle, requested_page.
      * rewrite Hpage. reflexivity.
      * destruct (printable query_page); [|reflexivity].
        unfold mbind, M_bind at 1. unfold lift at 1.
        unfold mbind, M_bind at 1. rewrite Hids, Hid. cbn [negb].
        unfold to_string. rewrite Hprint. reflexivity.
  - intros params_id query_page Hpage Hempty Hfail.
    destruct (ids_unresolved_on_failure (JsString.trim params_id) w Hempty Hfail)
      as [w' Hids].
    by rewrite (getEpisodes_after_ids params_id query_page
                  {| ids_id := JNull; ids_idMal := JNull |} w w' Hpage Hids eq_refl).
Qed.
End Routes.

(** The theorem at work: an empty cache, an upstream that answers 503 to
    everything, the routes run with the printing built-ins of [Runtime]. *)
Lemma transport_failure_in_routes_witness :
  (∃ message : jsval,
     (getTrending Runtime.ToString Runtime.JSON_stringify Runtime.base64 jsval (fun m => Ok m)
        FetchFacts.unavailable FetchFacts.fresh).1
     = {| status := 500; json := ErrorBody message |}) ∧
  (getEpisodes Decimal.StringToNumber Runtime.ToString Runtime.JSON_stringify Runtime.base64
     jsval FetchFacts.unavailable (js "21") (JStr (js "1")) FetchFacts.fresh).1
  = respond (EpisodesBody [] None).
Proof.
  pose proof (transport_failure_in_routes Decimal.StringToNumber Runtime.ToString
                Runtime.JSON_stringify Runtime.base64 jsval (fun m => Ok m)
                FetchFacts.unavailable FetchFacts.fresh) as (_ & Htrending & _ & Hepisodes).
  split.
  - apply Htrending; reflexivity.
  - apply Hepisodes; [reflexivity | reflexivity |]. intros n req. reflexivity.
Defined.

(** C6, as stated, fails on [getTrending]: with nothing cached and AniList
    answering 503, the caller is sent status 500 and an error message, not an
    empty result. *)
Lemma trending_reports_upstream_failure :
  (getTrending Runtime.ToString Runtime.JSON_stringify Runtime.base64 jsval (fun m => Ok m)
     FetchFacts.unavailable FetchFacts.fresh).1
  = {| status := 500; json := ErrorBody (JStr (js "AniList error: 503")) |}.
Proof. vm_compute. reflexivity. Qed.

End FacadeFacts.

(** ** Provider preference *)
Module PreferenceFacts.
Import AniList.

Definition ep (n : Z) (id : string) : raw_episode :=
  {| ep_number := JNum (JsNum.of_Z n); ep_id := JStr (js id); ep_title := JUndefined |}.

Definition out (n : Z) (id : string) : episode :=
  {| e_id := IdOf (JStr (js id)); number := JsNum.of_Z n; e_title := JUndefined |}.

Definition prov (name : string) (eps : list raw_episode) : provider :=
  {| providerId := JStr (js name); episodes := Some eps |}.

(** The scenario of the specification, with two listed providers standing
    for A and B, in either order of arrival. *)
Definition A : provider := prov "gogoanime" [ep 1 "a1"; ep 2 "a2"].
Definition B : provider := prov "zoro" [ep 2 "b2"; ep 3 "b3"].

Lemma listed_providers_by_preference :
  reconcile Decimal.StringToNumber (JNum (JsNum.of_Z 21)) [A; B]
    = [out 1 "a1"; out 2 "a2"; out 3 "b3"] ∧
  reconcile Decimal.StringToNumber (JNum (JsNum.of_Z 21)) [B; A]
    = [out 1 "a1"; out 2 "a2"; out 3 "b3"].
Proof. split; vm_compute; reflexivity. Qed.

(** [indexOf] is -1 for a provider that is not listed, which is below the
    index of every listed one. *)
Lemma indexOf_unlisted :
  indexOf preferred (JStr (js "animeflix")) = -1 ∧
  indexOf preferred JUndefined = -1 ∧
  indexOf preferred (JStr (js "gogoanime")) = 0 ∧
  indexOf preferred (JStr (js "aniwave")) = 5.
Proof. repeat split. Qed.

(** C4 on a provider that is not in the preference order.  The comparator
    subtracts [indexOf] results, and an unlisted provider has index -1: it is
    processed before every listed provider, so its record for episode 1 is
    the one kept and the most preferred provider's record is dropped. *)
Theorem unlisted_provider_processed_first :
  sort by_preference
    [prov "gogoanime" [ep 1 "g1"]; prov "animeflix" [ep 1 "u1"]]
    = [prov "animeflix" [ep 1 "u1"]; prov "gogoanime" [ep 1 "g1"]] ∧
  reconcile Decimal.StringToNumber (JNum (JsNum.of_Z 21))
    [prov "gogoanime" [ep 1 "g1"]; prov "animeflix" [ep 1 "u1"]]
    = [out 1 "u1"].
Proof. split; vm_compute; reflexivity. Qed.

End PreferenceFacts.

(** ** Trimming *)
Module TrimFacts.
Import JsString.

Definition no_leading_space (s : jsstring) : Prop :=
  match s with
  | c :: _ => is_space c = false
  | [] => True
  end.

Lemma trimStart_no_leading_space s : no_leading_space (trimStart s).
Proof.
  induction s as [|c s IH]; cbn; [done|].
  destruct (is_space c) eqn:Hc; [done | exact Hc].
Qed.

Lemma trimStart_id s : no_leading_space s → trimStart s = s.
Proof. destruct s as [|c s]; cbn; [done|]. by intros ->. Qed.

Lemma prefix_no_leading_space (p s : jsstring) :
  p `prefix_of` s → no_leading_space s → no_leading_space p.
Proof. intros [k ->]. by destruct p. Qed.

Lemma trimEnd_prefix s : trimEnd s `prefix_of` s.
Proof.
  induction s as [|c s IH]; cbn; [done|].
  destruct (trimEnd s) as [|d t] eqn:Ht.
  - destruct (is_space c); [apply prefix_nil | apply prefix_cons, prefix_nil].
  - by apply prefix_cons.
Qed.

Lemma trimEnd_cons c s :
  trimEnd (c :: s) = match trimEnd s with
                     | [] => if is_space c then [] else [c]
                     | t => c :: t
                     end.
Proof. reflexivity. Qed.

Lemma trimEnd_idemp s : trimEnd (trimEnd s) = trimEnd s.
Proof.
  induction s as [|c s IH]; [done|].
  rewrite trimEnd_cons. destruct (trimEnd s) as [|d t] eqn:Ht.
  - destruct (is_space c) eqn:Hc; [done|]. rewrite trimEnd_cons. cbn. by rewrite Hc.
  - rewrite trimEnd_cons, IH. reflexivity.
Qed.

(** A trimmed string stays as it is under [trim]. *)
Lemma trim_trimEnd s : no_leading_space s → trim (trimEnd s) = trimEnd s.
Proof.
  intros Hs. unfold trim. rewrite trimStart_id, trimEnd_idemp; [done|].
  eapply prefix_no_leading_space; [apply trimEnd_prefix | done].
Qed.

Lemma trim_prefix s : no_leading_space s → trim s `prefix_of` s.
Proof. intros Hs. unfold trim. rewrite trimStart_id by done. apply trimEnd_prefix. Qed.

End TrimFacts.

(** ** Matching *)
Module RegexFacts.
Import Regex.

Lemma star_answer p k prev s rest :
  star p k prev s = Some rest → ∃ prev' s', k prev' s' = Some rest.
Proof.
  revert prev. induction s as [|x s IH]; intros prev; cbn; [eauto|].
  destruct (in_cls p x); [|eauto].
  destruct (star p k (Some x) s) as [r|] eqn:Hs; [|eauto].
  intros [= ->]. eauto.
Qed.

(** A successful match is an answer of the continuation. *)
Lemma run_answer r : ∀ k prev s rest,
  run r k prev s = Some rest → ∃ prev' s', k prev' s' = Some rest.
Proof.
  induction r as [c|p|p|p|r1 IH1 r2 IH2|r1 IH1 r2 IH2|r IH| |]; intros k prev s rest; cbn.
  - destruct s as [|x s]; [done|]. destruct (_ =? _)%N; [eauto|done].
  - destruct s as [|x s]; [done|]. destruct (in_cls p x); [eauto|done].
  - apply star_answer.
  - destruct s as [|x s]; [done|]. destruct (in_cls p x); [apply star_answer|done].
  - intros H. apply IH1 in H as (p1 & s1 & H). by apply IH2 in H.
  - destruct (run r1 k prev s) as [r|] eqn:H1; [|by apply IH2].
    intros [= ->]. by apply IH1 in H1.
  - destruct (run r k prev s) as [r'|] eqn:H1; [|eauto].
    intros [= ->]. by apply IH in H1.
  - destruct (xorb _ _); [eauto|done].
  - destruct s; [eauto|done].
Qed.

(** A pattern is anchored when it can only succeed at the end of the input:
    its continuation is answered there and nowhere else. *)
Definition anchored (r : regex) : Prop :=
  ∀ k prev s rest, run r k prev s = Some rest → ∃ prev', k prev' [] = Some rest.

Lemma anchored_End : anchored End.
Proof. intros k prev [|x s] rest; cbn; [eauto|done]. Qed.

Lemma anchored_Seq r1 r2 : anchored r2 → anchored (Seq r1 r2).
Proof.
  intros H2 k prev s rest H. cbn in H.
  apply run_answer in H as (p1 & s1 & H). by apply H2 in H.
Qed.

Lemma match_here_anchored r prev s rest :
  anchored r → match_here r prev s = Some rest → rest = [].
Proof. intros Hr H. apply Hr in H as [p H]. by simplify_eq. Qed.

Lemma search_anchored r : anchored r → ∀ s prev i j rest,
  search r prev s i = Some (j, rest) → rest = [].
Proof.
  intros Hr. induction s as [|x s IH]; intros prev i j rest; cbn.
  - destruct (match_here r prev []) as [r'|] eqn:Hm; [|done].
    intros [= <- <-]. by eapply match_here_anchored.
  - destruct (match_here r prev (x :: s)) as [r'|] eqn:Hm.
    + intros [= <- <-]. by eapply match_here_anchored.
    + apply IH.
Qed.

(** Replacing the match of an anchored pattern by the empty string cuts the
    string off where the match starts. *)
Lemma replace_prefix r s : anchored r → replace r s `prefix_of` s.
Proof.
  intros Hr. unfold replace.
  destruct (search r None s 0) as [[j rest]|] eqn:Hs; [|done].
  apply (search_anchored r Hr) in Hs as ->. rewrite app_nil_r.
  exists (drop j s). by rewrite take_drop.
Qed.

Lemma replace_no_match r s : search r None s 0 = None → replace r s = s.
Proof. unfold replace. by intros ->. Qed.

End RegexFacts.

(** ** The title normalizer *)
Module TitleFacts.
Import Regex Title RegexFacts TrimFacts.

Lemma patterns_anchored : Forall anchored patterns.
Proof.
  repeat constructor;
    unfold dash_marker, paren_marker, ordinal_season, season_number, final_season,
      roman_numeral, bare_number; cbn [seqs];
    repeat apply anchored_Seq; apply anchored_End.
Qed.

Lemma strip_all_prefix rs : Forall anchored rs → ∀ s,
  List.fold_left (fun s r => replace r s) rs s `prefix_of` s.
Proof.
  induction 1 as [|r rs Hr _ IH]; intros s; cbn; [done|].
  etrans; [apply IH | by apply replace_prefix].
Qed.

Lemma strip_all_no_match rs s :
  Forall (fun r => search r None s 0 = None) rs →
  List.fold_left (fun s r => replace r s) rs s = s.
Proof.
  induction 1 as [|r rs Hr _ IH]; cbn; [done|].
  by rewrite replace_no_match.
Qed.

(** The result is a trimmed string: [trim] leaves it as it is. *)
Lemma normalizeBaseTitle_trimmed x :
  JsString.trim (normalizeBaseTitle x) = normalizeBaseTitle x ∧
  normalizeBaseTitle x `prefix_of` JsString.trim x.
Proof.
  unfold normalizeBaseTitle.
  set (t := JsString.trim x).
  set (z := List.fold_left (fun s r => replace r s) patterns t).
  assert (Ht : no_leading_space t).
  { unfold t, JsString.trim.
    eapply prefix_no_leading_space; [apply trimEnd_prefix | apply trimStart_no_leading_space]. }
  assert (Hzt : z `prefix_of` t) by apply strip_all_prefix, patterns_anchored.
  assert (Hz : no_leading_space z) by by eapply prefix_no_leading_space.
  split.
  - assert (Htz : JsString.trim z = JsString.trimEnd z).
    { unfold JsString.trim. by rewrite trimStart_id. }
    rewrite Htz. by apply trim_trimEnd.
  - etrans; [by apply trim_prefix | done].
Qed.

(** C3, as the code has it.  [normalizeBaseTitle] is a function on all
    strings and maps the empty string to itself.  Its result is the input,
    trimmed, cut off at some point; so a second pass can only cut further,
    and it leaves the result as it is whenever none of the seven patterns
    matches it. *)
Theorem normalizeBaseTitle_cuts_a_suffix (x : jsstring) :
  let y := normalizeBaseTitle x in
  y `prefix_of` JsString.trim x ∧
  normalizeBaseTitle y `prefix_of` y ∧
  (Forall (fun r => search r None y 0 = None) patterns → normalizeBaseTitle y = y) ∧
  normalizeBaseTitle [] = [].
Proof.
  intros y.
  destruct (normalizeBaseTitle_trimmed x) as [Htrim Hpre].
  split; [done|]. split; [|split; [|reflexivity]].
  - destruct (normalizeBaseTitle_trimmed y) as [_ Hy]. fold y in Htrim. by rewrite Htrim in Hy.
  - intros Hnone. fold y in Htrim.
    unfold normalizeBaseTitle at 1. rewrite Htrim, strip_all_no_match by done. exact Htrim.
Qed.

(** The theorem at the title of the specification's scenario: the result
    matches none of the patterns, and a second pass returns it unchanged. *)
Lemma normalizeBaseTitle_cuts_a_suffix_witness :
  normalizeBaseTitle (js "Attack on Titan Final Season Part 2") = js "Attack on Titan" ∧
  normalizeBaseTitle (normalizeBaseTitle (js "Attack on Titan Final Season Part 2"))
    = normalizeBaseTitle (js "Attack on Titan Final Season Part 2").
Proof.
  split; [by vm_compute|].
  apply (normalizeBaseTitle_cuts_a_suffix (js "Attack on Titan Final Season Part 2")).
  repeat constructor; by vm_compute.
Defined.

(** C3, as stated, fails: a title with two trailing numbers loses one of
    them on each pass. *)
Lemma normalizeBaseTitle_not_idempotent :
  normalizeBaseTitle (js "Gundam Build Fighters 2 3") = js "Gundam Build Fighters 2" ∧
  normalizeBaseTitle (normalizeBaseTitle (js "Gundam Build Fighters 2 3"))
    = js "Gundam Build Fighters".
Proof. split; vm_compute; reflexivity. Qed.

End TitleFacts.

(** ** A request, end to end *)
Module RequestFacts.
Import AniList.

(** A whole request: AniList resolves the id, Anify lists provider B before
    provider A, and the episodes come back merged by preference. *)
Definition obj (fields : list (string * jsval)) : jsval :=
  JObj ((fun f => (js f.1, f.2)) <$> fields).

Definition anify_episode (n : Z) (id : string) : jsval :=
  obj [("id", JStr (js id)); ("number", JNum (JsNum.of_Z n))].

Definition two_providers (n : nat) (req : request) : outcome :=
  match req with
  | Post _ _ _ =>
      Responded 200
        (Ok (obj [("data", obj [("Media", obj [("id", JNum (JsNum.of_Z 21));
                                               ("idMal", JNum (JsNum.of_Z 21))])])]))
        40
  | Get _ =>
      Responded 200
        (Ok (JArr [obj [("providerId", JStr (js "zoro"));
                        ("episodes", JArr [anify_episode 2 "b2"; anify_episode 3 "b3"])];
                   obj [("providerId", JStr (js "gogoanime"));
                        ("episodes", JArr [anify_episode 1 "a1"; anify_episode 2 "a2"])]]))
        90
  end.

Lemma getEpisodes_merges_providers :
  (getEpisodes Decimal.StringToNumber Runtime.ToString Runtime.JSON_stringify Runtime.base64
     jsval two_providers (js " 21 ") JUndefined FetchFacts.fresh).1
  = respond
      (EpisodesBody
         [PreferenceFacts.out 1 "a1"; PreferenceFacts.out 2 "a2"; PreferenceFacts.out 3 "b3"]
         (Some {| page := JsNum.of_Z 1;
                  has_next_page := false;
                  last_visible_page := JsNum.of_Z 1;
                  items := {| count := JsNum.of_Z 3; total := 3; per_page := 24 |} |})).
Proof. vm_compute. reflexivity. Qed.

End RequestFacts.

(** ** Global replacement *)
Module ReplaceFacts.
Import ReplaceAll.

(** Skipping the characters of a match is searching on from its end. *)
Lemma replace_from_drop m r k s :
  replace_from m r k s = replace_from m r 0 (drop k s).
Proof.
  revert k. induction s as [|c s IH]; intros [|k]; cbn [replace_from drop]; done.
Qed.

Lemma replace_one_avoids p s :
  Forall (fun c => p c = false) (replace_all (one p) [] s).
Proof.
  unfold replace_all. induction s as [|c s IH]; cbn [replace_from one]; [done|].
  destruct (p c) eqn:Hc.
  - rewrite Nat.sub_diag. exact IH.
  - constructor; done.
Qed.

Lemma replace_one_id p r s :
  Forall (fun c => p c = false) s → replace_all (one p) r s = s.
Proof.
  unfold replace_all. induction 1 as [|c s Hc _ IH]; cbn [replace_from one]; [done|].
  rewrite Hc. by rewrite IH.
Qed.

Lemma replace_many_id p r s :
  Forall (fun c => p c = false) s → replace_all (many p) r s = s.
Proof.
  unfold replace_all. induction 1 as [|c s Hc _ IH]; cbn [replace_from many]; [done|].
  rewrite Hc. by rewrite IH.
Qed.

Lemma skip_suffix p s : ∃ k, skip p s = drop k s ∧ (k ≤ length s)%nat.
Proof.
  induction s as [|c s [k [IH Hk]]]; cbn [skip].
  - by exists 0%nat.
  - destruct (p c).
    + exists (S k). cbn. split; [done | lia].
    + exists 0%nat. cbn. split; [done | lia].
Qed.

Lemma skip_head p s : match skip p s with c :: _ => p c = false | [] => True end.
Proof.
  induction s as [|c s IH]; cbn [skip]; [done|].
  destruct (p c) eqn:Hc; [exact IH | exact Hc].
Qed.

(** Replacing every run of a class leaves no character of the class, when
    the replacement has none. *)
Lemma replace_many_avoids p r s :
  Forall (fun c => p c = false) r →
  Forall (fun c => p c = false) (replace_all (many p) r s).
Proof.
  intros Hr. unfold replace_all.
  remember (length s) as n eqn:Hn.
  assert (Hle : (length s ≤ n)%nat) by lia. clear Hn.
  revert s Hle. induction n as [|n IH]; intros [|c s] Hle; cbn in Hle;
    cbn [replace_from many]; try done; try lia.
  destruct (p c) eqn:Hc.
  - apply Forall_app. split; [done|].
    rewrite replace_from_drop. apply IH. rewrite length_drop. lia.
  - constructor; [done|]. apply IH. lia.
Qed.

End ReplaceFacts.

(** ** [slugify] *)
Module SlugFacts.
Import JsString ReplaceAll JikanRoutes.

Lemma slug_char_range c : is_slug_char c = true → (45 ≤ c ≤ 122)%N.
Proof.
  unfold is_slug_char.
  rewrite !orb_true_iff, !andb_true_iff, !N.leb_le, N.eqb_eq. lia.
Qed.

(** A fact of the characters of the class, checked on each of them. *)
Lemma on_slug_chars (p : N → bool) :
  forallb (fun c => implb (is_slug_char c) (p c)) (N.of_nat <$> seq 45 78) = true →
  ∀ c, is_slug_char c = true → p c = true.
Proof.
  intros Hall c Hc. pose proof (slug_char_range c Hc) as Hr.
  rewrite forallb_forall in Hall. specialize (Hall c). rewrite Hc in Hall.
  apply Hall. apply in_map_iff. exists (N.to_nat c). split; [lia|].
  apply in_seq. lia.
Qed.

Lemma slug_char_no_space c : is_slug_char c = true → is_space c = false.
Proof.
  intros Hc. apply negb_true_iff.
  revert c Hc. apply on_slug_chars. vm_compute. reflexivity.
Qed.

Lemma slug_char_no_punctuation c : is_slug_char c = true → is_punctuation c = false.
Proof.
  intros Hc. apply negb_true_iff.
  revert c Hc. apply (on_slug_chars (fun c => negb (is_punctuation c))).
  vm_compute. reflexivity.
Qed.

Lemma trimEnd_id s : Forall (fun c => is_space c = false) s → trimEnd s = s.
Proof.
  induction 1 as [|c s Hc _ IH]; [done|].
  rewrite TrimFacts.trimEnd_cons, IH, Hc. by destruct s.
Qed.

Lemma trim_id s : Forall (fun c => is_space c = false) s → trim s = s.
Proof.
  intros Hs. unfold trim. rewrite TrimFacts.trimStart_id.
  - by apply trimEnd_id.
  - destruct Hs; [done|]. done.
Qed.

Lemma lower_slug s :
  Forall (fun c => is_slug_char c = true) s → Latin.toLowerCase s = s.
Proof.
  unfold Latin.toLowerCase. induction 1 as [|c s Hc _ IH]; [done|].
  cbn [fmap list_fmap]. f_equal; [|exact IH].
  apply N.eqb_eq. revert c Hc.
  apply (on_slug_chars (fun c => (Latin.lower c =? c)%N)). vm_compute. reflexivity.
Qed.

Section Slug.
Variable ToString : jsval → jsstring.
Variable toLowerCase : jsstring → jsstring.

(** X6.  A slug is made of lower-case Basic Latin letters, digits and
    hyphens only, whatever the title it is made from and whatever the
    built-ins print: it has no white space, no punctuation and no letter
    that needs escaping in the path of a URL. *)
Theorem slugify_alphabet (input : jsval) :
  Forall (fun c => is_slug_char c = true) (slugify ToString toLowerCase input).
Proof.
  unfold slugify.
  eapply Forall_impl; [apply ReplaceFacts.replace_one_avoids|].
  intros c. cbn. by rewrite negb_false_iff.
Qed.

(** X7.  A slug is its own slug: [slugify] applied to a string it returned
    gives the string back, when [String] of a string is that string and
    [toLowerCase] leaves a string of lower-case letters, digits and hyphens
    as it is. *)
Theorem slugify_stable (input : jsval)
    (HString : ∀ s, ToString (JStr s) = s)
    (HLower : ∀ s, Forall (fun c => is_slug_char c = true) s → toLowerCase s = s) :
  slugify ToString toLowerCase (JStr (slugify ToString toLowerCase input))
  = slugify ToString toLowerCase input.
Proof.
  pose proof (slugify_alphabet input) as Hs.
  set (t := slugify ToString toLowerCase input) in *.
  unfold slugify at 1.
  assert (ToString (or_val (JStr t) (JStr [])) = t) as ->.
  { unfold or_val. cbn. destruct t; apply HString. }
  rewrite HLower by done.
  rewrite trim_id by (eapply Forall_impl; [exact Hs | apply slug_char_no_space]).
  rewrite (ReplaceFacts.replace_many_id is_punctuation)
    by (eapply Forall_impl; [exact Hs | apply slug_char_no_punctuation]).
  rewrite (ReplaceFacts.replace_many_id is_space)
    by (eapply Forall_impl; [exact Hs | apply slug_char_no_space]).
  apply ReplaceFacts.replace_one_id.
  eapply Forall_impl; [exact Hs|]. intros c Hc. cbn. by rewrite Hc.
Qed.
End Slug.

Lemma slugify_stable_witness :
  slugify Runtime.ToString Latin.toLowerCase (JStr (js "Attack on Titan: The Final Season (Part 2)"))
  = js "attack-on-titan-the-final-season-part-2"
  ∧ slugify Runtime.ToString Latin.toLowerCase
      (JStr (slugify Runtime.ToString Latin.toLowerCase
               (JStr (js "Attack on Titan: The Final Season (Part 2)"))))
    = slugify Runtime.ToString Latin.toLowerCase
        (JStr (js "Attack on Titan: The Final Season (Part 2)")).
Proof.
  split; [vm_compute; reflexivity|].
  apply (slugify_stable Runtime.ToString Latin.toLowerCase
           (JStr (js "Attack on Titan: The Final Season (Part 2)"))).
  - reflexivity.
  - apply lower_slug.
Defined.

End SlugFacts.

(** ** The episodes route of the Jikan generation *)
Module EpisodesFacts.
Import Jikan JikanRoutes.

Lemma M_bind_run {A B} (m : M A) (k : A → M B) w :
  (m ≫= k) w = match m w with
               | (Ok a, w') => k a w'
               | (Throw e, w') => (Throw e, w')
               end.
Proof. reflexivity. Qed.

Section Upstream.
Variable upstream : nat → request → outcome.

Lemma fetch_with_timeout_world t req w :
  ∃ r elapsed, fetch_with_timeout upstream t req w = (r, after w elapsed).
Proof.
  unfold fetch_with_timeout, fetch.
  destruct (_ >? _); [by eauto|].
  destruct (upstream _ _); by eauto.
Qed.

Lemma settle_world status body w :
  ∃ r, settle status body w = (r, w)
       ∧ ∀ f, r = Ok f → f_status f = status ∧ f_ok f = ok_status status.
Proof.
  unfold settle. destruct (ok_status status) eqn:Hs; cbn.
  - rewrite M_bind_run. unfold lift. destruct body as [j|e]; cbn.
    + eexists. split; [done|]. by intros f [= <-].
    + eexists. split; [done|]. by intros f [=].
  - eexists. split; [done|]. by intros f [= <-].
Qed.

(** X4.  The helper [fetchJson] of the Jikan episodes route never touches the
    cache and makes at least one and at most [retries + 1] requests; what it
    returns says [ok] exactly for a 2xx status, and a 429 is returned only
    once every retry was used. *)
Theorem fetchJson_attempts (url : list jsval) (timeoutMs : Z) (retries : nat) (w : world) :
  let '(r, w') := fetchJson upstream url timeoutMs retries w in
  cache w' = cache w
  ∧ (calls w < calls w' ≤ calls w + retries + 1)%nat
  ∧ ∀ f, r = Ok f →
      f_ok f = ok_status (f_status f)
      ∧ (f_status f = 429 → calls w' = (calls w + retries + 1)%nat).
Proof.
  revert w. induction retries as [|n IH]; intros w; cbn [fetchJson]; rewrite M_bind_run;
    destruct (fetch_with_timeout_world timeoutMs (Get url) w) as (r & t & ->);
    (destruct r as [[status body]|e]; [|cbn; split; [done|split; [lia|done]]]).
  - destruct (settle_world status body (after w t)) as (r & -> & Hr). cbn.
    split; [done|]. split; [lia|]. intros f Hf. destruct (Hr f Hf) as [-> ->].
    split; [done|]. lia.
  - destruct (status =? 429) eqn:H429.
    + rewrite M_bind_run. unfold backoff at 1. cbn [after cache clock calls].
      specialize (IH {| cache := cache w; clock := clock w + t + 500; calls := S (calls w) |}).
      destruct (fetchJson _ _ _ _ _) as [r w'].
      cbn [cache calls] in IH. destruct IH as (Hc & Hn & Hf).
      split; [done|]. split; [lia|]. intros f Hr. destruct (Hf f Hr) as [Hok H].
      split; [done|]. intros Hs. specialize (H Hs). lia.
    + destruct (settle_world status body (after w t)) as (r & -> & Hr). cbn.
      split; [done|]. split; [lia|]. intros f Hf. destruct (Hr f Hf) as [-> ->].
      split; [done|]. lia.
Qed.

(** The route stored [r] under [key] at [now], and [r] is a 200. *)
Definition stored (key : jsstring) (now : Z) (r : reply) (w : world) : Prop :=
  code r = 200 ∧ cache w !! key = Some {| Cache.at_ := now; Cache.data := sent r |}.

Variable StringToNumber : jsstring → JsNum.num.
Variable ToString : jsval → jsstring.
Variable toLowerCase : jsstring → jsstring.

Ltac run_fetchJson w1 Hcache Hcalls :=
  match goal with
  | |- context [fetchJson upstream ?url ?t ?n ?w] =>
      let H := fresh in
      let r := fresh "r" in
      pose proof (fetchJson_attempts url t n w) as H;
      destruct (fetchJson upstream url t n w) as [r w1];
      destruct H as (Hcache & Hcalls & _)
  end.

Lemma try_providers_run id page key now slug providers : ∀ w,
  let '(res, w') :=
    try_providers StringToNumber ToString upstream id page key now slug providers w in
  (calls w' ≤ calls w + length providers)%nat
  ∧ match res with
    | Ok (Some r) => stored key now r w'
    | Ok None => cache w' = cache w
    | Throw _ => True
    end.
Proof.
  induction providers as [|p ps IH]; intros w; cbn [try_providers length].
  - cbn. split; [lia | done].
  - rewrite M_bind_run. run_fetchJson w1 Hcache Hcalls.
    destruct r as [c|e]; [|split; [lia | done]].
    assert (Hnext :
      let '(res, w') :=
        try_providers StringToNumber ToString upstream id page key now slug ps w1 in
      (calls w' ≤ calls w + S (length ps))%nat
      ∧ match res with
        | Ok (Some r) => stored key now r w'
        | Ok None => cache w' = cache w
        | Throw _ => True
        end).
    { specialize (IH w1). destruct (try_providers _ _ _ _ _ _ _ _ _ _) as [res w'].
      destruct IH as [Hn Hres]. split; [lia|].
      destruct res as [[r|]|]; [done | congruence | done]. }
    generalize (or_val (opt_prop (f_json c) "episodes")
                  (or_val (opt_prop (opt_prop (f_json c) "data") "episodes")
                     (or_val (opt_prop (f_json c) "results") JNull))).
    intros arr. cbv zeta.
    destruct (f_ok c); [|by destruct arr as [| | | | |[|? ?]|]].
    destruct arr as [| | | | |[|item items]|]; try exact Hnext.
    rewrite M_bind_run. unfold lift.
    destruct (mapM _ _) as [episodes|e]; [|split; [lia | done]].
    rewrite M_bind_run. unfold store. cbn [mret M_ret calls cache].
    split; [lia|]. split; [done|]. apply lookup_insert_eq.
Qed.

Lemma primary_run id page key now w :
  let '(res, w') := primary StringToNumber ToString upstream id page key now w in
  (calls w' ≤ calls w + 2)%nat
  ∧ match res with
    | Ok (Some r) => stored key now r w'
    | _ => True
    end.
Proof.
  unfold primary. rewrite M_bind_run. run_fetchJson w1 Hcache Hcalls.
  destruct r as [c|e]; [|split; [lia | done]].
  destruct (f_ok c); [|cbn; split; [lia | done]].
  rewrite M_bind_run. unfold lift.
  destruct (primary_episodes _ _ _ _) as [episodes|e]; [|split; [lia | done]].
  rewrite M_bind_run. unfold store. cbn [mret M_ret calls cache].
  split; [lia|]. destruct episodes; [done|].
  split; [done|]. apply lookup_insert_eq.
Qed.

Lemma fallback_run id page key now w :
  let '(res, w') :=
    fallback StringToNumber ToString toLowerCase upstream id page key now w in
  (calls w' ≤ calls w + 5)%nat
  ∧ match res with
    | Ok r => stored key now r w'
    | Throw _ => True
    end.
Proof.
  unfold fallback. rewrite M_bind_run. run_fetchJson w1 Hcache Hcalls.
  destruct r as [infoRes|e]; [|split; [lia | done]].
  cbv zeta. rewrite M_bind_run.
  match goal with |- context [if truthy ?t then _ else _] => destruct (truthy t) end.
  - rewrite M_bind_run. unfold lift at 1.
    destruct (slugified _ _ _) as [slug|e]; [|split; [lia | done]].
    pose proof (try_providers_run id page key now slug
                  ["gogoanime"; "zoro"; "animepahe"] w1) as H.
    destruct (try_providers _ _ _ _ _ _ _ _ _ _) as [res w2].
    destruct H as [Hn Hres]. cbn [length] in Hn.
    destruct res as [[r|]|e]; [split; [lia | done] | | split; [lia | done]].
    rewrite M_bind_run. unfold store. cbn [mret M_ret calls cache].
    split; [lia|]. split; [done|]. apply lookup_insert_eq.
  - unfold mret at 1, M_ret at 1. cbv beta iota.
    rewrite M_bind_run. unfold store. cbn [mret M_ret calls cache].
    split; [lia|]. split; [done|]. apply lookup_insert_eq.
Qed.

(** What a run of the route does, by whether the page converts and whether
    the cache answers. *)
Lemma getEpisodes_run id query_page w :
  let key := cacheKey ToString id (effective_page StringToNumber query_page) in
  let '(r, w') :=
    getEpisodes StringToNumber ToString toLowerCase upstream id query_page w in
  if printable query_page then
    match cached_payload (cache w) (clock w) key with
    | Some data => r = send data ∧ w' = w
    | None =>
        (calls w' ≤ calls w + 7)%nat
        ∧ (code r = 500 ∨ stored key (clock w) r w')
    end
  else code r = 500 ∧ w' = w.
Proof.
  cbv zeta. unfold getEpisodes, handle, requested_page.
  destruct (printable query_page); [|done].
  rewrite M_bind_run. unfold lift at 1.
  rewrite M_bind_run. unfold date_now at 1.
  rewrite M_bind_run. unfold read_cached at 1.
  destruct (cached_payload _ _ _) as [data|]; [done|].
  rewrite M_bind_run.
  pose proof (primary_run id (effective_page StringToNumber query_page)
                (cacheKey ToString id (effective_page StringToNumber query_page))
                (clock w) w) as H.
  destruct (primary _ _ _ _ _ _ _ _) as [res w1]. destruct H as [Hn Hres].
  destruct res as [[r|]|e]; [split; [lia | by right] | | split; [lia | by left]].
  pose proof (fallback_run id (effective_page StringToNumber query_page)
                (cacheKey ToString id (effective_page StringToNumber query_page))
                (clock w) w1) as H.
  destruct (fallback _ _ _ _ _ _ _ _ _) as [res w2]. destruct H as [Hn2 Hres2].
  destruct res as [r|e]; [split; [lia | by right] | split; [lia | by left]].
Qed.

(** X8.  One request for episodes costs at most seven upstream requests:
    two for the primary source and two for the title, a 429 being retried
    once, and one for each of the three fallback providers. *)
Theorem getEpisodes_upstream_budget (id : jsstring) (query_page : jsval) (w : world) :
  let '(_, w') :=
    getEpisodes StringToNumber ToString toLowerCase upstream id query_page w in
  (calls w' ≤ calls w + 7)%nat.
Proof.
  pose proof (getEpisodes_run id query_page w) as H. cbv zeta in H.
  destruct (getEpisodes _ _ _ _ _ _ _) as [r w'].
  destruct (printable query_page); [|destruct H as [_ ->]; lia].
  destruct (cached_payload _ _ _); [|by destruct H].
  destruct H as [_ ->]. lia.
Qed.

(** X9.  Whatever the upstream does, the route answers 500 or 200, and
    what it sends with a 200 is what the cache holds for the request's key
    once the route is done: the episodes of the primary source, those of a
    fallback provider, or the empty list. *)
Theorem getEpisodes_answer_is_cached (id : jsstring) (query_page : jsval) (w : world) :
  let '(r, w') :=
    getEpisodes StringToNumber ToString toLowerCase upstream id query_page w in
  code r = 500
  ∨ code r = 200
    ∧ ∃ e, cache w' !! cacheKey ToString id (effective_page StringToNumber query_page)
             = Some e
           ∧ Cache.data e = sent r.
Proof.
  pose proof (getEpisodes_run id query_page w) as H. cbv zeta in H.
  destruct (getEpisodes _ _ _ _ _ _ _) as [r w'].
  destruct (printable query_page); [|by left; destruct H].
  destruct (cached_payload _ _ _) as [data|] eqn:Hhit.
  - destruct H as [-> ->]. right. split; [done|].
    unfold cached_payload in Hhit.
    destruct (cache w !! _) as [e|]; [|done]. exists e. split; [done|].
    destruct (_ <? _); by simplify_eq.
  - destruct H as [_ [H|[Hcode Hstored]]]; [by left|]. right. split; [done|]. eauto.
Qed.
End Upstream.

(** X10.  A 200 answer is replayed.  When a request missed the cache and was
    answered with a 200, a request for the same id and page that starts less
    than three minutes after the first one started, with the entry still in
    the cache, gets the same answer, and the route asks no upstream for it
    and leaves the cache alone, whatever the upstream would answer by
    then. *)
Theorem getEpisodes_replays
    (StringToNumber : jsstring → JsNum.num) (ToString : jsval → jsstring)
    (toLowerCase : jsstring → jsstring) (upstream later : nat → request → outcome)
    (id : jsstring) (query_page : jsval) (w w1 w2 : world) (r : reply)
    (Hmiss : cached_payload (cache w) (clock w)
               (cacheKey ToString id (effective_page StringToNumber query_page)) = None)
    (Hrun : getEpisodes StringToNumber ToString toLowerCase upstream id query_page w
            = (r, w1))
    (Hcode : code r = 200)
    (Hkept : cache w2 !! cacheKey ToString id (effective_page StringToNumber query_page)
             = cache w1 !! cacheKey ToString id (effective_page StringToNumber query_page))
    (Hsoon : clock w2 - clock w < EPISODES_TTL_MS) :
  getEpisodes StringToNumber ToString toLowerCase later id query_page w2 = (r, w2).
Proof.
  pose proof (getEpisodes_run upstream StringToNumber ToString toLowerCase
                id query_page w) as H1.
  cbv zeta in H1. rewrite Hrun in H1.
  destruct (printable query_page) eqn:Hpage;
    [|destruct H1 as [H _]; rewrite Hcode in H; done].
  rewrite Hmiss in H1.
  destruct H1 as [_ [H|[_ Hstored]]]; [rewrite Hcode in H; done|].
  pose proof (getEpisodes_run later StringToNumber ToString toLowerCase
                id query_page w2) as H2.
  cbv zeta in H2. rewrite Hpage in H2.
  destruct (getEpisodes _ _ _ later _ _ _) as [r2 w2'].
  unfold cached_payload in H2 at 1. rewrite Hkept, Hstored in H2.
  cbn [Cache.at_ Cache.data] in H2.
  destruct (clock w2 - clock w <? EPISODES_TTL_MS) eqn:Hlt; [|lia].
  destruct H2 as [-> ->]. f_equal. destruct r as [c s]. cbn in *. by subst.
Qed.

Definition episode_list : jsval :=
  JObj [(js "data",
         JArr [JObj [(js "mal_id", JNum (JsNum.of_Z 11)); (js "episode", JNum (JsNum.of_Z 1));
                     (js "title", JStr (js "To You, in 2000 Years"))];
               JObj [(js "mal_id", JNum (JsNum.of_Z 12)); (js "episode", JNum (JsNum.of_Z 2));
                     (js "title", JStr (js "That Day"))]]);
        (js "pagination", JObj [(js "last_visible_page", JNum (JsNum.of_Z 1))])].

Definition answering : nat → request → outcome :=
  fun _ _ => Responded 200 (Ok episode_list) 120.

Definition refusing : nat → request → outcome :=
  fun _ _ => Rejected (Thrown (JStr (js "fetch failed"))) 3.

Definition morning : world := {| cache := ∅; clock := 1000; calls := 0 |}.

Definition first_run : reply * world :=
  getEpisodes Decimal.StringToNumber Runtime.ToString Latin.toLowerCase answering
    (js "16498") JUndefined morning.

Definition a_minute_later : world :=
  {| cache := cache first_run.2; clock := 61000; calls := calls first_run.2 |}.

Lemma getEpisodes_replays_witness :
  code first_run.1 = 200
  ∧ calls first_run.2 = 1%nat
  ∧ getEpisodes Decimal.StringToNumber Runtime.ToString Latin.toLowerCase
      refusing (js "16498") JUndefined a_minute_later
    = (first_run.1, a_minute_later).
Proof.
  split; [vm_compute; reflexivity|]. split; [vm_compute; reflexivity|].
  apply (getEpisodes_replays Decimal.StringToNumber Runtime.ToString Latin.toLowerCase
           answering refusing (js "16498") JUndefined morning first_run.2).
  - vm_compute. reflexivity.
  - unfold first_run. by destruct (getEpisodes _ _ _ _ _ _ _).
  - vm_compute. reflexivity.
  - reflexivity.
  - vm_compute. reflexivity.
Defined.
End EpisodesFacts.

(** ** The streaming route of the AniList generation *)
Module StreamingFacts.
Import AniList Streaming.



Section Routes.
Variable StringToNumber : jsstring → JsNum.num.
Variable ToString : jsval → jsstring.
Variable JSON_stringify : jsval → jsstring.
Variable base64 : jsstring → jsstring.
Variable upstream : nat → request → outcome.

(** The links the turn of the loop for [prov] pushes when its request to
    [/sources], if it makes one, is the request number [n] of the process. *)
Definition offered (n : nat) (anime : jsval) (epNum : JsNum.num) (subType : jsstring)
    (prov : jsval) : list link :=
  match wanted StringToNumber ToString anime epNum subType prov with
  | Ok (Some (providerId, url)) =>
      collect providerId (FetchFacts.read 10000 (upstream n (Get url)))
  | _ => []
  end.

(** [links] is what the loop over [providers] leaves: every provider before
    some [prov] had no link when its turn came and [links] are the links of
    [prov], with nothing of a later provider; or no provider had a link. *)
Definition chosen (anime : jsval) (epNum : JsNum.num) (subType : jsstring)
    (providers : list jsval) (links : list link) : Prop :=
  let nothing prov := ∃ n, offered n anime epNum subType prov = [] in
  (links = [] ∧ Forall nothing providers)
  ∨ ∃ skipped prov rest n,
      providers = skipped ++ prov :: rest
      ∧ Forall nothing skipped
      ∧ links = offered n anime epNum subType prov
      ∧ links ≠ [].








(** The providers the loop goes over, in its order: the sorted answer of
    Anify to the request number [n] (lines 397-402). *)
Definition listed (n : nat) (anime : jsval) : list jsval :=
  sort by_preference
    (match FetchFacts.read 8000
             (upstream n (Get [JStr (js ANIFY_BASE); JStr (js "/episodes/"); anime])) with
     | JArr provs => provs
     | _ => []
     end).

End Routes.




End StreamingFacts.

(** ** The client's reading of the episodes endpoint *)
Module ClientFacts.
Import Client.

Lemma mapM_result_Forall {A B} (f : A → result B) (P : B → Prop) (l : list A) :
  (∀ a b, f a = Ok b → P b) →
  ∀ bs, mapM f l = Ok bs → Forall P bs.
Proof.
  intros Hf. induction l as [|a l IH]; intros bs; cbn [mapM].
  - intros [= <-]. constructor.
  - destruct (f a) as [b|e] eqn:Hb; [|done]. rewrite result_bind_ok.
    destruct (mapM f l) as [bs'|e]; [|done]. rewrite result_bind_ok.
    intros [= <-]. constructor; [by eapply Hf | by apply IH].
Qed.

Lemma position_positive (idx : nat) :
  JsNum.gtb (JsNum.of_nat (idx + 1)) (JsNum.of_Z 0) = true.
Proof.
  unfold JsNum.gtb, JsNum.of_nat, JsNum.of_Z. apply JsNumFacts.ltb_Fin.
  rewrite <- Zlt_Qlt. lia.
Qed.

(** The property [last_visible_page] is among the fields. *)
Definition has_last_visible_page (fields : list (jsstring * jsval)) : Prop :=
  ∃ v, (js "last_visible_page", v) ∈ fields.

Lemma with_last_visible_page_has fields last :
  has_last_visible_page (with_last_visible_page fields last).
Proof.
  induction fields as [|[k v] fields [x IH]]; cbn [with_last_visible_page].
  - exists last. apply list_elem_of_here.
  - case_bool_decide as Hk.
    + exists last. rewrite Hk. apply list_elem_of_here.
    + exists x. by apply list_elem_of_further.
Qed.

Section Client.
Variable StringToNumber : jsstring → JsNum.num.
Variable ToString : jsval → jsstring.
Variable upstream : nat → request → outcome.

(** What the page can rely on in an [EpisodesResponse]. *)
Definition well_formed (r : EpisodesResponse) : Prop :=
  Forall (fun e => JsNum.gtb (number e) (JsNum.of_Z 0) = true) (episodes r)
  ∧ (pagination r = JNull
     ∨ ∃ fields, pagination r = JObj fields ∧ has_last_visible_page fields).

Lemma normalize_episode_positive idx ep e :
  normalize_episode StringToNumber ToString idx ep = Ok e →
  JsNum.gtb (number e) (JsNum.of_Z 0) = true.
Proof.
  unfold normalize_episode. destruct (prop ep "number") as [first|]; [|done].
  rewrite result_bind_ok. cbv zeta.
  generalize (number_or_zero StringToNumber
                (coalesce first
                   (coalesce (opt_prop ep "episode")
                      (coalesce (opt_prop ep "episode_number")
                         (coalesce (opt_prop ep "ep")
                            (coalesce (opt_prop ep "ep_num") JNull)))))).
  intros [n|]; [|done]. rewrite result_bind_ok. cbv zeta.
  destruct (to_string ToString _) as [printed|]; [|done]. rewrite result_bind_ok.
  destruct (JsNum.gtb n (JsNum.of_Z 0)) eqn:Hn; intros [= <-].
  - exact Hn.
  - apply position_positive.
Qed.

Lemma normalizeEpisodesResponse_well_formed data r :
  normalizeEpisodesResponse StringToNumber ToString data = Ok r → well_formed r.
Proof.
  unfold normalizeEpisodesResponse.
  destruct (prop data "episodes") as [listed|]; [|done]. rewrite result_bind_ok. cbv zeta.
  match goal with
  | |- context [match ?b with JArr items => map_indexed _ items | _ => _ end] =>
      destruct b as [| | | | |items|]; try done
  end.
  destruct (map_indexed _ items) as [eps|] eqn:Heps; [|done]. rewrite result_bind_ok.
  assert (Forall (fun e => JsNum.gtb (number e) (JsNum.of_Z 0) = true) eps) as Hpos.
  { unfold map_indexed in Heps. eapply mapM_result_Forall; [|exact Heps].
    intros [idx ep] e. apply normalize_episode_positive. }
  destruct (or_val (opt_prop data "pagination") _) as [| | | | |items'|fields];
    intros [= <-]; (split; [exact Hpos|]); try (by left); right; eexists;
    (split; [reflexivity | apply with_last_visible_page_has]).
Qed.

(** X12.  Whatever the endpoint answers, and also when it does not, the
    client has a response it can render: every episode has a number above 0,
    the one the server sent or else its position in the list, and the
    pagination is [null] or an object with a [last_visible_page]. *)
Theorem fetchEpisodes_well_formed (id page : JsNum.num) (w : world) :
  well_formed (fetchEpisodes StringToNumber ToString upstream id page w).1.
Proof.
  assert (well_formed {| episodes := []; pagination := JNull |}) as Hnothing.
  { split; [constructor | by left]. }
  unfold fetchEpisodes. cbv zeta. rewrite EpisodesFacts.M_bind_run.
  unfold fetch. destruct (upstream _ _) as [e t|status body t]; [done|].
  destruct (ok_status status); [|done].
  rewrite EpisodesFacts.M_bind_run. unfold lift.
  destruct body as [data|e]; [|done].
  rewrite EpisodesFacts.M_bind_run.
  destruct (normalizeEpisodesResponse _ _ data) as [r|e] eqn:Hr; [|done].
  by eapply normalizeEpisodesResponse_well_formed.
Qed.
End Client.
End ClientFacts.

(** ** The pages of the episode list *)
Module PageFacts.
Import AniList.

Lemma sub_of_Z (a b : Z) : JsNum.sub (JsNum.of_Z a) (JsNum.of_Z b) = JsNum.of_Z (a - b).
Proof. unfold JsNum.sub, JsNum.of_Z, inject_Z, Qminus, Qplus, Qopp. cbn. do 2 f_equal. lia. Qed.

Lemma add_of_Z (a b : Z) : JsNum.add (JsNum.of_Z a) (JsNum.of_Z b) = JsNum.of_Z (a + b).
Proof. unfold JsNum.add, JsNum.of_Z, inject_Z, Qplus. cbn. do 2 f_equal. lia. Qed.

Lemma mul_of_Z (a b : Z) : JsNum.mul (JsNum.of_Z a) (JsNum.of_Z b) = JsNum.of_Z (a * b).
Proof. reflexivity. Qed.

Lemma min_of_Z (a b : Z) : JsNum.min (JsNum.of_Z a) (JsNum.of_Z b) = JsNum.of_Z (Z.min a b).
Proof.
  unfold JsNum.min, JsNum.of_Z, JsNum.ltb, Qle_bool. cbn. rewrite !Z.mul_1_r.
  destruct (Z.leb_spec a b); cbn; f_equal; f_equal; lia.
Qed.

Lemma slice_index_of_Z (len : nat) (a : Z) :
  0 ≤ a → JsNum.slice_index len (JsNum.of_Z a) = Nat.min (Z.to_nat a) len.
Proof.
  intros Ha. unfold JsNum.slice_index, JsNum.of_Z, inject_Z. cbn [Qnum Qden].
  rewrite Z.quot_1_r. destruct (Z.ltb_spec a 0); [lia | done].
Qed.

(** [list.slice(start, start + size)] is the block of [size] elements that
    begins at [start]. *)
Lemma slice_block {A} (l : list A) (start size : nat) :
  slice l (JsNum.of_Z (Z.of_nat start)) (JsNum.of_Z (Z.of_nat (start + size)))
  = take size (drop start l).
Proof.
  unfold slice. rewrite !slice_index_of_Z, !Nat2Z.id by lia.
  destruct (Nat.le_gt_cases (length l) start) as [Hout|Hin].
  - rewrite !Nat.min_r by lia. rewrite Nat.sub_diag, !drop_ge by lia. by destruct size.
  - rewrite (Nat.min_l start) by lia.
    destruct (Nat.le_gt_cases (start + size) (length l)) as [Hfull|Hshort].
    + rewrite Nat.min_l by lia. f_equal. lia.
    + rewrite Nat.min_r by lia. rewrite !take_ge; [done | |]; rewrite length_drop; lia.
Qed.

(** The blocks of [size] elements of a list, one after the other, are the
    list. *)
Lemma blocks_concat {A} (l : list A) (size pages : nat) :
  concat ((fun k => take size (drop (size * k) l)) <$> seq 0 pages) = take (size * pages) l.
Proof.
  induction pages as [|m IH].
  - by rewrite Nat.mul_0_r.
  - rewrite seq_S, fmap_app, concat_app, IH. cbn [fmap list_fmap concat Nat.add].
    rewrite app_nil_r, take_take_drop. f_equal. lia.
Qed.

Section Pages.
Variable StringToNumber : jsstring → JsNum.num.

Lemma page_start (k : nat) :
  JsNum.mul (JsNum.sub (JsNum.of_nat (k + 1)) (JsNum.of_Z 1)) (JsNum.of_Z perPage)
  = JsNum.of_Z (Z.of_nat (24 * k)).
Proof. unfold JsNum.of_nat, perPage. rewrite sub_of_Z, mul_of_Z. f_equal. lia. Qed.

Lemma page_is_block (anime : jsval) (providers : list provider) (k : nat) :
  (episodes_page StringToNumber anime providers (JsNum.of_nat (k + 1))).1
  = take 24 (drop (24 * k) (reconcile StringToNumber anime providers)).
Proof.
  unfold episodes_page. cbn [fst]. rewrite page_start.
  assert (Hend :
    JsNum.add (JsNum.of_Z (Z.of_nat (24 * k))) (JsNum.of_Z perPage)
    = JsNum.of_Z (Z.of_nat (24 * k + 24))).
  { unfold perPage. rewrite add_of_Z. f_equal. lia. }
  by rewrite Hend, slice_block.
Qed.

(** X13.  Page [k + 1] of the episodes route.  The list sent is the block of
    24 records after the first [24 * k] of the reconciled list;
    [items.count] is the length of what is sent; and [has_next_page] holds
    exactly when the list goes on after the block. *)
Theorem episodes_page_block (anime : jsval) (providers : list provider) (k : nat) :
  let list := reconcile StringToNumber anime providers in
  let page := episodes_page StringToNumber anime providers (JsNum.of_nat (k + 1)) in
  page.1 = take 24 (drop (24 * k) list)
  ∧ count (items page.2) = JsNum.of_nat (length page.1)
  ∧ has_next_page page.2 = bool_decide (24 * (k + 1) < length list)%nat.
Proof.
  intros list page. unfold page. rewrite page_is_block. fold list.
  split; [done|]. unfold episodes_page. cbn [snd]. fold list. split.
  - unfold pagination. cbn [items count]. rewrite page_start.
    unfold JsNum.of_nat, perPage.
    rewrite sub_of_Z, PagingFacts.max_of_Z, min_of_Z, length_take, length_drop.
    f_equal. lia.
  - unfold pagination. cbn [has_next_page]. unfold JsNum.of_nat at 2.
    rewrite PagingFacts.has_next_page_value.
    case_bool_decide; [apply Z.ltb_lt | apply Z.ltb_ge]; lia.
Qed.

(** X14.  Paging loses nothing and repeats nothing: the lists sent on the
    pages 1 to [last_visible_page], one after the other, are the reconciled
    list. *)
Theorem episodes_pages_cover (anime : jsval) (providers : list provider) (page : JsNum.num) :
  let list := reconcile StringToNumber anime providers in
  let pages := Z.to_nat (Z.max 1 ((Z.of_nat (length list) + 23) / 24)) in
  last_visible_page (episodes_page StringToNumber anime providers page).2
    = JsNum.of_nat pages
  ∧ concat ((fun k => (episodes_page StringToNumber anime providers (JsNum.of_nat (k + 1))).1)
              <$> seq 0 pages) = list.
Proof.
  intros list pages. split.
  - unfold episodes_page, pagination. cbn [snd last_visible_page]. fold list.
    rewrite PagingFacts.last_visible_page_value. unfold JsNum.of_nat, pages.
    f_equal. lia.
  - transitivity (concat ((fun k => take 24 (drop (24 * k) list)) <$> seq 0 pages)).
    + f_equal. apply list_fmap_ext. intros _ k _. apply page_is_block.
    + rewrite blocks_concat. apply take_ge. unfold pages.
      assert (Z.of_nat (length list) ≤ 24 * Z.max 1 ((Z.of_nat (length list) + 23) / 24)).
      { pose proof (Z.div_mod (Z.of_nat (length list) + 23) 24 ltac:(lia)).
        pose proof (Z.mod_pos_bound (Z.of_nat (length list) + 23) 24 ltac:(lia)). lia. }
      lia.
Qed.
End Pages.
End PageFacts.

(** ** The cache in front of AniList *)
Module GqlFacts.
Import AniList.

Section Gql.
Variable ToString : jsval → jsstring.
Variable JSON_stringify : jsval → jsstring.
Variable base64 : jsstring → jsstring.

(** The key [gql] files an answer under (line 42). *)
Definition key_of (query : jsstring) (variables : jsval) : jsstring :=
  js "gql:" ++ base64 query ++ js "::" ++ JSON_stringify variables.

(** X15.  An answer of AniList is replayed for five minutes.  When [gql]
    went upstream and returned data that is not falsy, the same query with
    the same variables, at most five minutes after the first call returned
    and with the entry still in the cache, returns the same data; [gql]
    makes no request for it and leaves the cache alone, whatever AniList
    would answer by then. *)
Theorem gql_replays (upstream later : nat → request → outcome)
    (query : jsstring) (variables : jsval) (w w1 w2 : world) (d : jsval)
    (Hmiss : truthy (Cache.getCached (cache w) (clock w) (key_of query variables)) = false)
    (Hrun : gql ToString JSON_stringify base64 upstream query variables w = (Ok d, w1))
    (Hdata : truthy d = true)
    (Hkept : cache w2 !! key_of query variables = cache w1 !! key_of query variables)
    (Hsoon : clock w2 - clock w1 ≤ Cache.TTL_MS) :
  gql ToString JSON_stringify base64 later query variables w2 = (Ok d, w2).
Proof.
  assert (cache w1 !! key_of query variables
          = Some {| Cache.at_ := clock w1; Cache.data := d |}) as Hstored.
  { revert Hrun. unfold gql. fold (key_of query variables).
    rewrite EpisodesFacts.M_bind_run. unfold getCached at 1. rewrite Hmiss.
    rewrite EpisodesFacts.M_bind_run. unfold fetch.
    destruct (upstream _ _) as [e t|status body t]; [done|].
    destruct (negb (ok_status status)); [done|].
    rewrite EpisodesFacts.M_bind_run. unfold lift.
    destruct body as [j|e]; [|done].
    rewrite EpisodesFacts.M_bind_run.
    destruct (prop j "errors") as [errors|e]; [|done].
    destruct (truthy errors); [done|].
    rewrite EpisodesFacts.M_bind_run.
    destruct (prop j "data") as [data|e]; [|done].
    rewrite EpisodesFacts.M_bind_run. unfold setCached.
    intros [= <- <-]. cbn [cache clock]. apply lookup_insert_eq. }
  unfold gql. fold (key_of query variables).
  rewrite EpisodesFacts.M_bind_run. unfold getCached at 1.
  unfold Cache.getCached. rewrite Hkept, Hstored. cbn [Cache.at_ Cache.data].
  destruct (Z.gtb_spec (clock w2 - clock w1) Cache.TTL_MS) as [Hold|_]; [lia|].
  by rewrite Hdata.
Qed.
End Gql.

Definition trending : jsval :=
  JObj [(js "data",
         JObj [(js "Page",
                JObj [(js "media",
                       JArr [JObj [(js "id", JNum (JsNum.of_Z 16498));
                                   (js "idMal", JNum (JsNum.of_Z 16498))]])])])].

Definition anilist_up : nat → request → outcome :=
  fun _ _ => Responded 200 (Ok trending) 250.

Definition anilist_down : nat → request → outcome :=
  fun _ _ => Responded 503 (Ok JNull) 10.

Definition cold : world := {| cache := ∅; clock := 0; calls := 0 |}.

Definition variables : jsval := JObj [(js "perPage", JNum (JsNum.of_Z 24))].

Definition first_call : result jsval * world :=
  gql Runtime.ToString Runtime.JSON_stringify Runtime.base64 anilist_up
    trendingQuery variables cold.

Definition four_minutes_later : world :=
  {| cache := cache first_call.2; clock := 240250; calls := calls first_call.2 |}.

Lemma gql_replays_witness :
  calls first_call.2 = 1%nat
  ∧ gql Runtime.ToString Runtime.JSON_stringify Runtime.base64 anilist_down
      trendingQuery variables four_minutes_later
    = (Ok (opt_prop trending "data"), four_minutes_later).
Proof.
  split; [vm_compute; reflexivity|].
  assert (first_call.1 = Ok (opt_prop trending "data")) as Hfirst
    by (vm_compute; reflexivity).
  apply (gql_replays Runtime.ToString Runtime.JSON_stringify Runtime.base64
           anilist_up anilist_down trendingQuery variables cold first_call.2).
  - vm_compute. reflexivity.
  - rewrite <- Hfirst. apply surjective_pairing.
  - vm_compute. reflexivity.
  - unfold four_minutes_later. cbn [cache]. reflexivity.
  - vm_compute. discriminate.
Defined.
End GqlFacts.

(** ** The synopsis *)
Module SynopsisFacts.
Import ReplaceAll Synopsis.

(** No tag begins anywhere in [t]. *)
Definition no_tag (t : jsstring) : Prop := ∀ i, tag (drop i t) = None.

Lemma no_tag_cons c t : tag (c :: t) = None → no_tag t → no_tag (c :: t).
Proof. intros Hc Ht [|i]; [exact Hc | apply Ht]. Qed.

Lemma skip_nil p s : skip p s = [] → Forall (fun c => p c = true) s.
Proof.
  induction s as [|c s IH]; cbn [skip]; [constructor|].
  destruct (p c) eqn:Hc; [|done]. intros Hs. constructor; [done | by apply IH].
Qed.

Lemma skip_all p s : Forall (fun c => p c = true) s → skip p s = [].
Proof. induction 1 as [|c s Hc _ IH]; cbn [skip]; [done|]. by rewrite Hc. Qed.

(** The two characters the pattern names. *)
Lemma tag_head c s : c ≠ 60%N → tag (c :: s) = None.
Proof.
  intros Hc. unfold tag. destruct c as [|p]; [done|].
  repeat (destruct p as [p|p|]; try done).
Qed.

Lemma tag_lt s :
  tag (60%N :: s) = match many not_gt s with
                    | Some (d :: rest) => if (d =? 62)%N then Some rest else None
                    | _ => None
                    end.
Proof.
  unfold tag. destruct (many not_gt s) as [[|d rest]|]; try done.
  destruct d as [|p]; [done|].
  repeat (destruct p as [p|p|]; try done).
Qed.

(** Without a [>] there is no tag. *)
Lemma tag_needs_gt s : Forall (fun c => not_gt c = true) s → tag s = None.
Proof.
  intros Hs. destruct s as [|c s]; [done|].
  destruct (decide (c = 60%N)) as [->|Hc]; [|by apply tag_head].
  rewrite tag_lt. apply Forall_cons in Hs as [_ Hs]. unfold many.
  destruct Hs as [|d s Hd Hs]; [done|]. rewrite Hd. by rewrite skip_all.
Qed.

Lemma no_gt_no_tag s : Forall (fun c => not_gt c = true) s → no_tag s.
Proof. intros Hs i. apply tag_needs_gt. by apply Forall_drop. Qed.

Lemma replace_no_tag s : no_tag s → replace_all tag [] s = s.
Proof.
  unfold replace_all. induction s as [|c s IH]; intros Hs; cbn [replace_from]; [done|].
  rewrite (Hs 0%nat : tag (c :: s) = None). f_equal. apply IH.
  intros i. apply (Hs (S i)).
Qed.

(** A match ends inside the input: what is left is a proper suffix. *)
Lemma tag_rest c s rest :
  tag (c :: s) = Some rest → ∃ k, rest = drop k s ∧ (k ≤ length s)%nat.
Proof.
  destruct (decide (c = 60%N)) as [->|Hc]; [|by rewrite tag_head].
  rewrite tag_lt. unfold many. destruct s as [|e s]; [done|].
  destruct (not_gt e); [|done].
  destruct (ReplaceFacts.skip_suffix not_gt s) as (k & Hk & Hle).
  destruct (skip not_gt s) as [|d after] eqn:Hskip; [done|].
  destruct (d =? 62)%N; [|done]. intros [= <-].
  exists (S (S k)). cbn [drop length].
  assert (length (d :: after) = length s - k)%nat as Hlen by (by rewrite Hk, length_drop).
  cbn [length] in Hlen. split; [|lia].
  change after with (drop 1 (d :: after)). by rewrite Hk, drop_drop, Nat.add_1_r.
Qed.

Lemma replace_after_match c s rest :
  tag (c :: s) = Some rest →
  replace_all tag [] (c :: s) = replace_all tag [] rest ∧ (length rest ≤ length s)%nat.
Proof.
  intros Hm. unfold replace_all. cbn [replace_from]. rewrite Hm.
  destruct (tag_rest c s rest Hm) as (k & -> & Hk).
  rewrite app_nil_l, ReplaceFacts.replace_from_drop, length_drop.
  split; [|lia]. do 2 f_equal. lia.
Qed.

(** X16.  The synopsis has no tag left in it: nowhere in it does a [<]
    begin a match of the pattern that was removed, so removing the tags of a
    synopsis once more changes nothing. *)
Theorem synopsis_has_no_tag (m : jsval) :
  no_tag (synopsis m) ∧ replace_all tag [] (synopsis m) = synopsis m.
Proof.
  assert (∀ s, no_tag (replace_all tag [] s)) as Hclean.
  { intros s. remember (length s) as n eqn:Hn.
    assert (length s ≤ n)%nat as Hle by lia. clear Hn. revert s Hle.
    induction n as [|n IH]; intros [|c s] Hle; cbn [length] in Hle; try lia;
      try (by intros [|i]).
    destruct (tag (c :: s)) as [rest|] eqn:Hm.
    - destruct (replace_after_match c s rest Hm) as [-> Hlen]. apply IH. lia.
    - unfold replace_all. cbn [replace_from]. rewrite Hm.
      fold (replace_all tag [] s). apply no_tag_cons; [|apply IH; lia].
      destruct (decide (c = 60%N)) as [->|Hc]; [|by apply tag_head].
      rewrite tag_lt in Hm. rewrite tag_lt.
      destruct s as [|e s]; [done|]. unfold many in Hm.
      destruct (not_gt e) eqn:He.
      + pose proof (ReplaceFacts.skip_head not_gt s) as Hhead.
        destruct (skip not_gt s) as [|d after] eqn:Hskip.
        * rewrite replace_no_tag.
          -- unfold many. by rewrite He, Hskip.
          -- apply no_gt_no_tag. constructor; [done | by apply skip_nil].
        * unfold not_gt in Hhead. apply negb_false_iff in Hhead. by rewrite Hhead in Hm.
      + unfold replace_all. cbn [replace_from].
        rewrite tag_head by (intros ->; done). unfold many. by rewrite He. }
  unfold synopsis. destruct (opt_prop m "description") as [| | | |description| |];
    try (split; [by intros [|i] | done]).
  split; [apply Hclean | apply replace_no_tag, Hclean].
Qed.
End SynopsisFacts.

(** ** What a request for episodes leaves behind (AniList generation) *)
Module FootprintFacts.
Import AniList.

(** The key the Anify answer for [suffix] is filed under (line 255). *)
Definition anify_key (suffix : jsstring) : jsstring := js "anify:episodes:" ++ suffix.

(** [w'] has the Anify entries of [w], and at most [n] more requests were
    made. *)
Definition keeps_anify (n : nat) (w w' : world) : Prop :=
  (calls w' ≤ calls w + n)%nat
  ∧ ∀ suffix, cache w' !! anify_key suffix = cache w !! anify_key suffix.

Lemma keeps_anify_refl n w : keeps_anify n w w.
Proof. split; [lia | done]. Qed.

Lemma keeps_anify_trans n m w1 w2 w3 :
  keeps_anify n w1 w2 → keeps_anify m w2 w3 → keeps_anify (n + m) w1 w3.
Proof.
  intros [Hn H12] [Hm H23]. split; [lia|]. intros suffix. by rewrite H23, H12.
Qed.

Lemma M_ret_run {A} (a : A) w : (mret a : M A) w = (Ok a, w).
Proof. reflexivity. Qed.

Section Routes.
Variable StringToNumber : jsstring → JsNum.num.
Variable ToString : jsval → jsstring.
Variable JSON_stringify : jsval → jsstring.
Variable base64 : jsstring → jsstring.
Variable Summary : Type.
Variable upstream : nat → request → outcome.

Lemma gql_footprint query variables w :
  keeps_anify 1 w (gql ToString JSON_stringify base64 upstream query variables w).2.
Proof.
  unfold gql. rewrite EpisodesFacts.M_bind_run. unfold getCached at 1.
  destruct (truthy _); [apply keeps_anify_refl|].
  rewrite EpisodesFacts.M_bind_run. unfold fetch.
  assert (∀ t, keeps_anify 1 w (after w t)) as Hafter.
  { intros t. split; [cbn; lia | done]. }
  destruct (upstream _ _) as [e t|status body t]; [apply Hafter|].
  destruct (negb (ok_status status)); [apply Hafter|].
  rewrite EpisodesFacts.M_bind_run. unfold lift.
  destruct body as [j|e]; [|apply Hafter].
  rewrite EpisodesFacts.M_bind_run.
  destruct (prop j "errors") as [errors|e]; [|apply Hafter].
  destruct (truthy errors); [apply Hafter|].
  rewrite EpisodesFacts.M_bind_run.
  destruct (prop j "data") as [data|e]; [|apply Hafter].
  rewrite EpisodesFacts.M_bind_run. unfold setCached. cbn [snd].
  split; [cbn; lia|]. intros suffix. cbn [cache]. unfold Cache.setCached.
  apply lookup_insert_ne. unfold anify_key. intros Heq.
  apply (f_equal head) in Heq. vm_compute in Heq. discriminate.
Qed.

Lemma lookup_media_footprint query variables w :
  keeps_anify 1 w
    (lookup_media ToString JSON_stringify base64 upstream query variables w).2.
Proof.
  unfold lookup_media, try_catch. rewrite EpisodesFacts.M_bind_run.
  pose proof (gql_footprint query variables w) as H.
  destruct (gql _ _ _ _ _ _ _) as [[found|e] w1]; cbn [snd] in H; [|exact H].
  by destruct (truthy _).
Qed.

Lemma getAniIdsByMalOrAni_footprint idRaw w :
  keeps_anify 2 w
    (getAniIdsByMalOrAni StringToNumber ToString JSON_stringify base64 upstream idRaw w).2.
Proof.
  unfold getAniIdsByMalOrAni.
  destruct (StringToNumber idRaw) as [| |q]; try apply keeps_anify_refl.
  rewrite EpisodesFacts.M_bind_run.
  pose proof (lookup_media_footprint byMalQuery (JObj [(js "idMal", JNum (JsNum.Fin q))]) w)
    as H1.
  destruct (lookup_media _ _ _ _ byMalQuery _ _) as [[[ids|]|e] w1]; cbn [snd] in H1.
  - eapply (keeps_anify_trans 1 1); [exact H1 | apply keeps_anify_refl].
  - rewrite EpisodesFacts.M_bind_run.
    pose proof (lookup_media_footprint byIdQuery (JObj [(js "id", JNum (JsNum.Fin q))]) w1)
      as H2.
    destruct (lookup_media _ _ _ _ byIdQuery _ _) as [[[ids|]|e] w2]; cbn [snd] in H2;
      by apply (keeps_anify_trans 1 1 w w1 w2).
  - eapply (keeps_anify_trans 1 1); [exact H1 | apply keeps_anify_refl].
Qed.

Lemma lookup_media_returns query variables w :
  ∃ found w', lookup_media ToString JSON_stringify base64 upstream query variables w
              = (Ok found, w').
Proof.
  unfold lookup_media, try_catch. rewrite EpisodesFacts.M_bind_run.
  destruct (gql _ _ _ _ _ _ _) as [[found|e] w1]; [|by eauto].
  destruct (truthy _); by eauto.
Qed.

(** X18.  Resolving a title never fails a request.  Whatever AniList does,
    [getAniIdsByMalOrAni] returns: it makes at most two requests, and for an
    id that reads as no finite number it makes none and returns no ids. *)
Theorem getAniIdsByMalOrAni_returns (idRaw : jsstring) (w : world) :
  ∃ ids w',
    getAniIdsByMalOrAni StringToNumber ToString JSON_stringify base64 upstream idRaw w
    = (Ok ids, w')
    ∧ (calls w' ≤ calls w + 2)%nat
    ∧ match StringToNumber idRaw with
      | JsNum.Fin _ => True
      | _ => w' = w ∧ ids = {| ids_id := JNull; ids_idMal := JNull |}
      end.
Proof.
  pose proof (getAniIdsByMalOrAni_footprint idRaw w) as [Hcalls _].
  revert Hcalls. unfold getAniIdsByMalOrAni.
  destruct (StringToNumber idRaw) as [| |q]; [by eauto 6..|].
  rewrite EpisodesFacts.M_bind_run.
  destruct (lookup_media_returns byMalQuery (JObj [(js "idMal", JNum (JsNum.Fin q))]) w)
    as ([ids|] & w1 & ->); [by eauto 6|].
  rewrite EpisodesFacts.M_bind_run.
  destruct (lookup_media_returns byIdQuery (JObj [(js "id", JNum (JsNum.Fin q))]) w1)
    as ([ids|] & w2 & ->); by eauto 6.
Qed.











End Routes.


End FootprintFacts.

(** ** The streaming route of the Jikan generation *)
Module JikanStreamingFacts.
Import JikanRoutes JikanStreaming.

Section Routes.
Variable ToString : jsval → jsstring.
Variable toLowerCase : jsstring → jsstring.
Variable upstream : nat → request → outcome.

Lemma fetch_run req w :
  fetch upstream req w
  = match upstream (calls w) req with
    | Rejected e t => (Throw e, after w t)
    | Responded status body t => (Ok (status, body), after w t)
    end.
Proof. reflexivity. Qed.

Lemma watch_returns slug p w :
  ∃ found t, watch upstream slug p w = (Ok found, after w t).
Proof.
  unfold watch, try_catch. rewrite EpisodesFacts.M_bind_run, fetch_run.
  destruct (upstream _ _) as [e t|status body t]; [by eauto|].
  destruct (negb (ok_status status)); [by eauto|].
  rewrite EpisodesFacts.M_bind_run. unfold lift. destruct body; by eauto.
Qed.

Lemma watch_all_returns slug ps : ∀ links w,
  ∃ found w', watch_all upstream slug ps links w = (Ok found, w')
              ∧ calls w' = (calls w + length ps)%nat.
Proof.
  induction ps as [|p ps IH]; intros links w; cbn [watch_all length].
  - exists links, w. split; [done | lia].
  - rewrite EpisodesFacts.M_bind_run.
    destruct (watch_returns slug p w) as (found & t & ->).
    destruct (IH (links ++ found) (after w t)) as (all & w' & -> & Hn).
    exists all, w'. split; [done|]. cbn in Hn. lia.
Qed.

Lemma jikan_links_returns id w :
  ∃ found t, jikan_links upstream id w = (Ok found, after w t).
Proof.
  unfold jikan_links, try_catch. rewrite EpisodesFacts.M_bind_run, fetch_run.
  destruct (upstream _ _) as [e t|status body t]; [by eauto|].
  rewrite EpisodesFacts.M_bind_run. unfold lift. destruct body as [j2|e]; [|by eauto].
  rewrite EpisodesFacts.M_bind_run. destruct (prop j2 "data") as [data|e]; [|by eauto].
  destruct (or_val data (JArr [])) as [| | | | |items|]; try by eauto.
  destruct (mapM station items); by eauto.
Qed.

(** The title the route reads off the body of the title request (lines
    452-455). *)
Definition title_of (infoJson : jsval) : jsval :=
  let data := opt_prop infoJson "data" in
  or_val (opt_prop data "title")
    (or_val (opt_prop data "title_english") (opt_prop data "title_japanese")).

Lemma falsy_printable v : truthy v = false → printable v = true.
Proof. by destruct v. Qed.

(** X19.  An outage of a provider never fails the streams of the Jikan
    generation.  The route answers 500 exactly in three cases: the first
    request, the one for the title, is rejected; its body is no JSON; the
    title in it is a value [String] throws on, such as
    [{ "toString": null }], which [slugify] meets outside the [try] of the
    loop.  In every other case the answer is a list of links, whatever the
    three providers and the streaming fallback do.  No more than five
    requests are made. *)
Theorem getStreaming_isolates_providers (params_id : jsstring) (w : world) :
  let '(a, w') := getStreaming ToString toLowerCase upstream params_id w in
  (calls w' ≤ calls w + 5)%nat
  ∧ match upstream (calls w)
            (Get [JStr (js JIKAN_BASE); JStr (js "/anime/"); JStr params_id]) with
    | Responded _ (Ok infoJson) _ =>
        if printable (title_of infoJson)
        then ∃ links, a = Links links
        else a = Failed (JStr (js "Cannot convert object to primitive value"))
    | _ => ∃ error, a = Failed error
    end.
Proof.
  unfold getStreaming. cbv zeta. rewrite EpisodesFacts.M_bind_run, fetch_run.
  destruct (upstream _ _) as [e t|status body t];
    [split; [cbn; lia | by eauto]|].
  rewrite EpisodesFacts.M_bind_run. unfold lift at 1.
  destruct body as [infoJson|e]; [|split; [cbn; lia | by eauto]].
  fold (title_of infoJson).
  destruct (truthy (title_of infoJson)) eqn:Htitle; cbn [negb].
  2: { rewrite (falsy_printable _ Htitle). split; [cbn; lia | by eauto]. }
  rewrite EpisodesFacts.M_bind_run. unfold lift at 1, slugified, or_val at 1.
  rewrite Htitle.
  destruct (printable (title_of infoJson)); [|split; [cbn; lia | reflexivity]].
  rewrite EpisodesFacts.M_bind_run.
  match goal with
  | |- context [watch_all upstream ?slug providers [] ?w0] =>
      destruct (watch_all_returns slug providers [] w0) as (links & w1 & -> & Hn)
  end.
  cbn in Hn. rewrite EpisodesFacts.M_bind_run.
  destruct links as [|l links].
  - destruct (jikan_links_returns params_id w1) as (found & t2 & ->).
    split; [cbn; lia | by eauto].
  - split; [cbn; lia | by eauto].
Qed.
End Routes.

(** Jikan answers with a title that is an object with a [toString] of its
    own. *)
Definition odd_title : nat → request → outcome := fun _ _ =>
  Responded 200
    (Ok (JObj [(js "data", JObj [(js "title", JObj [(js "toString", JNull)])])])) 5.

(** The theorem at work on that answer: the route answers 500. *)
Lemma getStreaming_isolates_providers_witness :
  (getStreaming Runtime.ToString Latin.toLowerCase odd_title (js "1") FetchFacts.fresh).1
  = Failed (JStr (js "Cannot convert object to primitive value")).
Proof.
  exact (proj2 (getStreaming_isolates_providers Runtime.ToString Latin.toLowerCase odd_title
                  (js "1") FetchFacts.fresh)).
Defined.
End JikanStreamingFacts.

(** ** The info route of the Jikan generation *)
Module JikanInfoFacts.
Import JikanRoutes JikanInfo.

(** [m] does not throw, and what it returns satisfies [P]. *)
Definition returns {A} (P : A → Prop) (m : M A) : Prop :=
  ∀ w, ∃ a w', m w = (Ok a, w') ∧ P a.

(** [m] returns a value satisfying [P] whenever it returns. *)
Definition yields {A} (P : A → Prop) (m : M A) : Prop :=
  ∀ w a w', m w = (Ok a, w') → P a.

Lemma yields_ret {A} (P : A → Prop) (a : A) : P a → yields P (mret a).
Proof. intros Ha w a' w' [= <- <-]. exact Ha. Qed.

Lemma yields_bind {A B} (P : B → Prop) (m : M A) (k : A → M B) :
  (∀ a, yields P (k a)) → yields P (m ≫= k).
Proof.
  intros Hk w b w'. rewrite EpisodesFacts.M_bind_run.
  destruct (m w) as [[a|e] w1]; [apply Hk | done].
Qed.

Lemma yields_after {A B} (Q : A → Prop) (P : B → Prop) (m : M A) (k : A → M B) :
  yields Q m → (∀ a, Q a → yields P (k a)) → yields P (m ≫= k).
Proof.
  intros Hm Hk w b w'. rewrite EpisodesFacts.M_bind_run.
  destruct (m w) as [[a|e] w1] eqn:Hw; [|done]. apply Hk. by eapply Hm.
Qed.

Lemma caught {A} (P : A → Prop) (m : M A) (a0 : A) :
  yields P m → P a0 → returns P (try_catch m (fun _ => mret a0)).
Proof.
  intros Hm Ha w. unfold try_catch.
  destruct (m w) as [[a|e] w'] eqn:Hw; [|by eauto].
  exists a, w'. split; [done | by eapply Hm].
Qed.

(** A reply, if any, is a 200. *)
Definition found_ok (r : option reply) : Prop :=
  match r with
  | Some r => code r = 200
  | None => True
  end.

Section Routes.
Variable ToString : jsval → jsstring.
Variable encodeURIComponent : jsstring → jsstring.
Variable mapAnime : jsval → M jsval.
Variable seasons_of : jsval → M jsval.
Variable upstream : nat → request → outcome.

Lemma full_answer_yields data :
  yields (fun r => code r = 200) (full_answer mapAnime seasons_of data).
Proof.
  unfold full_answer. apply yields_bind. intros base.
  apply yields_bind. intros seasons. by apply yields_ret.
Qed.

Lemma by_title_returns raw :
  returns found_ok (by_title ToString encodeURIComponent mapAnime upstream raw).
Proof.
  apply caught; [|done].
  apply yields_bind. intros [status body].
  destruct (ok_status status); [|by apply yields_ret].
  apply yields_bind. intros sj. apply yields_bind. intros listed. cbv zeta.
  destruct (_ && _); [|by apply yields_ret].
  apply yields_bind. intros malId.
  apply yields_bind. intros data.
  destruct (truthy data); [|by apply yields_ret].
  apply yields_bind. intros summary. by apply yields_ret.
Qed.

Lemma by_provider_returns raw p :
  returns found_ok
    (by_provider ToString mapAnime seasons_of upstream raw p).
Proof.
  apply caught; [|done].
  apply yields_bind. intros [status body].
  destruct (negb (ok_status status)); [by apply yields_ret|].
  apply yields_bind. intros j. cbv zeta.
  apply (yields_after found_ok).
  - destruct (truthy _); [|by apply yields_ret].
    apply yields_bind. intros malId.
    apply yields_bind. intros data.
    destruct (truthy data); [|by apply yields_ret].
    apply (yields_after (fun r => code r = 200)); [apply full_answer_yields|].
    intros r Hr. by apply yields_ret.
  - intros [r|] Hr; [by apply yields_ret|].
    destruct (truthy _); [|by apply yields_ret].
    apply yields_bind. intros base. by apply yields_ret.
Qed.

Lemma by_providers_returns raw ps :
  returns found_ok
    (by_providers ToString mapAnime seasons_of upstream raw ps).
Proof.
  induction ps as [|p ps IH]; intros w; cbn [by_providers].
  - by exists None, w.
  - rewrite EpisodesFacts.M_bind_run.
    destruct (by_provider_returns raw p w) as ([r|] & w1 & -> & Hr).
    + by exists (Some r), w1.
    + apply IH.
Qed.

(** X20.  A look-up by slug is answered, never failed.  For an id that is
    not a string of digits the info route answers 200 or 404, whatever Jikan
    and the providers do and whatever [mapAnime] and the season chain throw:
    every step on that path sits in a [try] whose [catch] is empty. *)
Theorem getInfo_by_slug_never_fails (raw : jsstring) (w : world)
    (Hslug : all_digits raw = false) :
  let r := (getInfo ToString encodeURIComponent mapAnime seasons_of upstream raw w).1 in
  code r = 200 ∨ code r = 404.
Proof.
  cbv zeta. unfold getInfo, handle. rewrite Hslug.
  rewrite EpisodesFacts.M_bind_run, FootprintFacts.M_ret_run.
  rewrite EpisodesFacts.M_bind_run.
  destruct (by_title_returns raw w) as ([r|] & w1 & -> & Hr); [by left|].
  rewrite EpisodesFacts.M_bind_run.
  destruct (by_providers_returns raw ["gogoanime"; "zoro"; "animepahe"] w1)
    as ([r|] & w2 & -> & Hr2); [by left | by right].
Qed.
End Routes.

Definition down : nat → request → outcome :=
  fun _ _ => Rejected (Thrown (JStr (js "fetch failed"))) 3.

Definition no_summary : jsval → M jsval :=
  fun _ => throw (Thrown (JStr (js "Cannot read properties of null"))).

Lemma getInfo_by_slug_never_fails_witness :
  (getInfo Runtime.ToString (fun s => s) no_summary no_summary down
     (js "attack-on-titan") {| cache := ∅; clock := 0; calls := 0 |}).1 = not_found
  ∧ (code (getInfo Runtime.ToString (fun s => s) no_summary no_summary down
             (js "attack-on-titan") {| cache := ∅; clock := 0; calls := 0 |}).1 = 200
     ∨ code (getInfo Runtime.ToString (fun s => s) no_summary no_summary down
               (js "attack-on-titan") {| cache := ∅; clock := 0; calls := 0 |}).1 = 404).
Proof.
  split; [vm_compute; reflexivity|].
  apply (getInfo_by_slug_never_fails Runtime.ToString (fun s => s) no_summary no_summary
           down (js "attack-on-titan") {| cache := ∅; clock := 0; calls := 0 |}).
  vm_compute. reflexivity.
Defined.
End JikanInfoFacts.

(** ** The info route of the AniList generation *)
Module AniListInfoFacts.
Import AniList JikanRoutes AniListInfo.

(** X21.  An outage of AniList reads as "Not found".  With nothing in the
    cache and every request to AniList failing in transport, the info route
    answers 404 with [{ error: "Not found" }], not 500: the failure is
    swallowed where the id is resolved. *)
Theorem getInfo_outage_is_not_found
    (StringToNumber : jsstring → JsNum.num) (ToString JSON_stringify : jsval → jsstring)
    (base64 : jsstring → jsstring) (mapAnilistToSummary seasons_from : jsval → M jsval)
    (upstream : nat → request → outcome) (params_id : jsstring) (w : world)
    (Hcold : cache w = ∅)
    (Hdown : ∀ n req, FacadeFacts.transport_failure (upstream n req)) :
  (getInfo StringToNumber ToString JSON_stringify base64 mapAnilistToSummary seasons_from
     upstream params_id w).1
  = JikanInfo.not_found.
Proof.
  destruct (FacadeFacts.ids_unresolved_on_failure StringToNumber ToString JSON_stringify
              base64 upstream (JsString.trim params_id) w Hcold Hdown) as [w' Hids].
  unfold getInfo, handle. rewrite EpisodesFacts.M_bind_run, Hids. reflexivity.
Qed.

Definition unavailable : nat → request → outcome :=
  fun _ _ => Responded 503 (Ok JNull) 40.

Lemma getInfo_outage_is_not_found_witness :
  (getInfo Decimal.StringToNumber Runtime.ToString Runtime.JSON_stringify Runtime.base64
     (fun m => mret m) (fun _ => mret (JArr [])) unavailable (js "16498")
     {| cache := ∅; clock := 0; calls := 0 |}).1
  = {| code := 404; sent := JObj [(js "error", JStr (js "Not found"))] |}.
Proof.
  apply (getInfo_outage_is_not_found Decimal.StringToNumber Runtime.ToString
           Runtime.JSON_stringify Runtime.base64 (fun m => mret m)
           (fun _ => mret (JArr [])) unavailable (js "16498")
           {| cache := ∅; clock := 0; calls := 0 |}).
  - reflexivity.
  - intros n req. reflexivity.
Defined.
End AniListInfoFacts.
